(** * AryFlix backend: ranking, deduplication, filtering and trailer resolution

    A shallow embedding of the pure parts of [aryflix-backend/tmdbAPI.js]
    and the properties its specification states about them.

    Modelling conventions.
    - JavaScript strings are [string]s of 8-bit code units; [toLowerCase]
      and the [\s] class are the ASCII ones.
    - A JavaScript number is a [number]: a real, an infinity or NaN.
      Rounding of IEEE doubles and the sign of zero are not modelled.
    - A JSON field that may be absent is an [option]: [None] stands for
      both [undefined] and [null], which the code below never tells apart
      (both are falsy, both compare false against a number, and reading a
      property of either throws [TypeError]).
    - Code that can throw returns a [result]. *)

From stdpp Require Import base gmap strings.
From Stdlib Require Import ZArith List Bool Ascii String Lia.
From Stdlib Require Import Reals Lra Permutation Sorted.
From Stdlib Require Import DecimalString DecimalPos DecimalZ.
Import ListNotations.

Local Open Scope string_scope.
Local Open Scope Z_scope.

(** ** Exceptions *)

Inductive error : Type :=
| TypeError
| ProviderError
| Error (message : string).

Inductive result (A : Type) : Type :=
| Ok (a : A)
| Throw (e : error).
Arguments Ok {A} a.
Arguments Throw {A} e.

#[global] Instance result_ret : MRet result := @Ok.

#[global] Instance result_bind : MBind result :=
  fun A B k m =>
    match m with
    | Ok a => k a
    | Throw e => Throw e
    end.

(** ** Strings *)

Module JsString.

Definition lowerChar (c : ascii) : ascii :=
  let n := nat_of_ascii c in
  if (Nat.leb 65 n && Nat.leb n 90)%bool then ascii_of_nat (n + 32) else c.

Fixpoint toLowerCase (s : string) : string :=
  match s with
  | EmptyString => EmptyString
  | String c s' => String (lowerChar c) (toLowerCase s')
  end.

Fixpoint startsWith (s q : string) : bool :=
  match q with
  | EmptyString => true
  | String c q' =>
      match s with
      | EmptyString => false
      | String d s' => (Ascii.eqb c d && startsWith s' q')%bool
      end
  end.

Fixpoint includes (s q : string) : bool :=
  (startsWith s q ||
   match s with
   | EmptyString => false
   | String _ s' => includes s' q
   end)%bool.

(** The class [\s], restricted to ASCII: TAB, LF, VT, FF, CR and space. *)
Definition isSpace (c : ascii) : bool :=
  let n := nat_of_ascii c in
  (Nat.leb 9 n && Nat.leb n 13 || Nat.eqb n 32)%bool.

Definition headIsSpace (s : string) : bool :=
  match s with
  | EmptyString => false
  | String c _ => isSpace c
  end.

(** [s.split(/\s+/)]: the pieces between maximal runs of white space.
    A leading or trailing run yields an empty piece, and the empty
    string splits into one empty piece. *)
Fixpoint split_ws (s : string) : list string :=
  match s with
  | EmptyString => [EmptyString]
  | String c s' =>
      if isSpace c then
        if headIsSpace s' then split_ws s' else EmptyString :: split_ws s'
      else
        match split_ws s' with
        | w :: ws => String c w :: ws
        | [] => [String c EmptyString]
        end
  end.

(** [Number.prototype.toString] on an integer. *)
Definition ofZ (z : Z) : string := NilZero.string_of_int (Z.to_int z).

End JsString.

(** [x.toLowerCase()] on a value that may be [undefined]. *)
Definition String_toLowerCase (s : option string) : result string :=
  match s with
  | Some s => Ok (JsString.toLowerCase s)
  | None => Throw TypeError
  end.

(** ** Numbers *)

Inductive number : Type :=
| NaN
| Inf (negative : bool)
| Num (r : R).

Module JsNum.

Definition add (a b : number) : number :=
  match a, b with
  | NaN, _ | _, NaN => NaN
  | Inf s, Inf s' => if Bool.eqb s s' then Inf s else NaN
  | Inf s, Num _ | Num _, Inf s => Inf s
  | Num x, Num y => Num (x + y)
  end.

Definition neg (a : number) : number :=
  match a with
  | NaN => NaN
  | Inf s => Inf (negb s)
  | Num x => Num (- x)
  end.

Definition sub (a b : number) : number := add a (neg b).

Definition scaleInf (s : bool) (x : R) : number :=
  if Rlt_dec 0 x then Inf s
  else if Rlt_dec x 0 then Inf (negb s)
  else NaN.

Definition mul (a b : number) : number :=
  match a, b with
  | NaN, _ | _, NaN => NaN
  | Inf s, Inf s' => Inf (xorb s s')
  | Inf s, Num x | Num x, Inf s => scaleInf s x
  | Num x, Num y => Num (x * y)
  end.

(** [Math.log] *)
Definition log (a : number) : number :=
  match a with
  | NaN => NaN
  | Inf true => NaN
  | Inf false => Inf false
  | Num x =>
      if Rlt_dec 0 x then Num (ln x)
      else if Rlt_dec x 0 then NaN
      else Inf true
  end.

(** [a > 0] *)
Definition positive (a : number) : bool :=
  match a with
  | NaN => false
  | Inf s => negb s
  | Num x => if Rlt_dec 0 x then true else false
  end.

(** [a < b] *)
Definition lt (a b : number) : bool := positive (sub b a).

(** [a === b] *)
Definition same (a b : number) : bool :=
  match a, b with
  | Num x, Num y => if Req_dec_T x y then true else false
  | Inf s, Inf s' => Bool.eqb s s'
  | _, _ => false
  end.

End JsNum.

(** A numeric JSON field: [None] when it is absent or [null]. *)
Definition field := option R.

(** [x || d] *)
Definition or_default (x : field) (d : R) : number :=
  match x with
  | Some r => if Req_dec_T r 0 then Num d else Num r
  | None => Num d
  end.

(** Truthiness of a numeric field. *)
Definition truthy (x : field) : bool :=
  match x with
  | Some r => if Req_dec_T r 0 then false else true
  | None => false
  end.

(** [x > c] for a numeric field [x] and a bound [c >= 0]: [undefined]
    converts to NaN and [null] to 0, neither of which is above [c]. *)
Definition field_gt (x : field) (c : R) : bool :=
  match x with
  | Some r => if Rlt_dec c r then true else false
  | None => false
  end.

(** [x / c] for a field that the caller has found truthy. *)
Definition field_div (x : field) (c : R) : number :=
  match x with
  | Some r => Num (r / c)
  | None => NaN
  end.

(** ** The Ranker: [calculateSmartScore] *)

(** The nested [forEach] loops that count word matches. *)
Definition countWordMatches (queryWords titleWords : list string) : Z :=
  fold_left
    (fun wordMatches queryWord =>
       fold_left
         (fun wordMatches titleWord =>
            if (JsString.includes titleWord queryWord
                || JsString.includes queryWord titleWord)%bool
            then wordMatches + 1
            else wordMatches)
         titleWords wordMatches)
    queryWords 0.

Definition calculateSmartScore
    (title query : option string) (popularity rating voteCount : field)
    : result number :=
  titleLower ← String_toLowerCase title;
  queryLower ← String_toLowerCase query;
  let score := JsNum.mul (JsNum.log (or_default popularity 1)) (Num 50) in
  let score :=
    if (truthy rating && field_gt voteCount 100)%bool
    then JsNum.add score (JsNum.mul (field_div rating 10) (Num 20))
    else score in
  let score :=
    if JsString.includes titleLower queryLower then
      let score := JsNum.add score (Num 30) in
      let score :=
        if String.eqb titleLower queryLower
        then JsNum.add score (Num 20) else score in
      let score :=
        if JsString.startsWith titleLower queryLower
        then JsNum.add score (Num 15) else score in
      score
    else score in
  let titleWords := JsString.split_ws titleLower in
  let queryWords := JsString.split_ws queryLower in
  let wordMatches := countWordMatches queryWords titleWords in
  Ok (JsNum.add score (Num (IZR (wordMatches * 5)))).

(** The three summands of the score, named as the specification names
    them.  [popularityTerm] is the initial value of [score],
    [qualityTerm] what the guarded [+=] adds to it. *)
Definition popularityTerm (popularity : field) : number :=
  JsNum.mul (JsNum.log (or_default popularity 1)) (Num 50).

Definition qualityTerm (rating voteCount : field) : number :=
  if (truthy rating && field_gt voteCount 100)%bool
  then JsNum.mul (field_div rating 10) (Num 20)
  else Num 0.

(** The popularity term as the specification words it, for an item whose
    popularity is the number [p]. *)
Definition spec_popularityTerm (p : R) : number :=
  Num (ln (Rmax p 1) * 50).

(** A popularity the provider can report: absent, or not negative. *)
Definition validPopularity (popularity : field) : Prop :=
  match popularity with
  | Some p => (0 <= p)%R
  | None => True
  end.

(** The title-relevance contribution, written after the specification:
    independent bonuses for contains, equals and starts-with, and five
    points for each pair of the Cartesian product of query words and title
    words in which one word contains the other. *)
Definition wordsOverlap (pair : string * string) : bool :=
  let (queryWord, titleWord) := pair in
  (JsString.includes titleWord queryWord
   || JsString.includes queryWord titleWord)%bool.

Definition spec_titleRelevance (title query : string) : Z :=
  let titleLower := JsString.toLowerCase title in
  let queryLower := JsString.toLowerCase query in
  (if JsString.includes titleLower queryLower then 30 else 0)
  + (if String.eqb titleLower queryLower then 20 else 0)
  + (if JsString.startsWith titleLower queryLower then 15 else 0)
  + 5 * Z.of_nat (List.length
        (List.filter wordsOverlap
           (list_prod (JsString.split_ws queryLower)
                      (JsString.split_ws titleLower)))).

(** ** Media items and the search operation *)

Module Media.

Record genre : Type := Genre { genre_id : Z; genre_name : string }.

Record item : Type := Item {
  id : Z;
  media_type : option string;
  title : option string;
  name : option string;
  release_date : option string;
  first_air_date : option string;
  poster_path : option string;
  popularity : field;
  vote_average : field;
  vote_count : field;
  genres : option (list genre);
  original_language : option string
}.

End Media.

(** Truthiness of a string field: absent and empty strings are falsy. *)
Definition truthyStr (s : option string) : bool :=
  match s with
  | Some EmptyString | None => false
  | Some _ => true
  end.

(** A template literal prints an absent value as [undefined]. *)
Definition interpolate (s : option string) : string :=
  match s with
  | Some s => s
  | None => "undefined"
  end.

Definition posterUrl (poster_path : option string) : option string :=
  if truthyStr poster_path
  then Some ("https://image.tmdb.org/t/p/w500" ++ interpolate poster_path)
  else None.

(** [{ ...movie, media_type: 'movie', poster_path: ... }] *)
Definition processMovie (movie : Media.item) : Media.item :=
  {| Media.id := Media.id movie;
     Media.media_type := Some "movie";
     Media.title := Media.title movie;
     Media.name := Media.name movie;
     Media.release_date := Media.release_date movie;
     Media.first_air_date := Media.first_air_date movie;
     Media.poster_path := posterUrl (Media.poster_path movie);
     Media.popularity := Media.popularity movie;
     Media.vote_average := Media.vote_average movie;
     Media.vote_count := Media.vote_count movie;
     Media.genres := Media.genres movie;
     Media.original_language := Media.original_language movie |}.

(** [{ ...show, media_type: 'tv', poster_path: ..., title: show.name,
       release_date: show.first_air_date }] *)
Definition processShow (show : Media.item) : Media.item :=
  {| Media.id := Media.id show;
     Media.media_type := Some "tv";
     Media.title := Media.name show;
     Media.name := Media.name show;
     Media.release_date := Media.first_air_date show;
     Media.first_air_date := Media.first_air_date show;
     Media.poster_path := posterUrl (Media.poster_path show);
     Media.popularity := Media.popularity show;
     Media.vote_average := Media.vote_average show;
     Media.vote_count := Media.vote_count show;
     Media.genres := Media.genres show;
     Media.original_language := Media.original_language show |}.

(** [Array.prototype.sort(comparefn)].  ECMAScript requires the sort to be
    stable and places [a] after [b] only when [comparefn(a, b) > 0] (a NaN
    result counts as 0); an exception of the comparator aborts the sort.
    The comparator is given here by that test, [after a b].  The model
    inserts each element, from the right, in front of the sorted rest and
    moves it back past the elements it must come after.  When the
    comparator is a consistent order every stable sort computes the same
    array (see [ranked_unique] below); when it is not, as with scores that
    are NaN, the language leaves the order to the implementation, and the
    order this model computes says nothing about the program.  Arrays of
    length 0 and 1 are returned without calling the comparator. *)
Fixpoint Array_insert {A : Type} (after : A -> A -> result bool)
    (x : A) (sorted : list A) : result (list A) :=
  match sorted with
  | [] => Ok [x]
  | y :: rest =>
      swap ← after x y;
      if swap : bool then
        rest' ← Array_insert after x rest;
        Ok (y :: rest')
      else Ok (x :: y :: rest)
  end.

Fixpoint Array_sort {A : Type} (after : A -> A -> result bool)
    (array : list A) : result (list A) :=
  match array with
  | [] => Ok []
  | x :: rest =>
      sorted ← Array_sort after rest;
      Array_insert after x sorted
  end.

(** [try { body } catch (error) { handler }] *)
Definition try_catch {A : Type} (body : result A) (handler : error -> result A)
    : result A :=
  match body with
  | Ok a => Ok a
  | Throw e => handler e
  end.

Definition smartScore (query : option string) (a : Media.item) : result number :=
  calculateSmartScore (Media.title a) query (Media.popularity a)
    (Media.vote_average a) (Media.vote_count a).

(** The comparator of [allResults.sort]: [scoreB - scoreA > 0]. *)
Definition compareSmartScore (query : option string) (a b : Media.item)
    : result bool :=
  scoreA ← smartScore query a;
  scoreB ← smartScore query b;
  Ok (JsNum.positive (JsNum.sub scoreB scoreA)).

(** The score the comparator computes for an item whose title is a string
    (NaN stands in where the computation throws). *)
Definition scoreOf (query : string) (a : Media.item) : number :=
  match smartScore (Some query) a with
  | Ok score => score
  | Throw _ => NaN
  end.

(** The ranking step of [searchMoviesAndTV]. *)
Definition rankResults (query : option string) (allResults : list Media.item)
    : result (list Media.item) :=
  Array_sort (compareSmartScore query) allResults.

(** [searchMoviesAndTV], given the outcome of the two provider calls. *)
Definition searchMoviesAndTV (query : option string)
    (moviesResponse tvResponse : result (list Media.item))
    : result (list Media.item) :=
  try_catch
    (moviesResults ← moviesResponse;
     tvResults ← tvResponse;
     let movies := List.map processMovie moviesResults in
     let tvShows := List.map processShow tvResults in
     let allResults := (movies ++ tvShows)%list in
     allResults ← rankResults query allResults;
     Ok (firstn 20 allResults))
    (fun _ => Throw (Error "Failed to search content")).

(** What every item of a search result looks like. *)
Definition normalized (it : Media.item) : Prop :=
  (Media.media_type it = Some "movie" \/ Media.media_type it = Some "tv")
  /\ (Media.media_type it = Some "tv" ->
      Media.title it = Media.name it
      /\ Media.release_date it = Media.first_air_date it)
  /\ (Media.poster_path it = None
      \/ exists path,
           Media.poster_path it = Some ("https://image.tmdb.org/t/p/w500" ++ path)).

(** Scores in descending order, for scores that are real numbers. *)
Definition scoredAbove (query : string) (a b : Media.item) : Prop :=
  exists x y, scoreOf query a = Num x /\ scoreOf query b = Num y /\ (y <= x)%R.

(** Two provider results used as a worked example: a film and a series
    with the same popularity, rating and vote count. *)
Definition exampleMovie : Media.item :=
  {| Media.id := 76600;
     Media.media_type := None;
     Media.title := Some "Avatar: The Way of Water";
     Media.name := None;
     Media.release_date := Some "2022-12-14";
     Media.first_air_date := None;
     Media.poster_path := Some "/t6HIqrRAclMCA60NsSmeqe9RmNV.jpg";
     Media.popularity := Some 120%R;
     Media.vote_average := Some 7.5%R;
     Media.vote_count := Some 11000%R;
     Media.genres := None;
     Media.original_language := Some "en" |}.

Definition exampleShow : Media.item :=
  {| Media.id := 246;
     Media.media_type := None;
     Media.title := None;
     Media.name := Some "Avatar";
     Media.release_date := None;
     Media.first_air_date := Some "2005-02-21";
     Media.poster_path := None;
     Media.popularity := Some 120%R;
     Media.vote_average := Some 7.5%R;
     Media.vote_count := Some 11000%R;
     Media.genres := None;
     Media.original_language := Some "en" |}.

(** ** Deduplication *)

(** [array.findIndex(p)], counting from [index]; -1 when nothing matches. *)
Fixpoint findIndex_from {A : Type} (index : Z) (p : A -> bool) (array : list A) : Z :=
  match array with
  | [] => -1
  | x :: rest => if p x then index else findIndex_from (index + 1) p rest
  end.

Definition Array_findIndex {A : Type} (p : A -> bool) (array : list A) : Z :=
  findIndex_from 0 p array.

(** [array.filter((x, index) => f x index)], counting from [index]. *)
Fixpoint filter_from {A : Type} (index : Z) (f : A -> Z -> bool) (array : list A)
    : list A :=
  match array with
  | [] => []
  | x :: rest =>
      if f x index then x :: filter_from (index + 1) f rest
      else filter_from (index + 1) f rest
  end.

Definition Array_filter {A : Type} (f : A -> Z -> bool) (array : list A) : list A :=
  filter_from 0 f array.

(** [getUpcomingMovies]: remove duplicates based on movie id. *)
Definition uniqueMovies (allMovies : list Media.item) : list Media.item :=
  Array_filter
    (fun movie index =>
       index =? Array_findIndex (fun m => Media.id m =? Media.id movie) allMovies)
    allMovies.

(** [getWatchAtHomeContent]: the key [`${item.media_type}-${item.id}`]. *)
Definition contentKey (item : Media.item) : string :=
  interpolate (Media.media_type item) ++ "-" ++ JsString.ofZ (Media.id item).

(** The identity of an item as the specification has it: its kind and
    its id.  The kind is the text [media_type] contributes to the key. *)
Definition spec_identity (item : Media.item) : string * Z :=
  (interpolate (Media.media_type item), Media.id item).

(** A kind that the separator of the key cannot be confused with: it has
    no hyphen, as "movie", "tv" and "anime" have none. *)
Definition plainKind (item : Media.item) : Prop :=
  ~ In "-"%char (list_ascii_of_string (interpolate (Media.media_type item))).

(** One iteration of the deduplication loop over the state
    [(seen, uniqueContent)]. *)
Definition dedupeStep (state : gset string * list Media.item) (item : Media.item)
    : gset string * list Media.item :=
  let (seen, uniqueContent) := state in
  let key := contentKey item in
  if decide (key ∈ seen) then (seen, uniqueContent)
  else ({[ key ]} ∪ seen, (uniqueContent ++ [item])%list).

Definition uniqueContent (shuffledContent : list Media.item) : list Media.item :=
  snd (fold_left dedupeStep shuffledContent (∅, [])).

(** Deduplication as the specification words it: an item is retained
    exactly when no item before it in the input has its key.  [before]
    holds the items already passed. *)
Fixpoint spec_firstOccurrences {A K : Type} `{EqDecision K} (key : A -> K)
    (before items : list A) : list A :=
  match items with
  | [] => []
  | x :: rest =>
      if existsb (fun y => bool_decide (key y = key x)) before
      then spec_firstOccurrences key (before ++ [x])%list rest
      else x :: spec_firstOccurrences key (before ++ [x])%list rest
  end.

(** ** Genre filter *)

Definition EXCLUDED_GENRE_IDS : list Z := [10767; 10763; 10764].

Definition Array_includes (array : list Z) (x : Z) : bool :=
  existsb (fun y => y =? x) array.

Definition hasExcludedGenre (genres : list Media.genre) : bool :=
  existsb (fun genre => Array_includes EXCLUDED_GENRE_IDS (Media.genre_id genre))
    genres.

(** [getPopularTVShows]:
    [show.genres && !show.genres.some(genre => EXCLUDED_GENRE_IDS.includes(genre.id))].
    An array, even an empty one, is truthy; an absent [genres] is not. *)
Definition filteredShows (detailedShows : list Media.item) : list Media.item :=
  List.filter
    (fun show =>
       match Media.genres show with
       | Some genres => negb (hasExcludedGenre genres)
       | None => false
       end)
    detailedShows.

(** [getWatchAtHomeContent]:
    [!(item.genres && item.genres.some(genre => EXCLUDED_GENRE_IDS.includes(genre.id)))]. *)
Definition tvShows (tvShowsDetailed : list Media.item) : list Media.item :=
  List.filter
    (fun item =>
       negb match Media.genres item with
            | Some genres => hasExcludedGenre genres
            | None => false
            end)
    tvShowsDetailed.

(** ** Trailer resolution: primary lookup *)

Module Tmdb.
Record video : Type := Video {
  key : string;
  name : string;
  site : string;
  type : string
}.
End Tmdb.

Definition nameIncludes (video : Tmdb.video) (word : string) : bool :=
  JsString.includes (JsString.toLowerCase (Tmdb.name video)) word.

Definition trailerPriorities : list (Tmdb.video -> bool) :=
  [ (fun video => String.eqb (Tmdb.type video) "Trailer" && nameIncludes video "official")%bool;
    (fun video => String.eqb (Tmdb.type video) "Trailer" && nameIncludes video "main")%bool;
    (fun video => String.eqb (Tmdb.type video) "Trailer");
    (fun video => String.eqb (Tmdb.type video) "Teaser" && nameIncludes video "official")%bool;
    (fun video => String.eqb (Tmdb.type video) "Teaser") ].

(** The loop [for (const priorityCheck of trailerPriorities)]. *)
Fixpoint tryPriorities (priorities : list (Tmdb.video -> bool))
    (youtubeVideos : list Tmdb.video) : option Tmdb.video :=
  match priorities with
  | [] => None
  | priorityCheck :: rest =>
      match List.find priorityCheck youtubeVideos with
      | Some foundTrailer => Some foundTrailer
      | None => tryPriorities rest youtubeVideos
      end
  end.

Definition getValidTMDBTrailer (videos : option (list Tmdb.video))
    : option Tmdb.video :=
  match videos with
  | None | Some [] => None
  | Some videos =>
      let youtubeVideos :=
        List.filter (fun video => String.eqb (Tmdb.site video) "YouTube") videos in
      match youtubeVideos with
      | [] => None
      | _ =>
          match tryPriorities trailerPriorities youtubeVideos with
          | Some foundTrailer => Some foundTrailer
          | None => List.head youtubeVideos
          end
      end
  end.

(** The two videos of the specification's scenario. *)
Definition officialTrailer : Tmdb.video :=
  {| Tmdb.key := "d9MyW72ELq0";
     Tmdb.name := "Official Trailer";
     Tmdb.site := "YouTube";
     Tmdb.type := "Trailer" |}.

Definition teaser1 : Tmdb.video :=
  {| Tmdb.key := "a8Gx8wiNbs8";
     Tmdb.name := "Teaser 1";
     Tmdb.site := "YouTube";
     Tmdb.type := "Teaser" |}.

(** Further videos, one for each rung of the priority order, one of a kind
    that is neither trailer nor teaser, and one hosted elsewhere. *)
Definition mainTrailer : Tmdb.video :=
  {| Tmdb.key := "6ZfuNTqbHE8";
     Tmdb.name := "Main Trailer";
     Tmdb.site := "YouTube";
     Tmdb.type := "Trailer" |}.

Definition secondTrailer : Tmdb.video :=
  {| Tmdb.key := "o5F8MOz_IDw";
     Tmdb.name := "Trailer 2";
     Tmdb.site := "YouTube";
     Tmdb.type := "Trailer" |}.

Definition officialTeaser : Tmdb.video :=
  {| Tmdb.key := "NZrX_ES93JA";
     Tmdb.name := "OFFICIAL Teaser";
     Tmdb.site := "YouTube";
     Tmdb.type := "Teaser" |}.

Definition featurette : Tmdb.video :=
  {| Tmdb.key := "gq2xKJXYZ80";
     Tmdb.name := "Behind the Scenes";
     Tmdb.site := "YouTube";
     Tmdb.type := "Featurette" |}.

Definition vimeoTrailer : Tmdb.video :=
  {| Tmdb.key := "76979871";
     Tmdb.name := "Official Trailer";
     Tmdb.site := "Vimeo";
     Tmdb.type := "Trailer" |}.

(** ** Trailer resolution: secondary search *)

Module YouTube.
Record video : Type := Video {
  videoId : string;
  title : string;
  description : string;
  channelTitle : string
}.
End YouTube.

(** The value of [year] in [searchYouTubeTrailer]: the empty string when
    there is no release date, otherwise what [getFullYear] returns, which
    is NaN for a date that does not parse. *)
Inductive yearval : Type :=
| YearEmpty
| YearNaN
| Year (y : Z).

Definition yearTruthy (year : yearval) : bool :=
  match year with
  | Year y => negb (y =? 0)
  | _ => false
  end.

Definition yearToString (year : yearval) : string :=
  match year with
  | YearEmpty => EmptyString
  | YearNaN => "NaN"
  | Year y => JsString.ofZ y
  end.

Definition officialChannels : list string :=
  ["netflix"; "hbo"; "amazon prime"; "disney"; "warner"].

Definition calculateTrailerScore (video : YouTube.video)
    (originalTitle : option string) (year : yearval) : result Z :=
  let title := JsString.toLowerCase (YouTube.title video) in
  let description := JsString.toLowerCase (YouTube.description video) in
  let channelName := JsString.toLowerCase (YouTube.channelTitle video) in
  originalTitleLower ← String_toLowerCase originalTitle;
  let score := 0 in
  let score :=
    if JsString.includes title originalTitleLower then score + 10 else score in
  let score :=
    if (yearTruthy year
        && (JsString.includes title (yearToString year)
            || JsString.includes description (yearToString year)))%bool
    then score + 5 else score in
  let score := if JsString.includes title "official" then score + 8 else score in
  let score := if JsString.includes title "trailer" then score + 6 else score in
  let score :=
    if existsb (fun channel => JsString.includes channelName channel) officialChannels
    then score + 10 else score in
  let score := if JsString.includes title "reaction" then score - 10 else score in
  let score := if JsString.includes title "review" then score - 10 else score in
  let score := if JsString.includes title "fan made" then score - 15 else score in
  Ok score.

(** The trailer score as the specification words it: a sum of independent
    bonuses and penalties, every comparison on lower-cased text.  The
    release year is the year of the release date when there is one and
    it is not 0; the known official channels are those whose lower-cased
    name contains netflix, hbo, amazon prime, disney or warner. *)
Definition spec_trailerScore (video : YouTube.video) (mediaTitle : string)
    (year : yearval) : Z :=
  let title := JsString.toLowerCase (YouTube.title video) in
  let description := JsString.toLowerCase (YouTube.description video) in
  let channelName := JsString.toLowerCase (YouTube.channelTitle video) in
  let containsYear :=
    match year with
    | Year 0 | YearEmpty | YearNaN => false
    | Year y =>
        (JsString.includes title (JsString.ofZ y)
         || JsString.includes description (JsString.ofZ y))%bool
    end in
  let officialChannel :=
    (JsString.includes channelName "netflix"
     || JsString.includes channelName "hbo"
     || JsString.includes channelName "amazon prime"
     || JsString.includes channelName "disney"
     || JsString.includes channelName "warner")%bool in
  (if JsString.includes title (JsString.toLowerCase mediaTitle) then 10 else 0)
  + (if containsYear then 5 else 0)
  + (if JsString.includes title "official" then 8 else 0)
  + (if JsString.includes title "trailer" then 6 else 0)
  + (if officialChannel then 10 else 0)
  - (if JsString.includes title "reaction" then 10 else 0)
  - (if JsString.includes title "review" then 10 else 0)
  - (if JsString.includes title "fan made" then 15 else 0).

(** [array.map(f)] for an [f] that may throw. *)
Fixpoint Array_map {A B : Type} (f : A -> result B) (array : list A)
    : result (list B) :=
  match array with
  | [] => Ok []
  | x :: rest =>
      y ← f x;
      ys ← Array_map f rest;
      Ok (y :: ys)
  end.

(** The comparator [(a, b) => b.score - a.score], as the test [> 0]. *)
Definition compareTrailerScore (a b : YouTube.video * Z) : result bool :=
  Ok (0 <? snd b - snd a).

Definition findBestYouTubeTrailer (videos : option (list YouTube.video))
    (originalTitle : option string) (year : yearval)
    : result (option YouTube.video) :=
  match videos with
  | None | Some [] => Ok None
  | Some videos =>
      scored ← Array_map
                 (fun video =>
                    score ← calculateTrailerScore video originalTitle year;
                    Ok (video, score))
                 videos;
      let scoredVideos := List.filter (fun item => 0 <? snd item) scored in
      scoredVideos ← Array_sort compareTrailerScore scoredVideos;
      Ok (match scoredVideos with
          | best :: _ => Some (fst best)
          | [] => None
          end)
  end.

Definition nonEmpty {A : Type} (items : option (list A)) : bool :=
  match items with
  | Some (_ :: _) => true
  | _ => false
  end.

Module Trailer.
Record t : Type := Make {
  source : string;
  key : string;
  name : string;
  site : string;
  url : string
}.
End Trailer.

Section SecondaryProvider.

(** The environment variable, absent when it is not set. *)
Variable YOUTUBE_API_KEY : option string.

(** [new Date(releaseDate).getFullYear()], [None] when it is NaN. *)
Variable Date_getFullYear : string -> option Z.

(** The search provider: [response.data.items] for a query, or the
    exception [youtubeApi.get] throws. *)
Variable youtubeApi_search : string -> result (option (list YouTube.video)).

Definition yearOf (releaseDate : option string) : yearval :=
  if truthyStr releaseDate then
    match Date_getFullYear (interpolate releaseDate) with
    | Some y => Year y
    | None => YearNaN
    end
  else YearEmpty.

Definition trailerQueries (title : option string) (year : yearval) : list string :=
  [ interpolate title ++ " " ++ yearToString year ++ " official trailer";
    interpolate title ++ " " ++ yearToString year ++ " trailer";
    interpolate title ++ " official trailer";
    interpolate title ++ " trailer" ].

(** One iteration of the loop [for (const query of queries)]: the provider
    call, and the best trailer of a response that has items. *)
Definition searchOnce (title : option string) (year : yearval) (query : string)
    : result (option YouTube.video) :=
  items ← youtubeApi_search query;
  if nonEmpty items
  then findBestYouTubeTrailer items title year
  else Ok None.

(** The loop.  Besides its outcome it returns the queries sent to the
    provider, in the order sent: an iteration that finds a trailer returns
    it, one that throws leaves the loop, and any other goes on to the next
    query. *)
Fixpoint tryQueries (title : option string) (year : yearval)
    (queries : list string) : list string * result (option YouTube.video) :=
  match queries with
  | [] => ([], Ok None)
  | query :: rest =>
      match searchOnce title year query with
      | Ok None =>
          let (sent, outcome) := tryQueries title year rest in
          (query :: sent, outcome)
      | stop => ([query], stop)
      end
  end.

Definition searchYouTubeTrailer (title releaseDate : option string)
    : list string * result (option YouTube.video) :=
  if negb (truthyStr YOUTUBE_API_KEY) then ([], Ok None)
  else
    let year := yearOf releaseDate in
    let queries := trailerQueries title year in
    let (sent, outcome) := tryQueries title year queries in
    (sent, try_catch outcome (fun _ => Ok None)).

(** The trailer part of [getMovieDetailsWithTrailer] (and, with [name]
    and [first_air_date], of [getTVDetailsWithTrailer]): the value
    assigned to [movieData.trailer], [None] for [null]. *)
Definition resolveTrailer (videos : option (list Tmdb.video))
    (title release_date : option string)
    : list string * result (option Trailer.t) :=
  let tmdbTrailer :=
    getValidTMDBTrailer (Some (default [] videos)) in
  match tmdbTrailer with
  | Some tmdbTrailer =>
      ([], Ok (Some
         {| Trailer.source := "tmdb";
            Trailer.key := Tmdb.key tmdbTrailer;
            Trailer.name := Tmdb.name tmdbTrailer;
            Trailer.site := Tmdb.site tmdbTrailer;
            Trailer.url := "https://www.youtube.com/watch?v=" ++ Tmdb.key tmdbTrailer |}))
  | None =>
      let (sent, outcome) := searchYouTubeTrailer title release_date in
      (sent,
       youtubeTrailer ← outcome;
       match youtubeTrailer with
       | Some youtubeTrailer =>
           Ok (Some
             {| Trailer.source := "youtube";
                Trailer.key := YouTube.videoId youtubeTrailer;
                Trailer.name := YouTube.title youtubeTrailer;
                Trailer.site := "YouTube";
                Trailer.url := "https://www.youtube.com/watch?v="
                               ++ YouTube.videoId youtubeTrailer |})
       | None => Ok None
       end)
  end.

End SecondaryProvider.

(** The fallback scenario of the specification: a provider that answers
    every query with one video, by the channel "Netflix". *)
Definition exampleCandidate : YouTube.video :=
  {| YouTube.videoId := "5PSNL1qE6VY";
     YouTube.title := "Movie Title Official Trailer";
     YouTube.description := "In cinemas 2009";
     YouTube.channelTitle := "Netflix" |}.

Definition exampleProvider (query : string)
    : result (option (list YouTube.video)) :=
  Ok (Some [exampleCandidate]).

Definition exampleYear (releaseDate : string) : option Z := Some 2009.

(** A provider that fails on every call. *)
Definition failingProvider (query : string)
    : result (option (list YouTube.video)) :=
  Throw ProviderError.

(** ** Cast of a series: [getTVDetails] *)

Module Cast.
Record person : Type := Person {
  id : Z;
  name : string;
  character : string
}.
End Cast.

(** A JavaScript [Map] with number keys: its entries in insertion order.
    [set] overwrites the value of a key that is present, which keeps its
    place, and appends a key that is new. *)
Fixpoint Map_set {V : Type} (key : Z) (value : V) (map : list (Z * V))
    : list (Z * V) :=
  match map with
  | [] => [(key, value)]
  | (k, v) :: rest =>
      if k =? key then (key, value) :: rest
      else (k, v) :: Map_set key value rest
  end.

(** [Array.from(map.values())] *)
Definition Map_values {V : Type} (map : list (Z * V)) : list V :=
  List.map snd map.

(** The loop [cast.forEach(person => castMap.set(person.id, person))]. *)
Definition setAll (cast : list Cast.person) (castMap : list (Z * Cast.person))
    : list (Z * Cast.person) :=
  fold_left (fun castMap person => Map_set (Cast.id person) person castMap)
    cast castMap.

(** The cast [getTVDetails] stores in [tvData.credits.cast], from
    [tvData.credits?.cast] and [seasonData?.credits?.cast]; the latter is
    absent when the request for season 1 failed. *)
Definition combinedCast (showCredits seasonCredits : option (list Cast.person))
    : list Cast.person :=
  let showCast := default [] showCredits in
  let seasonCast := default [] seasonCredits in
  let castMap := [] in
  let castMap := setAll showCast castMap in
  let castMap := setAll seasonCast castMap in
  Map_values castMap.

(** A person is the last of a cast list to carry their id. *)
Definition lastWithId (cast : list Cast.person) (person : Cast.person) : Prop :=
  exists before after,
    cast = (before ++ person :: after)%list
    /\ Forall (fun other => Cast.id other <> Cast.id person) after.

(** ** Average episode runtime: [getTVDetailsWithTrailer] *)

(** [Math.round(a / b)] for integers [a] and [b > 0]: the nearest integer,
    a half rounded up. *)
Definition Math_round_div (a b : Z) : Z := (2 * a + b) / (2 * b).

(** [episodes.map(ep => ep.runtime).filter(runtime => runtime && runtime > 0)],
    an episode being given by its runtime in minutes, absent when null. *)
Fixpoint validRuntimes (episodes : list (option Z)) : list Z :=
  match episodes with
  | [] => []
  | runtime :: rest =>
      match runtime with
      | Some minutes =>
          if (negb (minutes =? 0) && (0 <? minutes))%bool
          then minutes :: validRuntimes rest
          else validRuntimes rest
      | None => validRuntimes rest
      end
  end.

(** The loop over [tvData.seasons], a season being given by its
    [season_number]; [fetchSeason] is the provider call for one season and
    returns the episodes of the response. *)
Fixpoint collectRuntimes (fetchSeason : Z -> result (list (option Z)))
    (seasons : list Z) (allRuntimes : list Z) : result (list Z) :=
  match seasons with
  | [] => Ok allRuntimes
  | season_number :: rest =>
      if season_number =? 0 then collectRuntimes fetchSeason rest allRuntimes
      else
        episodes ← fetchSeason season_number;
        collectRuntimes fetchSeason rest
          (allRuntimes ++ validRuntimes episodes)%list
  end.

(** The value assigned to [tvData.episode_run_time[0]], [None] when the
    field is left as the provider sent it. *)
Definition averageRuntime (fetchSeason : Z -> result (list (option Z)))
    (seasons : option (list Z)) : result (option Z) :=
  match seasons with
  | None => Ok None
  | Some seasons =>
      allRuntimes ← collectRuntimes fetchSeason seasons [];
      if (0 <? List.length allRuntimes)%nat then
        Ok (Some (Math_round_div (fold_left Z.add allRuntimes 0)
                    (Z.of_nat (List.length allRuntimes))))
      else Ok None
  end.

(** A runtime that counts: a positive runtime of an episode of a season
    other than the specials. *)
Definition regularRuntime (fetchSeason : Z -> result (list (option Z)))
    (seasons : list Z) (minutes : Z) : Prop :=
  exists season_number episodes,
    In season_number seasons /\ season_number <> 0
    /\ fetchSeason season_number = Ok episodes
    /\ In (Some minutes) episodes /\ 0 < minutes.

(** Two seasons of three episodes, and a provider that knows them but
    fails on the specials. *)
Definition exampleSeasons (season_number : Z) : result (list (option Z)) :=
  if season_number =? 1 then Ok [Some 58; Some 47; None]
  else if season_number =? 2 then Ok [Some 52; Some 0; Some 50]
  else Throw ProviderError.

(** ** Logos of the streaming platforms: [getStreamingProviderLogos] *)

Module Provider.
Record t : Type := Make {
  provider_id : Z;
  provider_name : option string;
  logo_path : option string;
  display_priority : option Z
}.
End Provider.

Module ProviderEntry.
Record t : Type := Make {
  id : Z;
  name : option string;
  logo_path : option string;
  display_priority : option Z
}.
End ProviderEntry.

Module Logo.
Record t : Type := Make {
  name : option string;
  logo_path : string;
  logo_url : string
}.
End Logo.

Definition providerEntry (provider : Provider.t) : ProviderEntry.t :=
  {| ProviderEntry.id := Provider.provider_id provider;
     ProviderEntry.name := Provider.provider_name provider;
     ProviderEntry.logo_path := Provider.logo_path provider;
     ProviderEntry.display_priority := Provider.display_priority provider |}.

(** The object [providerMap], keyed by provider id. *)
Definition providerMap (results : list Provider.t) : gmap Z ProviderEntry.t :=
  fold_left
    (fun providerMap provider =>
       <[Provider.provider_id provider := providerEntry provider]> providerMap)
    results ∅.

Definition supportedPlatforms : list (string * Z) :=
  [("netflix", 8); ("prime", 9); ("disney", 337); ("max", 1899); ("appletv", 350)].

Definition platformLogo (provider : ProviderEntry.t) : Logo.t :=
  {| Logo.name := ProviderEntry.name provider;
     Logo.logo_path := interpolate (ProviderEntry.logo_path provider);
     Logo.logo_url := "https://image.tmdb.org/t/p/original"
                      ++ interpolate (ProviderEntry.logo_path provider) |}.

(** One iteration of the loop over [Object.entries(supportedPlatforms)]. *)
Definition addPlatformLogo (providers : gmap Z ProviderEntry.t)
    (platformLogos : gmap string Logo.t) (platform : string * Z)
    : gmap string Logo.t :=
  let (platformKey, providerId) := platform in
  match providers !! providerId with
  | Some provider =>
      if truthyStr (ProviderEntry.logo_path provider)
      then <[platformKey := platformLogo provider]> platformLogos
      else platformLogos
  | None => platformLogos
  end.

(** [getStreamingProviderLogos], given the outcome of the provider call. *)
Definition getStreamingProviderLogos (response : result (list Provider.t))
    : result (gmap string Logo.t) :=
  try_catch
    (results ← response;
     let providers := providerMap results in
     Ok (fold_left (addPlatformLogo providers) supportedPlatforms ∅))
    (fun _ => Throw (Error "Failed to fetch streaming provider logos")).

(** The logo the response holds for a provider id: that of the last
    listed provider with this id, if its logo path is not empty. *)
Definition lastLogo (results : list Provider.t) (providerId : Z) : option Logo.t :=
  match List.find (fun provider => Provider.provider_id provider =? providerId)
          (rev results) with
  | Some provider =>
      if truthyStr (Provider.logo_path provider)
      then Some (platformLogo (providerEntry provider))
      else None
  | None => None
  end.

Definition exampleProviders : list Provider.t :=
  [ {| Provider.provider_id := 8;
       Provider.provider_name := Some "Netflix";
       Provider.logo_path := Some "/pbpMk2JmcoNnQwx5JGpXngfoWtp.jpg";
       Provider.display_priority := Some 5 |};
    {| Provider.provider_id := 9;
       Provider.provider_name := Some "Amazon Prime Video";
       Provider.logo_path := None;
       Provider.display_priority := Some 1 |};
    {| Provider.provider_id := 2;
       Provider.provider_name := Some "Apple TV";
       Provider.logo_path := Some "/9ghgSC0MA082EL6HLCW3GalykFD.jpg";
       Provider.display_priority := Some 4 |} ].

(** ** Trending anime: [getTrendingAnime] *)

Module Trending.
Record show : Type := Show {
  id : Z;
  name : option string;
  genre_ids : option (list Z);
  original_language : option string;
  origin_country : option (list string);
  popularity : field
}.
End Trending.

(** The filter callback: [isAnimation && (isJapanese || isFromJapan)],
    where an absent [genre_ids] or [origin_country] is falsy. *)
Definition isAnime (show : Trending.show) : bool :=
  let isAnimation :=
    match Trending.genre_ids show with
    | Some genre_ids => Array_includes genre_ids 16
    | None => false
    end in
  let isJapanese :=
    match Trending.original_language show with
    | Some language => String.eqb language "ja"
    | None => false
    end in
  let isFromJapan :=
    match Trending.origin_country show with
    | Some origin_country => existsb (fun country => String.eqb country "JP") origin_country
    | None => false
    end in
  (isAnimation && (isJapanese || isFromJapan))%bool.

(** [trending.find(item => item.id === a.id)], as a truth value. *)
Definition inTrending (trending : list Trending.show) (a : Trending.show) : bool :=
  match List.find (fun item => Trending.id item =? Trending.id a) trending with
  | Some _ => true
  | None => false
  end.

(** The comparator of [animeShows.sort], as the test [> 0]: -1 and 1
    when exactly one of the two is in the trending response, otherwise
    [(b.popularity || 0) - (a.popularity || 0)]. *)
Definition compareAnime (trending : list Trending.show) (a b : Trending.show)
    : result bool :=
  let aInTrending := inTrending trending a in
  let bInTrending := inTrending trending b in
  if (aInTrending && negb bInTrending)%bool then Ok false
  else if (negb aInTrending && bInTrending)%bool then Ok true
  else Ok (JsNum.positive
             (JsNum.sub (or_default (Trending.popularity b) 0)
                        (or_default (Trending.popularity a) 0))).

(** The anime list before sorting: the trending anime, followed, when
    there are fewer than ten, by the supplement shows whose id is not
    among theirs.  The supplement response is looked at in that case
    only. *)
Definition supplemented (animeShows : list Trending.show)
    (supplementResponse : result (list Trending.show))
    : result (list Trending.show) :=
  if (List.length animeShows <? 10)%nat then
    supplementResults ← supplementResponse;
    let existingIds : gset Z := list_to_set (List.map Trending.id animeShows) in
    let supplementAnime :=
      List.filter (fun anime => negb (bool_decide (Trending.id anime ∈ existingIds)))
        supplementResults in
    Ok (animeShows ++ supplementAnime)%list
  else Ok animeShows.

(** [getTrendingAnime], given the outcome of the two provider calls. *)
Definition getTrendingAnime
    (trendingResponse supplementResponse : result (list Trending.show))
    : result (list Trending.show) :=
  try_catch
    (trendingResults ← trendingResponse;
     let animeShows := List.filter isAnime trendingResults in
     animeShows ← supplemented animeShows supplementResponse;
     animeShows ← Array_sort (compareAnime trendingResults) animeShows;
     Ok (firstn 20 animeShows))
    (fun _ => Throw (Error "Failed to fetch trending anime")).

(** [popularity || 0] as a real number. *)
Definition popularityOr0 (popularity : field) : R :=
  match popularity with
  | Some p => p
  | None => 0%R
  end.

(** The order of the anime list: shows of the trending response first,
    and by descending popularity among those and among the others. *)
Definition animeOrder (trending : list Trending.show) (a b : Trending.show) : Prop :=
  (inTrending trending a = true /\ inTrending trending b = false)
  \/ (inTrending trending a = inTrending trending b
      /\ (popularityOr0 (Trending.popularity b)
          <= popularityOr0 (Trending.popularity a))%R).

(** A trending response of one anime and one other show, and a supplement
    that repeats the anime and adds another. *)
Definition exampleTrending : list Trending.show :=
  [ {| Trending.id := 37854; Trending.name := Some "One Piece";
       Trending.genre_ids := Some [10759; 35; 16];
       Trending.original_language := Some "ja";
       Trending.origin_country := Some ["JP"];
       Trending.popularity := Some 88%R |};
    {| Trending.id := 1399; Trending.name := Some "Game of Thrones";
       Trending.genre_ids := Some [10765; 18];
       Trending.original_language := Some "en";
       Trending.origin_country := Some ["US"];
       Trending.popularity := Some 140%R |} ].

Definition exampleSupplement : list Trending.show :=
  [ {| Trending.id := 37854; Trending.name := Some "One Piece";
       Trending.genre_ids := Some [10759; 35; 16];
       Trending.original_language := Some "ja";
       Trending.origin_country := Some ["JP"];
       Trending.popularity := Some 88%R |};
    {| Trending.id := 85937; Trending.name := Some "Demon Slayer";
       Trending.genre_ids := Some [16; 10759];
       Trending.original_language := Some "ja";
       Trending.origin_country := None;
       Trending.popularity := None |} ].

(** ** Upcoming movies: [getUpcomingMovies] *)

(** The date filter: a movie without a release date passes, and so does
    one whose date is not before today in the order of strings. *)
Definition releasesFrom (todayString : string) (movie : Media.item) : bool :=
  if negb (truthyStr (Media.release_date movie)) then true
  else String.leb todayString (interpolate (Media.release_date movie)).

(** The comparator [(b.popularity || 0) - (a.popularity || 0)], as the
    test [> 0]. *)
Definition comparePopularity (a b : Media.item) : result bool :=
  Ok (JsNum.positive
        (JsNum.sub (or_default (Media.popularity b) 0)
                   (or_default (Media.popularity a) 0))).

(** [getUpcomingMovies], given today's date as [YYYY-MM-DD] and the
    outcome of the four provider calls. *)
Definition getUpcomingMovies (todayString : string)
    (upcomingPage1 upcomingPage2 discoverPage1 discoverPage2
       : result (list Media.item))
    : result (list Media.item) :=
  try_catch
    (upcoming1 ← upcomingPage1;
     upcoming2 ← upcomingPage2;
     discover1 ← discoverPage1;
     discover2 ← discoverPage2;
     let allMovies := (upcoming1 ++ upcoming2 ++ discover1 ++ discover2)%list in
     let uniqueMovies := uniqueMovies allMovies in
     let upcomingMovies := List.filter (releasesFrom todayString) uniqueMovies in
     upcomingMovies ← Array_sort comparePopularity upcomingMovies;
     Ok (firstn 20 upcomingMovies))
    (fun _ => Throw (Error "Failed to fetch upcoming movies")).

(** Descending popularity, an absent popularity counting as 0. *)
Definition morePopular (a b : Media.item) : Prop :=
  (popularityOr0 (Media.popularity b) <= popularityOr0 (Media.popularity a))%R.

(** ** Shows to watch at home: the candidates of [getPopularTVShows] *)

(** [combinedShows]: the first ten trending shows, then the first ten
    popular shows that are not among them. *)
Definition combinedShows (trendingResults popularResults : list Media.item)
    : list Media.item :=
  let trendingShows := firstn 10 trendingResults in
  let popularShows :=
    firstn 10
      (List.filter
         (fun show =>
            negb (existsb (fun trending => Media.id trending =? Media.id show)
                    trendingShows))
         popularResults) in
  firstn 20 (trendingShows ++ popularShows)%list.

(** ** The unused relevance score: [calculateRelevanceScore] *)

Definition countWordScore (queryWords titleWords : list string) : Z :=
  fold_left
    (fun wordMatchScore queryWord =>
       fold_left
         (fun wordMatchScore titleWord =>
            if String.eqb titleWord queryWord then wordMatchScore + 100
            else if (JsString.startsWith titleWord queryWord
                     || JsString.startsWith queryWord titleWord)%bool
                 then wordMatchScore + 50
                 else wordMatchScore)
         titleWords wordMatchScore)
    queryWords 0.

Definition calculateRelevanceScore (title query : option string) : result Z :=
  titleLower ← String_toLowerCase title;
  queryLower ← String_toLowerCase query;
  if String.eqb titleLower queryLower then Ok 1000
  else if JsString.startsWith titleLower queryLower then Ok 800
  else if JsString.includes titleLower (" " ++ queryLower) then Ok 600
  else if JsString.includes titleLower queryLower then Ok 400
  else
    let titleWords := JsString.split_ws titleLower in
    let queryWords := JsString.split_ws queryLower in
    Ok (countWordScore queryWords titleWords).

(** ** Shuffling: [shuffleArray] and [getWatchAtHomeContent] *)

(** [Math.floor] *)
Definition Math_floor (x : R) : Z := Int_part x.

(** [arr.map(item => ({ ...item, media_type: type }))] *)
Definition addType (arr : list Media.item) (type : string) : list Media.item :=
  List.map
    (fun item =>
       {| Media.id := Media.id item;
          Media.media_type := Some type;
          Media.title := Media.title item;
          Media.name := Media.name item;
          Media.release_date := Media.release_date item;
          Media.first_air_date := Media.first_air_date item;
          Media.poster_path := Media.poster_path item;
          Media.popularity := Media.popularity item;
          Media.vote_average := Media.vote_average item;
          Media.vote_count := Media.vote_count item;
          Media.genres := Media.genres item;
          Media.original_language := Media.original_language item |})
    arr.

Definition isJapanese (item : Media.item) : bool :=
  match Media.original_language item with
  | Some language => String.eqb language "ja"
  | None => false
  end.

Section Random.

(** [Math.random()]: the value the call number [n] of the process
    returns.  The language guarantees [0 <= Math.random() < 1]; the
    properties below assume it where it matters. *)
Variable Math_random : nat -> R.

(** [Math.floor(Math.random() * n)], at call number [calls]. *)
Definition randomBelow (calls n : nat) : nat :=
  Z.to_nat (Math_floor (Math_random calls * INR n)).

(** [[shuffled[i], shuffled[j]] = [shuffled[j], shuffled[i]]], for
    indices within the array, which is all the loop produces. *)
Definition swap {A : Type} (shuffled : list A) (i j : nat) : list A :=
  match shuffled !! i, shuffled !! j with
  | Some x, Some y => <[j := x]> (<[i := y]> shuffled)
  | _, _ => shuffled
  end.

(** The loop [for (let i = ...; i > 0; i--)], from index [i] down; with
    the array it returns the number of calls of [Math.random] so far. *)
Fixpoint shuffleFrom {A : Type} (i calls : nat) (shuffled : list A)
    : list A * nat :=
  match i with
  | O => (shuffled, calls)
  | S i' =>
      let j := randomBelow calls (i + 1) in
      shuffleFrom i' (S calls) (swap shuffled i j)
  end.

Definition shuffleArray {A : Type} (array : list A) (calls : nat) : list A * nat :=
  shuffleFrom (List.length array - 1) calls array.

(** The provider calls of [getWatchAtHomeContent], by page, and the
    detail call by show id. *)
Variable fetchMovies fetchTv fetchAnime : Z -> result (list Media.item).
Variable fetchDetail : Z -> result Media.item.

(** [{ ...item, ...detail }]; nothing is assumed of it. *)
Variable spread : Media.item -> Media.item -> Media.item.

(** The enrichment of one show: the merged object, or the show itself
    when the detail call fails. *)
Definition withDetails (item : Media.item) : Media.item :=
  match fetchDetail (Media.id item) with
  | Ok detail => spread item detail
  | Throw _ => item
  end.

(** [getWatchAtHomeContent], [calls] being the number of calls of
    [Math.random] made before. *)
Definition getWatchAtHomeContent (calls : nat) : result (list Media.item) :=
  try_catch
    (let randomPage1 := Z.of_nat (randomBelow calls 3) + 1 in
     let randomPage2 := Z.of_nat (randomBelow (calls + 1) 3) + 1 in
     let randomPage3 := Z.of_nat (randomBelow (calls + 2) 5) + 1 in
     let calls := (calls + 3)%nat in
     moviesResults ← fetchMovies randomPage1;
     tvResults ← fetchTv randomPage2;
     animeResults ← fetchAnime randomPage3;
     let movies := addType moviesResults "movie" in
     let (movies, calls) := shuffleArray movies calls in
     let movies := firstn 15 movies in
     let tvShowsRaw := addType tvResults "tv" in
     let tvShowsDetailed := List.map withDetails tvShowsRaw in
     let tvShows := tvShows tvShowsDetailed in
     let (tvShows, calls) := shuffleArray tvShows calls in
     let tvShows := firstn 15 tvShows in
     let anime := List.filter isJapanese (addType animeResults "anime") in
     let (anime, calls) := shuffleArray anime calls in
     let anime := firstn 10 anime in
     let allContent := (movies ++ tvShows ++ anime)%list in
     let (shuffledContent, calls) := shuffleArray allContent calls in
     let uniqueContent := uniqueContent shuffledContent in
     Ok (firstn 40 uniqueContent))
    (fun _ => Throw (Error "Failed to fetch Watch At Home content")).

End Random.

(** The three kinds of items of the home feed. *)
Definition homeItem (fetchDetail : Z -> result Media.item)
    (spread : Media.item -> Media.item -> Media.item)
    (moviesResults tvResults animeResults : list Media.item)
    (item : Media.item) : Prop :=
  In item (addType moviesResults "movie")
  \/ (exists show,
        In show (addType tvResults "tv")
        /\ item = withDetails fetchDetail spread show
        /\ forall genres, Media.genres item = Some genres ->
             hasExcludedGenre genres = false)
  \/ (In item (addType animeResults "anime")
      /\ Media.original_language item = Some "ja").

(** ** Shows to watch at home: [getPopularTVShows] *)

(** [getPopularTVShows], given the outcome of the two list requests, the
    detail request by show id, and the object spread. *)
Definition getPopularTVShows (fetchDetail : Z -> result Media.item)
    (spread : Media.item -> Media.item -> Media.item)
    (trendingResponse popularResponse : result (list Media.item))
    : result (list Media.item) :=
  try_catch
    (trendingResults ← trendingResponse;
     popularResults ← popularResponse;
     let combinedShows := combinedShows trendingResults popularResults in
     let detailedShows := List.map (withDetails fetchDetail spread) combinedShows in
     let filteredShows := filteredShows detailedShows in
     Ok (firstn 20 filteredShows))
    (fun _ => Throw (Error "Failed to fetch TV shows for Watch At Home")).

(** * Properties *)

(** ** Strings *)

Lemma startsWith_refl (s : string) : JsString.startsWith s s = true.
Proof.
  induction s as [|c s IH]; cbn; [reflexivity|].
  now rewrite Ascii.eqb_refl, IH.
Qed.

Lemma startsWith_includes (s q : string) :
  JsString.startsWith s q = true -> JsString.includes s q = true.
Proof.
  intros H. destruct s; cbn [JsString.includes]; now rewrite H.
Qed.

Lemma eqb_startsWith (s q : string) :
  String.eqb s q = true -> JsString.startsWith s q = true.
Proof.
  intros H. apply String.eqb_eq in H. subst q. apply startsWith_refl.
Qed.

(** [split(/\s+/)]: the class of white space, a word without white
    space, and a word followed by a run of white space. *)

Lemma isSpace_chars (c : ascii) :
  JsString.isSpace c
  = existsb (Nat.eqb (nat_of_ascii c)) [9; 10; 11; 12; 13; 32]%nat.
Proof. destruct c as [[] [] [] [] [] [] [] []]; reflexivity. Qed.

Lemma split_ws_word (word : string) :
  (forall c, In c (list_ascii_of_string word) -> JsString.isSpace c = false) ->
  JsString.split_ws word = [word].
Proof.
  induction word as [|c word IH]; intros Hword; [reflexivity|].
  cbn [JsString.split_ws]. rewrite (Hword c) by (cbn; now left).
  rewrite IH; [reflexivity|]. intros d Hd. apply Hword. cbn. now right.
Qed.

Lemma split_ws_separator (sep rest : string) :
  sep <> EmptyString ->
  (forall c, In c (list_ascii_of_string sep) -> JsString.isSpace c = true) ->
  JsString.headIsSpace rest = false ->
  JsString.split_ws (sep ++ rest) = EmptyString :: JsString.split_ws rest.
Proof.
  induction sep as [|c sep IH]; intros Hne Hsep Hrest; [contradiction|].
  simpl. rewrite (Hsep c) by (cbn; now left).
  destruct sep as [|c' sep].
  - change (EmptyString ++ rest) with rest. now rewrite Hrest.
  - assert (Hhead : JsString.headIsSpace (String c' sep ++ rest) = true).
    { cbn. apply Hsep. cbn. auto. }
    rewrite Hhead. apply IH; [discriminate | | exact Hrest].
    intros d Hd. apply Hsep. cbn. now right.
Qed.

Lemma split_ws_next (word sep rest : string) :
  (forall c, In c (list_ascii_of_string word) -> JsString.isSpace c = false) ->
  sep <> EmptyString ->
  (forall c, In c (list_ascii_of_string sep) -> JsString.isSpace c = true) ->
  JsString.headIsSpace rest = false ->
  JsString.split_ws (word ++ sep ++ rest) = word :: JsString.split_ws rest.
Proof.
  intros Hword Hne Hsep Hrest. induction word as [|c word IH].
  - change (EmptyString ++ sep ++ rest) with (sep ++ rest).
    now apply (split_ws_separator sep rest).
  - simpl. rewrite (Hword c) by (cbn; now left).
    rewrite IH; [reflexivity|]. intros d Hd. apply Hword. cbn. now right.
Qed.

(** ** Numbers *)

Lemma add_Num_assoc (a : number) (x y : R) :
  JsNum.add (JsNum.add a (Num x)) (Num y) = JsNum.add a (Num (x + y)).
Proof.
  destruct a; cbn; try reflexivity. f_equal. lra.
Qed.

Lemma add_Num_0 (a : number) : JsNum.add a (Num 0) = a.
Proof.
  destruct a; cbn; try reflexivity. f_equal. lra.
Qed.

Lemma ln_monotone (x y : R) : (0 < x)%R -> (x <= y)%R -> (ln x <= ln y)%R.
Proof.
  intros Hx [Hlt | Heq].
  - left. now apply ln_increasing.
  - subst y. right. reflexivity.
Qed.

(** ** The score as a sum of three terms *)

Lemma inner_count (queryWord : string) (titleWords : list string) (acc : Z) :
  fold_left
    (fun wordMatches titleWord =>
       if (JsString.includes titleWord queryWord
           || JsString.includes queryWord titleWord)%bool
       then wordMatches + 1
       else wordMatches)
    titleWords acc
  = acc + Z.of_nat (List.length
            (List.filter wordsOverlap
               (List.map (fun titleWord => (queryWord, titleWord)) titleWords))).
Proof.
  revert acc. induction titleWords as [|w ws IH]; intros acc; cbn [fold_left].
  - cbn. lia.
  - rewrite IH. cbn [List.map List.filter wordsOverlap].
    destruct (JsString.includes w queryWord || JsString.includes queryWord w)%bool;
      cbn [List.length]; lia.
Qed.

Lemma countWordMatches_from (queryWords titleWords : list string) (acc : Z) :
  fold_left
    (fun wordMatches queryWord =>
       fold_left
         (fun wordMatches titleWord =>
            if (JsString.includes titleWord queryWord
                || JsString.includes queryWord titleWord)%bool
            then wordMatches + 1
            else wordMatches)
         titleWords wordMatches)
    queryWords acc
  = acc + Z.of_nat (List.length
            (List.filter wordsOverlap (list_prod queryWords titleWords))).
Proof.
  revert acc. induction queryWords as [|q qs IH]; intros acc; cbn [fold_left].
  - cbn. lia.
  - rewrite IH, inner_count. cbn [list_prod].
    rewrite List.filter_app, List.length_app. lia.
Qed.

Lemma countWordMatches_pairs (queryWords titleWords : list string) :
  countWordMatches queryWords titleWords
  = Z.of_nat (List.length
      (List.filter wordsOverlap (list_prod queryWords titleWords))).
Proof.
  unfold countWordMatches. now rewrite countWordMatches_from.
Qed.

Lemma calculateSmartScore_terms (title query : string)
    (popularity rating voteCount : field) :
  calculateSmartScore (Some title) (Some query) popularity rating voteCount
  = Ok (JsNum.add
          (JsNum.add (popularityTerm popularity) (qualityTerm rating voteCount))
          (Num (IZR (spec_titleRelevance title query)))).
Proof.
  unfold calculateSmartScore, spec_titleRelevance, popularityTerm, qualityTerm.
  cbn [String_toLowerCase mbind result_bind].
  rewrite countWordMatches_pairs.
  set (P := JsNum.mul (JsNum.log (or_default popularity 1)) (Num 50)).
  set (titleLower := JsString.toLowerCase title).
  set (queryLower := JsString.toLowerCase query).
  set (n := Z.of_nat _).
  assert (Hbase : forall b : bool,
            (if b then JsNum.add P (JsNum.mul (field_div rating 10) (Num 20)) else P)
            = JsNum.add P (if b then JsNum.mul (field_div rating 10) (Num 20)
                           else Num 0)).
  { intros [|]; [reflexivity | now rewrite add_Num_0]. }
  rewrite Hbase. clear Hbase.
  set (base := JsNum.add P _).
  destruct (JsString.includes titleLower queryLower) eqn:Hinc.
  - destruct (String.eqb titleLower queryLower) eqn:Heq;
      destruct (JsString.startsWith titleLower queryLower) eqn:Hsw;
      rewrite ?add_Num_assoc; apply f_equal, f_equal, f_equal;
      rewrite ?plus_IZR, ?mult_IZR; lra.
  - destruct (String.eqb titleLower queryLower) eqn:Heq.
    { apply eqb_startsWith, startsWith_includes in Heq. congruence. }
    destruct (JsString.startsWith titleLower queryLower) eqn:Hsw.
    { apply startsWith_includes in Hsw. congruence. }
    apply f_equal, f_equal, f_equal. rewrite ?plus_IZR, ?mult_IZR. lra.
Qed.

Lemma popularityTerm_positive (p : R) :
  (0 < p)%R -> popularityTerm (Some p) = Num (ln p * 50).
Proof.
  intros Hp. unfold popularityTerm, or_default.
  destruct (Req_dec_T p 0) as [-> | _]; [lra|].
  cbn. destruct (Rlt_dec 0 p); [reflexivity | contradiction].
Qed.

Lemma popularityTerm_default (popularity : field) :
  popularity = None \/ popularity = Some 0%R ->
  popularityTerm popularity = Num 0.
Proof.
  intros H. unfold popularityTerm, or_default.
  assert (Hone : (if Rlt_dec 0 1 then Num (ln 1)
                  else if Rlt_dec 1 0 then NaN else Inf true) = Num 0).
  { destruct (Rlt_dec 0 1); [now rewrite ln_1 | lra]. }
  destruct H as [-> | ->].
  - cbn. rewrite Hone. cbn. f_equal. lra.
  - destruct (Req_dec_T 0 0) as [_ | Hne]; [|contradiction].
    cbn. rewrite Hone. cbn. f_equal. lra.
Qed.

Lemma popularityTerm_finite (popularity : field) :
  validPopularity popularity -> exists x, popularityTerm popularity = Num x.
Proof.
  destruct popularity as [p|]; cbn [validPopularity]; intros Hp.
  - destruct (Req_dec_T p 0) as [-> | Hne].
    + exists 0%R. apply popularityTerm_default. now right.
    + exists (ln p * 50)%R. apply popularityTerm_positive. lra.
  - exists 0%R. apply popularityTerm_default. now left.
Qed.

Lemma qualityTerm_value (rating voteCount : field) :
  exists x, qualityTerm rating voteCount = Num x.
Proof.
  unfold qualityTerm.
  destruct (truthy rating && field_gt voteCount 100)%bool eqn:Hg; [|now exists 0%R].
  destruct rating as [r|]; [|discriminate]. cbn. eauto.
Qed.

Lemma qualityTerm_rated (r v : R) :
  (100 < v)%R -> qualityTerm (Some r) (Some v) = Num (r / 10 * 20).
Proof.
  intros Hv. unfold qualityTerm, truthy, field_gt.
  destruct (Rlt_dec 100 v); [|contradiction].
  destruct (Req_dec_T r 0) as [-> | _]; cbn; f_equal; lra.
Qed.

Lemma qualityTerm_low (rating : field) (v : R) :
  (v <= 100)%R -> qualityTerm rating (Some v) = Num 0.
Proof.
  intros Hv. unfold qualityTerm, field_gt.
  destruct (Rlt_dec 100 v); [lra|]. now rewrite andb_false_r.
Qed.

Lemma qualityTerm_no_votes (rating : field) : qualityTerm rating None = Num 0.
Proof. unfold qualityTerm. cbn. now rewrite andb_false_r. Qed.

Lemma qualityTerm_no_rating (voteCount : field) : qualityTerm None voteCount = Num 0.
Proof. reflexivity. Qed.

Lemma lt_same_base (base : number) (x y t : R) :
  (x <= y)%R ->
  JsNum.lt (JsNum.add (JsNum.add base (Num y)) (Num t))
           (JsNum.add (JsNum.add base (Num x)) (Num t)) = false.
Proof.
  intros Hxy. unfold JsNum.lt, JsNum.sub.
  destruct base as [|s|b]; cbn; [reflexivity | | ].
  - now destruct s.
  - destruct (Rlt_dec 0 (b + x + t + - (b + y + t))); [lra | reflexivity].
Qed.

(** ** C1: the popularity and quality terms, and monotonicity *)

(** C1, as the code has it.  The popularity term is [log(popularity) * 50]
    for a positive popularity and 0 for an absent or zero one
    ([popularity || 1]); it agrees with [log(max(popularity, 1)) * 50]
    when the popularity is 0 or at least 1.  With everything else fixed,
    raising the popularity from [p1 >= 0] to [p2] does not lower the score,
    provided [p2 >= 1] when [p1] is 0; raising the rating while
    [voteCount > 100] does not lower the score; and with [voteCount <= 100]
    the quality term is 0 whatever the rating. *)
Theorem C1_popularity_quality_monotone (title query : string) :
  (forall p, (0 < p)%R -> popularityTerm (Some p) = Num (ln p * 50))
  /\ popularityTerm (Some 0%R) = Num 0
  /\ popularityTerm None = Num 0
  /\ (forall p, (1 <= p)%R \/ p = 0%R ->
        popularityTerm (Some p) = spec_popularityTerm p)
  /\ (forall p1 p2 rating voteCount,
        (0 <= p1 <= p2)%R -> (p1 = 0%R -> (1 <= p2)%R) ->
        exists s1 s2,
          calculateSmartScore (Some title) (Some query) (Some p1) rating voteCount
          = Ok (Num s1)
          /\ calculateSmartScore (Some title) (Some query) (Some p2) rating voteCount
             = Ok (Num s2)
          /\ (s1 <= s2)%R)
  /\ (forall popularity r1 r2 v,
        (r1 <= r2)%R -> (100 < v)%R ->
        exists s1 s2,
          calculateSmartScore (Some title) (Some query) popularity (Some r1) (Some v)
          = Ok s1
          /\ calculateSmartScore (Some title) (Some query) popularity (Some r2) (Some v)
             = Ok s2
          /\ JsNum.lt s2 s1 = false
          /\ (validPopularity popularity ->
              exists x1 x2, s1 = Num x1 /\ s2 = Num x2 /\ (x1 <= x2)%R))
  /\ (forall rating v, (v <= 100)%R -> qualityTerm rating (Some v) = Num 0).
Proof.
  repeat split.
  - apply popularityTerm_positive.
  - apply popularityTerm_default. now right.
  - apply popularityTerm_default. now left.
  - intros p [Hp | ->]; unfold spec_popularityTerm.
    + rewrite popularityTerm_positive by lra. now rewrite Rmax_left by lra.
    + rewrite popularityTerm_default by now right.
      rewrite Rmax_right by lra. rewrite ln_1. f_equal. lra.
  - intros p1 p2 rating voteCount [H1 H12] H0.
    rewrite !calculateSmartScore_terms.
    destruct (qualityTerm_value rating voteCount) as [q ->].
    assert (Hp2 : (0 < p2)%R).
    { destruct (Req_dec_T p1 0) as [E | N]; [specialize (H0 E) | ]; lra. }
    rewrite (popularityTerm_positive p2 Hp2).
    destruct (Req_dec_T p1 0) as [-> | N].
    + rewrite (popularityTerm_default (Some 0%R)) by now right.
      cbn. do 2 eexists. split; [reflexivity|]. split; [reflexivity|].
      assert (0 <= ln p2)%R.
      { rewrite <- ln_1. apply ln_monotone; [lra | auto]. }
      lra.
    + rewrite (popularityTerm_positive p1) by lra.
      cbn. do 2 eexists. split; [reflexivity|]. split; [reflexivity|].
      assert (ln p1 <= ln p2)%R by (apply ln_monotone; lra).
      lra.
  - intros popularity r1 r2 v Hr Hv.
    rewrite !calculateSmartScore_terms, !qualityTerm_rated by assumption.
    do 2 eexists. split; [reflexivity|]. split; [reflexivity|]. split.
    + apply lt_same_base. lra.
    + intros Hvalid. destruct (popularityTerm_finite _ Hvalid) as [x ->].
      cbn. do 2 eexists. split; [reflexivity|]. split; [reflexivity|]. lra.
  - apply qualityTerm_low.
Qed.

Lemma C1_popularity_quality_monotone_witness :
  exists s1 s2,
    calculateSmartScore (Some "Avatar") (Some "avatar") (Some 1%R) None None
    = Ok (Num s1)
    /\ calculateSmartScore (Some "Avatar") (Some "avatar") (Some 2%R) None None
       = Ok (Num s2)
    /\ (s1 <= s2)%R.
Proof.
  destruct (C1_popularity_quality_monotone "Avatar" "avatar")
    as (_ & _ & _ & _ & Hmono & _).
  apply (Hmono 1%R 2%R None None); lra.
Defined.

(** C1 as stated fails for a popularity strictly between 0 and 1: there the
    code's term is [log(1/2) * 50], which is negative, not
    [log(max(1/2, 1)) * 50 = 0]; and raising the popularity from 0 to 1/2
    lowers the score. *)
Lemma C1_counterexample :
  popularityTerm (Some (1 / 2)%R) <> spec_popularityTerm (1 / 2)
  /\ exists s0 s1,
       calculateSmartScore (Some "Avatar") (Some "avatar") (Some 0%R) None None
       = Ok (Num s0)
       /\ calculateSmartScore (Some "Avatar") (Some "avatar") (Some (1 / 2)%R) None None
          = Ok (Num s1)
       /\ (s1 < s0)%R.
Proof.
  assert (Hneg : (ln (1 / 2) < 0)%R).
  { rewrite <- ln_1. apply ln_increasing; lra. }
  split.
  - rewrite popularityTerm_positive by lra. unfold spec_popularityTerm.
    rewrite Rmax_right by lra. rewrite ln_1.
    intros H. injection H as H. lra.
  - rewrite !calculateSmartScore_terms.
    rewrite (popularityTerm_default (Some 0%R)) by now right.
    rewrite popularityTerm_positive by lra.
    cbn. do 2 eexists. split; [reflexivity|]. split; [reflexivity|]. lra.
Qed.

(** ** C9: missing optional fields *)

(** C9.  For a title and a query that are strings the score computation
    returns, whatever the other fields are.  An absent popularity
    contributes [log(1) * 50 = 0]; an absent rating, an absent vote count
    or a vote count of at most 100 makes the quality term 0. *)
Theorem C9_missing_fields (title query : string)
    (popularity rating voteCount : field) :
  (exists score,
     calculateSmartScore (Some title) (Some query) popularity rating voteCount
     = Ok score
     /\ score = JsNum.add
                  (JsNum.add (popularityTerm popularity)
                             (qualityTerm rating voteCount))
                  (Num (IZR (spec_titleRelevance title query))))
  /\ popularityTerm None = Num (ln 1 * 50)
  /\ popularityTerm None = Num 0
  /\ qualityTerm None voteCount = Num 0
  /\ qualityTerm rating None = Num 0
  /\ (forall v, (v <= 100)%R -> qualityTerm rating (Some v) = Num 0)
  /\ calculateSmartScore (Some title) (Some query) None None None
     = Ok (Num (IZR (spec_titleRelevance title query))).
Proof.
  repeat split.
  - eexists. split; [apply calculateSmartScore_terms | reflexivity].
  - rewrite popularityTerm_default by now left. rewrite ln_1. f_equal. lra.
  - apply popularityTerm_default. now left.
  - apply qualityTerm_no_votes.
  - apply qualityTerm_low.
  - rewrite calculateSmartScore_terms.
    rewrite popularityTerm_default by now left. cbn. do 2 f_equal. lra.
Qed.

Lemma C9_missing_fields_witness :
  qualityTerm (Some 9%R) (Some 100%R) = Num 0.
Proof.
  destruct (C9_missing_fields "Avatar" "avatar" None (Some 9%R) None)
    as (_ & _ & _ & _ & _ & Hlow & _).
  apply (Hlow 100%R). lra.
Defined.

(** ** The array sort *)

Section ArraySort.

Context {A : Type}.
Variable after : A -> A -> result bool.

Lemma Array_insert_Permutation (x : A) (sorted out : list A) :
  Array_insert after x sorted = Ok out -> Permutation (x :: sorted) out.
Proof.
  revert out. induction sorted as [|y rest IH]; intros out; cbn [Array_insert].
  - intros [= <-]. reflexivity.
  - destruct (after x y) as [[|]|e]; cbn [mbind result_bind]; [| |discriminate].
    + destruct (Array_insert after x rest) as [rest'|e]; [|discriminate].
      intros [= <-]. rewrite perm_swap. constructor. now apply IH.
    + intros [= <-]. reflexivity.
Qed.

Lemma Array_sort_Permutation (array out : list A) :
  Array_sort after array = Ok out -> Permutation array out.
Proof.
  revert out. induction array as [|x rest IH]; intros out; cbn [Array_sort].
  - intros [= <-]. reflexivity.
  - destruct (Array_sort after rest) as [sorted|e]; cbn [mbind result_bind];
      [|discriminate].
    intros H. apply Array_insert_Permutation in H.
    rewrite <- H. constructor. now apply IH.
Qed.

(** The sort returns when the comparator does. *)
Lemma Array_insert_returns (x : A) (sorted : list A) :
  (forall y, In y sorted -> exists swap, after x y = Ok swap) ->
  exists out, Array_insert after x sorted = Ok out.
Proof.
  induction sorted as [|y rest IH]; intros Hcmp; cbn [Array_insert]; [eauto|].
  destruct (Hcmp y) as [swap ->]; [now left|]. cbn [mbind result_bind].
  destruct swap; [|eauto].
  destruct IH as [rest' ->]; [|cbn; eauto].
  intros z Hz. apply Hcmp. now right.
Qed.

Lemma Array_sort_returns (array : list A) :
  (forall x y, In x array -> In y array -> exists swap, after x y = Ok swap) ->
  exists out, Array_sort after array = Ok out.
Proof.
  induction array as [|x rest IH]; intros Hcmp; cbn [Array_sort]; [eauto|].
  destruct IH as [sorted Hsorted].
  { intros a b Ha Hb. apply Hcmp; now right. }
  rewrite Hsorted. cbn [mbind result_bind].
  apply Array_insert_returns. intros y Hy. apply Hcmp; [now left|].
  right. eapply Permutation_in; [|exact Hy].
  symmetry. now apply Array_sort_Permutation.
Qed.

(** Stability: a class [P] of elements none of which the comparator puts
    after another keeps its order. *)
Section Stable.

Variable P : A -> bool.
Hypothesis P_unordered :
  forall a b, P a = true -> P b = true -> after a b <> Ok true.

Lemma Array_insert_stable (x : A) (sorted out : list A) :
  Array_insert after x sorted = Ok out ->
  List.filter P out = List.filter P (x :: sorted).
Proof.
  revert out. induction sorted as [|y rest IH]; intros out; cbn [Array_insert].
  - intros [= <-]. reflexivity.
  - destruct (after x y) as [[|]|e] eqn:Hxy; cbn [mbind result_bind];
      [| |discriminate].
    + destruct (Array_insert after x rest) as [rest'|e]; [|discriminate].
      intros [= <-]. cbn [List.filter]. rewrite (IH rest' eq_refl).
      cbn [List.filter].
      destruct (P x) eqn:Hx, (P y) eqn:Hy; try reflexivity.
      now destruct (P_unordered x y Hx Hy).
    + intros [= <-]. reflexivity.
Qed.

Lemma Array_sort_stable (array out : list A) :
  Array_sort after array = Ok out ->
  List.filter P out = List.filter P array.
Proof.
  revert out. induction array as [|x rest IH]; intros out; cbn [Array_sort].
  - intros [= <-]. reflexivity.
  - destruct (Array_sort after rest) as [sorted|e]; cbn [mbind result_bind];
      [|discriminate].
    intros H. apply Array_insert_stable in H. rewrite H.
    cbn [List.filter]. now rewrite (IH sorted eq_refl).
Qed.

End Stable.

(** Order: when the comparator is asymmetric, no element of the result
    has to go after its successor. *)
Section Ordered.

Hypothesis after_asym :
  forall a b, after a b = Ok true -> after b a = Ok false.

Lemma Array_insert_HdRel (x y : A) (sorted out : list A) :
  after x y = Ok true ->
  HdRel (fun a b => after a b = Ok false) y sorted ->
  Array_insert after x sorted = Ok out ->
  HdRel (fun a b => after a b = Ok false) y out.
Proof.
  intros Hxy Hhd. destruct sorted as [|z rest]; cbn [Array_insert].
  - intros [= <-]. constructor. now apply after_asym.
  - destruct (after x z) as [[|]|e]; cbn [mbind result_bind]; [| |discriminate].
    + destruct (Array_insert after x rest); [|discriminate].
      intros [= <-]. inversion Hhd; subst. now constructor.
    + intros [= <-]. constructor. now apply after_asym.
Qed.

Lemma Array_insert_Sorted (x : A) (sorted out : list A) :
  Sorted (fun a b => after a b = Ok false) sorted ->
  Array_insert after x sorted = Ok out ->
  Sorted (fun a b => after a b = Ok false) out.
Proof.
  revert out. induction sorted as [|y rest IH]; intros out Hs;
    cbn [Array_insert].
  - intros [= <-]. repeat constructor.
  - destruct (after x y) as [[|]|e] eqn:Hxy; cbn [mbind result_bind];
      [| |discriminate].
    + destruct (Array_insert after x rest) as [rest'|e] eqn:Hins;
        [|discriminate].
      intros [= <-]. inversion Hs; subst. constructor.
      * now apply IH.
      * eapply Array_insert_HdRel; eauto.
    + intros [= <-]. constructor; [assumption | now constructor].
Qed.

Lemma Array_sort_Sorted (array out : list A) :
  Array_sort after array = Ok out ->
  Sorted (fun a b => after a b = Ok false) out.
Proof.
  revert out. induction array as [|x rest IH]; intros out; cbn [Array_sort].
  - intros [= <-]. constructor.
  - destruct (Array_sort after rest) as [sorted|e]; cbn [mbind result_bind];
      [|discriminate].
    apply Array_insert_Sorted. now apply IH.
Qed.

End Ordered.

End ArraySort.

(** ** Ranking by smart score *)

Lemma positive_sub_asym (a b : number) :
  JsNum.positive (JsNum.sub b a) = true ->
  JsNum.positive (JsNum.sub a b) = false.
Proof.
  unfold JsNum.sub.
  destruct a as [|[|]|x], b as [|[|]|y]; cbn; try congruence.
  destruct (Rlt_dec 0 (y + - x)), (Rlt_dec 0 (x + - y)); try congruence. lra.
Qed.

Lemma same_not_lt (a b s : number) :
  JsNum.same a s = true -> JsNum.same b s = true -> JsNum.lt a b = false.
Proof.
  unfold JsNum.lt, JsNum.sub.
  destruct a as [|[|]|x], b as [|[|]|y], s as [|[|]|z]; cbn; try congruence.
  destruct (Req_dec_T x z), (Req_dec_T y z); try congruence.
  intros _ _. destruct (Rlt_dec 0 (y + - x)); [lra | reflexivity].
Qed.

Lemma smartScore_scoreOf (query : string) (a : Media.item) :
  Media.title a <> None -> smartScore (Some query) a = Ok (scoreOf query a).
Proof.
  intros Ht. unfold scoreOf, smartScore.
  destruct (Media.title a) as [t|]; [|contradiction].
  now rewrite calculateSmartScore_terms.
Qed.

Lemma scoreOf_terms (query : string) (a : Media.item) (t : string) :
  Media.title a = Some t ->
  scoreOf query a
  = JsNum.add
      (JsNum.add (popularityTerm (Media.popularity a))
                 (qualityTerm (Media.vote_average a) (Media.vote_count a)))
      (Num (IZR (spec_titleRelevance t query))).
Proof.
  intros Ht. unfold scoreOf, smartScore. rewrite Ht.
  now rewrite calculateSmartScore_terms.
Qed.

Lemma scoreOf_finite (query : string) (a : Media.item) :
  Media.title a <> None -> validPopularity (Media.popularity a) ->
  exists x, scoreOf query a = Num x.
Proof.
  intros Ht Hp. destruct (Media.title a) as [t|] eqn:E; [|contradiction].
  rewrite (scoreOf_terms query a t E).
  destruct (popularityTerm_finite _ Hp) as [p ->].
  destruct (qualityTerm_value (Media.vote_average a) (Media.vote_count a)) as [q ->].
  cbn. eauto.
Qed.

Lemma compareSmartScore_lt (query : string) (a b : Media.item) :
  Media.title a <> None -> Media.title b <> None ->
  compareSmartScore (Some query) a b
  = Ok (JsNum.lt (scoreOf query a) (scoreOf query b)).
Proof.
  intros Ha Hb. unfold compareSmartScore.
  now rewrite !smartScore_scoreOf by assumption.
Qed.

Lemma compareSmartScore_inv (query : option string) (a b : Media.item) (swap : bool) :
  compareSmartScore query a b = Ok swap ->
  exists sa sb,
    smartScore query a = Ok sa /\ smartScore query b = Ok sb
    /\ swap = JsNum.lt sa sb.
Proof.
  unfold compareSmartScore.
  destruct (smartScore query a) as [sa|e]; cbn [mbind result_bind]; [|discriminate].
  destruct (smartScore query b) as [sb|e]; cbn [mbind result_bind]; [|discriminate].
  intros [= <-]. eauto.
Qed.

Lemma compareSmartScore_asym (query : option string) (a b : Media.item) :
  compareSmartScore query a b = Ok true -> compareSmartScore query b a = Ok false.
Proof.
  intros H. apply compareSmartScore_inv in H as (sa & sb & Ha & Hb & Hlt).
  unfold compareSmartScore. rewrite Ha, Hb. cbn [mbind result_bind].
  f_equal. apply positive_sub_asym. symmetry. exact Hlt.
Qed.

Lemma compareSmartScore_same (query : string) (s : number) (a b : Media.item) :
  JsNum.same (scoreOf query a) s = true ->
  JsNum.same (scoreOf query b) s = true ->
  compareSmartScore (Some query) a b <> Ok true.
Proof.
  intros Ha Hb H. apply compareSmartScore_inv in H as (sa & sb & Ea & Eb & Hlt).
  unfold scoreOf in Ha, Hb. rewrite Ea in Ha. rewrite Eb in Hb.
  rewrite (same_not_lt sa sb s Ha Hb) in Hlt. discriminate.
Qed.

Lemma Sorted_weaken {A : Type} (R R' : A -> A -> Prop) (l : list A) :
  (forall a b, In a l -> In b l -> R a b -> R' a b) ->
  Sorted R l -> Sorted R' l.
Proof.
  intros Himp Hs. induction Hs as [|a l Hs IH Hhd]; constructor.
  - apply IH. intros x y Hx Hy. apply Himp; now right.
  - destruct Hhd as [|b l' Hab]; constructor.
    apply Himp; [now left | right; now left | exact Hab].
Qed.

Lemma scoredAbove_trans (query : string) (a b c : Media.item) :
  scoredAbove query a b -> scoredAbove query b c -> scoredAbove query a c.
Proof.
  intros (x & y & Ha & Hb & Hxy) (y' & z & Hb' & Hc & Hyz).
  rewrite Hb in Hb'. injection Hb' as <-.
  exists x, z. repeat split; try assumption. lra.
Qed.

Lemma lt_false_scoredAbove (query : string) (a b : Media.item) :
  (exists x, scoreOf query a = Num x) -> (exists y, scoreOf query b = Num y) ->
  JsNum.lt (scoreOf query a) (scoreOf query b) = false ->
  scoredAbove query a b.
Proof.
  intros [x Hx] [y Hy] Hlt. exists x, y. repeat split; try assumption.
  rewrite Hx, Hy in Hlt. unfold JsNum.lt, JsNum.sub in Hlt. cbn in Hlt.
  destruct (Rlt_dec 0 (y + - x)); [discriminate | lra].
Qed.

Lemma rankResults_returns (query : string) (allResults : list Media.item) :
  (forall a, In a allResults -> Media.title a <> None) ->
  exists ranked, rankResults (Some query) allResults = Ok ranked.
Proof.
  intros Ht. apply Array_sort_returns. intros x y Hx Hy.
  rewrite compareSmartScore_lt by auto. eauto.
Qed.

Lemma StronglySorted_app_inv {A : Type} (R : A -> A -> Prop) (l1 l2 : list A) :
  StronglySorted R (l1 ++ l2) ->
  forall a b, In a l1 -> In b l2 -> R a b.
Proof.
  induction l1 as [|x l1 IH]; cbn [app]; intros Hs a b Ha Hb; [destruct Ha|].
  apply StronglySorted_inv in Hs as [Hs Hall].
  destruct Ha as [<- | Ha]; [|now apply IH].
  rewrite Forall_forall in Hall. apply Hall. apply in_or_app. now right.
Qed.

Lemma rankResults_descending (query : string) (allResults : list Media.item) :
  (forall a, In a allResults -> Media.title a <> None) ->
  (forall a, In a allResults -> validPopularity (Media.popularity a)) ->
  exists ranked,
    rankResults (Some query) allResults = Ok ranked
    /\ Permutation allResults ranked
    /\ StronglySorted (scoredAbove query) ranked.
Proof.
  intros Htitles Hvalid.
  destruct (rankResults_returns query allResults Htitles) as [ranked Hrank].
  exists ranked. split; [exact Hrank|].
  assert (Hperm : Permutation allResults ranked)
    by now apply Array_sort_Permutation in Hrank.
  split; [exact Hperm|].
  assert (Hin : forall a, In a ranked -> In a allResults).
  { intros a Ha. eapply Permutation_in; [symmetry; exact Hperm | exact Ha]. }
  apply Sorted_StronglySorted.
  { intros a b c. apply scoredAbove_trans. }
  eapply Sorted_weaken;
    [|eapply Array_sort_Sorted; [apply compareSmartScore_asym | exact Hrank]].
  intros a b Ha Hb Hab. cbn beta in Hab.
  rewrite compareSmartScore_lt in Hab by auto. injection Hab as Hab.
  apply lt_false_scoredAbove; [apply scoreOf_finite; auto .. | exact Hab].
Qed.

Lemma same_refl (x : R) : JsNum.same (Num x) (Num x) = true.
Proof. cbn. now destruct (Req_dec_T x x). Qed.

Lemma scoredAbove_antisym (query : string) (a b : Media.item) :
  scoredAbove query a b -> scoredAbove query b a ->
  scoreOf query a = scoreOf query b.
Proof.
  intros (x & y & Ha & Hb & Hyx) (y' & x' & Hb' & Ha' & Hxy).
  rewrite Ha in Ha'. rewrite Hb in Hb'.
  injection Ha' as <-. injection Hb' as <-.
  rewrite Ha, Hb. f_equal. lra.
Qed.

(** A descending order that keeps each class of equal scores in a given
    order is unique: whatever stable sort the engine runs, it returns
    this array. *)
Lemma ranked_unique (query : string) (ranked other : list Media.item) :
  (forall a, In a ranked -> exists x, scoreOf query a = Num x) ->
  Permutation ranked other ->
  StronglySorted (scoredAbove query) ranked ->
  StronglySorted (scoredAbove query) other ->
  (forall s,
     List.filter (fun a => JsNum.same (scoreOf query a) s) ranked
     = List.filter (fun a => JsNum.same (scoreOf query a) s) other) ->
  ranked = other.
Proof.
  revert other.
  induction ranked as [|x ranked IH]; intros other Hfinite Hperm Hs Hs' Hclasses.
  - now apply Permutation_nil in Hperm.
  - destruct other as [|y other].
    { symmetry in Hperm. now apply Permutation_nil in Hperm. }
    assert (Exy : x = y).
    { destruct (Hfinite x) as [r Hr]; [now left|].
      assert (Hy : In y (x :: ranked)).
      { eapply Permutation_in; [symmetry; exact Hperm | now left]. }
      assert (Hx : In x (y :: other)).
      { eapply Permutation_in; [exact Hperm | now left]. }
      assert (Escore : scoreOf query y = scoreOf query x).
      { destruct Hy as [-> | Hy]; [reflexivity|].
        destruct Hx as [-> | Hx]; [reflexivity|].
        apply StronglySorted_inv in Hs as [_ Hbelow].
        apply StronglySorted_inv in Hs' as [_ Hbelow'].
        rewrite Forall_forall in Hbelow, Hbelow'.
        apply scoredAbove_antisym; auto. }
      specialize (Hclasses (Num r)). cbn [List.filter] in Hclasses.
      rewrite Escore, Hr, same_refl in Hclasses. now injection Hclasses. }
    subst y. f_equal. apply IH.
    + intros a Ha. apply Hfinite. now right.
    + now apply Permutation_cons_inv in Hperm.
    + now apply StronglySorted_inv in Hs.
    + now apply StronglySorted_inv in Hs'.
    + intros s. specialize (Hclasses s). cbn [List.filter] in Hclasses.
      destruct (JsNum.same (scoreOf query x) s); [now injection Hclasses | exact Hclasses].
Qed.

(** In a descending order an item stands before every item that scores
    strictly less. *)
Lemma ranked_before (query : string) (ranked : list Media.item)
    (a b : Media.item) (x y : R) :
  StronglySorted (scoredAbove query) ranked ->
  In a ranked -> In b ranked ->
  scoreOf query a = Num x -> scoreOf query b = Num y -> (y < x)%R ->
  exists before between after,
    ranked = (before ++ a :: between ++ b :: after)%list.
Proof.
  intros Hs Ha Hb Sa Sb Hlt.
  apply in_split in Hb as (l & l' & ->).
  apply in_app_or in Ha as [Ha | [-> | Ha]].
  - apply in_split in Ha as (before & between & ->).
    exists before, between, l'. now rewrite <- List.app_assoc.
  - rewrite Sa in Sb. injection Sb as ->. lra.
  - change (l ++ b :: l')%list with (l ++ [b] ++ l')%list in Hs.
    rewrite List.app_assoc in Hs.
    destruct (StronglySorted_app_inv _ _ _ Hs b a) as (y' & x' & Sb' & Sa' & Hle);
      [apply in_or_app; right; now left | exact Ha |].
    rewrite Sa in Sa'. rewrite Sb in Sb'.
    injection Sa' as <-. injection Sb' as <-. lra.
Qed.

(** ** C8: the ranking is a stable descending sort *)

(** C8.  Ranking nothing returns nothing.  For provider results whose
    titles are strings and whose popularities are not negative, so that
    every score is a real number and the comparator a consistent order,
    the ranking returns a permutation [ranked] of the fetched list (films
    first, then series), of which the search returns the first twenty;
    the scores of [ranked] descend; for every score [s] the items that
    score [s] stand in [ranked] in the order they were fetched in, films
    before series and each in provider order; and [ranked] is the only
    descending arrangement of the fetched items that keeps the fetch order
    among equal scores, so the result does not depend on which stable
    sort computes it. *)
Theorem C8_rank_stable_descending (query : string) :
  rankResults (Some query) [] = Ok []
  /\ searchMoviesAndTV (Some query) (Ok []) (Ok []) = Ok []
  /\ forall movies tv : list Media.item,
       let fetchedMovies := List.map processMovie movies in
       let fetchedShows := List.map processShow tv in
       let allResults := (fetchedMovies ++ fetchedShows)%list in
       (forall a, In a allResults -> Media.title a <> None) ->
       (forall a, In a allResults -> validPopularity (Media.popularity a)) ->
       exists ranked,
         rankResults (Some query) allResults = Ok ranked
         /\ searchMoviesAndTV (Some query) (Ok movies) (Ok tv)
            = Ok (firstn 20 ranked)
         /\ Permutation allResults ranked
         /\ StronglySorted (scoredAbove query) ranked
         /\ (forall s,
               List.filter (fun a => JsNum.same (scoreOf query a) s) ranked
               = (List.filter (fun a => JsNum.same (scoreOf query a) s) fetchedMovies
                  ++ List.filter (fun a => JsNum.same (scoreOf query a) s)
                       fetchedShows)%list)
         /\ (forall other,
               Permutation allResults other ->
               StronglySorted (scoredAbove query) other ->
               (forall s,
                  List.filter (fun a => JsNum.same (scoreOf query a) s) other
                  = List.filter (fun a => JsNum.same (scoreOf query a) s) allResults) ->
               other = ranked).
Proof.
  split; [reflexivity|]. split; [reflexivity|].
  intros movies tv fetchedMovies fetchedShows allResults Htitles Hvalid.
  destruct (rankResults_descending query allResults Htitles Hvalid)
    as (ranked & Hrank & Hperm & Hsorted).
  exists ranked.
  assert (Hstable : forall s,
            List.filter (fun a => JsNum.same (scoreOf query a) s) ranked
            = List.filter (fun a => JsNum.same (scoreOf query a) s) allResults).
  { intros s. eapply Array_sort_stable; [|exact Hrank].
    intros a b. apply compareSmartScore_same. }
  split; [exact Hrank|]. split.
  { unfold searchMoviesAndTV. cbn [mbind result_bind].
    fold fetchedMovies fetchedShows allResults. now rewrite Hrank. }
  split; [exact Hperm|]. split; [exact Hsorted|]. split.
  - intros s. rewrite Hstable. unfold allResults. apply List.filter_app.
  - intros other Hperm' Hsorted' Hstable'. symmetry.
    apply (ranked_unique query); try assumption.
    + intros a Ha. apply scoreOf_finite.
      * apply Htitles. eapply Permutation_in; [symmetry; exact Hperm | exact Ha].
      * apply Hvalid. eapply Permutation_in; [symmetry; exact Hperm | exact Ha].
    + now rewrite <- Hperm.
    + intros s. now rewrite Hstable, Hstable'.
Qed.

Lemma avatar_relevance : spec_titleRelevance "Avatar" "avatar" = 70.
Proof. vm_compute. reflexivity. Qed.

Lemma avatar_sequel_relevance :
  spec_titleRelevance "Avatar: The Way of Water" "avatar" = 50.
Proof. vm_compute. reflexivity. Qed.

Lemma avatar_scores (a b : Media.item) :
  Media.title a = Some "Avatar" ->
  Media.title b = Some "Avatar: The Way of Water" ->
  Media.popularity a = Media.popularity b ->
  Media.vote_average a = Media.vote_average b ->
  Media.vote_count a = Media.vote_count b ->
  validPopularity (Media.popularity a) ->
  exists base : R,
    scoreOf "avatar" a = Num (base + 70)
    /\ scoreOf "avatar" b = Num (base + 50).
Proof.
  intros Ha Hb Hpop Havg Hcnt Hvalid.
  pose proof (scoreOf_terms "avatar" a _ Ha) as Sa.
  pose proof (scoreOf_terms "avatar" b _ Hb) as Sb.
  rewrite avatar_relevance in Sa. rewrite avatar_sequel_relevance in Sb.
  rewrite <- Hpop, <- Havg, <- Hcnt in Sb.
  destruct (popularityTerm_finite _ Hvalid) as [p Hp].
  destruct (qualityTerm_value (Media.vote_average a) (Media.vote_count a))
    as [q Hq].
  rewrite Hp, Hq in Sa, Sb. cbn in Sa, Sb.
  exists (p + q)%R. split; assumption.
Qed.

Lemma avatar_ranks_first (a b : Media.item) :
  Media.title a = Some "Avatar" ->
  Media.title b = Some "Avatar: The Way of Water" ->
  Media.popularity a = Media.popularity b ->
  Media.vote_average a = Media.vote_average b ->
  Media.vote_count a = Media.vote_count b ->
  validPopularity (Media.popularity a) ->
  rankResults (Some "avatar") [a; b] = Ok [a; b]
  /\ rankResults (Some "avatar") [b; a] = Ok [a; b].
Proof.
  intros Ha Hb Hpop Havg Hcnt Hvalid.
  assert (Hta : Media.title a <> None) by (rewrite Ha; discriminate).
  assert (Htb : Media.title b <> None) by (rewrite Hb; discriminate).
  destruct (avatar_scores a b Ha Hb Hpop Havg Hcnt Hvalid) as (base & Sa & Sb).
  assert (Hab : JsNum.lt (scoreOf "avatar" a) (scoreOf "avatar" b) = false).
  { rewrite Sa, Sb. unfold JsNum.lt, JsNum.sub. cbn.
    destruct (Rlt_dec 0 _); [lra | reflexivity]. }
  assert (Hba : JsNum.lt (scoreOf "avatar" b) (scoreOf "avatar" a) = true).
  { rewrite Sa, Sb. unfold JsNum.lt, JsNum.sub. cbn.
    destruct (Rlt_dec 0 _); [reflexivity | lra]. }
  unfold rankResults. cbn [Array_sort Array_insert mbind result_bind].
  rewrite !compareSmartScore_lt by assumption.
  rewrite Hab, Hba. split; reflexivity.
Qed.

Lemma avatar_ranks_above (allResults : list Media.item) (a b : Media.item) :
  (forall c, In c allResults -> Media.title c <> None) ->
  (forall c, In c allResults -> validPopularity (Media.popularity c)) ->
  In a allResults -> In b allResults ->
  Media.title a = Some "Avatar" ->
  Media.title b = Some "Avatar: The Way of Water" ->
  Media.popularity a = Media.popularity b ->
  Media.vote_average a = Media.vote_average b ->
  Media.vote_count a = Media.vote_count b ->
  exists before between after,
    rankResults (Some "avatar") allResults
    = Ok (before ++ a :: between ++ b :: after)%list.
Proof.
  intros Htitles Hvalid Hina Hinb Ha Hb Hpop Havg Hcnt.
  destruct (rankResults_descending "avatar" allResults Htitles Hvalid)
    as (ranked & Hrank & Hperm & Hsorted).
  destruct (avatar_scores a b Ha Hb Hpop Havg Hcnt (Hvalid a Hina))
    as (base & Sa & Sb).
  destruct (ranked_before "avatar" ranked a b (base + 70) (base + 50) Hsorted)
    as (before & between & after & ->); [| | exact Sa | exact Sb | lra |].
  - eapply Permutation_in; [exact Hperm | exact Hina].
  - eapply Permutation_in; [exact Hperm | exact Hinb].
  - exists before, between, after. exact Hrank.
Qed.

Lemma example_ranking :
  rankResults (Some "avatar") [processMovie exampleMovie; processShow exampleShow]
  = Ok [processShow exampleShow; processMovie exampleMovie].
Proof.
  apply (avatar_ranks_first (processShow exampleShow) (processMovie exampleMovie));
    try reflexivity.
  cbn. lra.
Qed.

Lemma matrix_relevance :
  spec_titleRelevance "Avatar" "matrix" = 0
  /\ spec_titleRelevance "Avatar: The Way of Water" "matrix" = 0.
Proof. split; vm_compute; reflexivity. Qed.

Lemma C8_rank_stable_descending_witness :
  rankResults (Some "matrix")
    (List.map processMovie [exampleMovie] ++ List.map processShow [exampleShow])%list
  = Ok [processMovie exampleMovie; processShow exampleShow].
Proof.
  destruct (C8_rank_stable_descending "matrix") as (_ & _ & H).
  destruct (H [exampleMovie] [exampleShow])
    as (ranked & Hrank & _ & Hperm & _ & Hstable & _).
  - intros a [<- | [<- | []]]; discriminate.
  - intros a [<- | [<- | []]]; cbn; lra.
  - rewrite Hrank. f_equal.
    destruct matrix_relevance as [Ra Rb].
    pose proof (scoreOf_terms "matrix" (processShow exampleShow) _ eq_refl) as Sa.
    pose proof (scoreOf_terms "matrix" (processMovie exampleMovie) _ eq_refl) as Sb.
    rewrite Ra in Sa. rewrite Rb in Sb.
    destruct (popularityTerm_finite (Some 120%R)) as [p Hp]; [cbn; lra|].
    destruct (qualityTerm_value (Some 7.5%R) (Some 11000%R)) as [q Hq].
    cbn [processShow processMovie exampleShow exampleMovie Media.popularity
         Media.vote_average Media.vote_count] in Sa, Sb.
    rewrite Hp, Hq in Sa, Sb. cbn [JsNum.add] in Sa, Sb.
    specialize (Hstable (Num (p + q + 0))).
    cbn [List.map List.filter app] in Hstable, Hperm.
    rewrite Sa, Sb, same_refl in Hstable. cbn [List.filter app] in Hstable.
    apply Permutation_length_2_inv in Hperm as [-> | ->]; [reflexivity|].
    cbn [List.filter] in Hstable. rewrite Sa, Sb, same_refl in Hstable.
    discriminate Hstable.
Defined.

(** ** C2: the title-relevance contribution *)

Lemma score_of_title (title query : string) :
  calculateSmartScore (Some title) (Some query) None None None
  = Ok (Num (IZR (spec_titleRelevance title query))).
Proof.
  rewrite calculateSmartScore_terms.
  rewrite popularityTerm_default by now left.
  rewrite qualityTerm_no_rating. cbn [JsNum.add]. do 2 f_equal. lra.
Qed.

(** C2.  The score is the popularity term plus the quality term plus the
    title-relevance sum of the specification: 30 for contains, 20 for
    equals, 15 for starts-with, 5 for each overlapping pair of words.  For
    the query "avatar" the title "Avatar" earns all three bonuses, 65
    points, and one word pair; "Avatar: The Way of Water" earns contains,
    starts-with and one word pair; so with equal, valid popularity and
    equal quality the item titled "Avatar" is ranked first, whichever
    order the two were fetched in, and stands before the other in the
    ranking of any list of results that holds both.  The words are the
    pieces between runs of white space (TAB, LF, VT, FF, CR, space): a
    text without white space is one word, and a word followed by a run of
    white space is split off the rest.  The word pairs are counted over
    the whole product: "the water" against "The Way of Water" counts two
    pairs though the title does not contain the query, and "the the"
    against "The The" counts four.  Containment is of a substring, in
    either direction: "vat" is contained in the word "avatar", and the
    query word "avatars" contains the title word "avatar". *)
Theorem C2_title_relevance (title query : string)
    (popularity rating voteCount : field) :
  calculateSmartScore (Some title) (Some query) popularity rating voteCount
  = Ok (JsNum.add
          (JsNum.add (popularityTerm popularity) (qualityTerm rating voteCount))
          (Num (IZR (spec_titleRelevance title query))))
  /\ (JsString.includes (JsString.toLowerCase "Avatar") (JsString.toLowerCase "avatar")
      = true
      /\ String.eqb (JsString.toLowerCase "Avatar") (JsString.toLowerCase "avatar")
         = true
      /\ JsString.startsWith (JsString.toLowerCase "Avatar")
           (JsString.toLowerCase "avatar") = true
      /\ spec_titleRelevance "Avatar" "avatar" = 30 + 20 + 15 + 5 * 1)
  /\ spec_titleRelevance "Avatar: The Way of Water" "avatar" = 30 + 0 + 15 + 5 * 1
  /\ (forall a b : Media.item,
        Media.title a = Some "Avatar" ->
        Media.title b = Some "Avatar: The Way of Water" ->
        Media.popularity a = Media.popularity b ->
        Media.vote_average a = Media.vote_average b ->
        Media.vote_count a = Media.vote_count b ->
        validPopularity (Media.popularity a) ->
        rankResults (Some "avatar") [a; b] = Ok [a; b]
        /\ rankResults (Some "avatar") [b; a] = Ok [a; b])
  /\ (forall (allResults : list Media.item) (a b : Media.item),
        (forall c, In c allResults -> Media.title c <> None) ->
        (forall c, In c allResults -> validPopularity (Media.popularity c)) ->
        In a allResults -> In b allResults ->
        Media.title a = Some "Avatar" ->
        Media.title b = Some "Avatar: The Way of Water" ->
        Media.popularity a = Media.popularity b ->
        Media.vote_average a = Media.vote_average b ->
        Media.vote_count a = Media.vote_count b ->
        exists before between after,
          rankResults (Some "avatar") allResults
          = Ok (before ++ a :: between ++ b :: after)%list)
  /\ ((forall c,
         JsString.isSpace c
         = existsb (Nat.eqb (nat_of_ascii c)) [9; 10; 11; 12; 13; 32]%nat)
      /\ (forall word,
            (forall c, In c (list_ascii_of_string word) -> JsString.isSpace c = false) ->
            JsString.split_ws word = [word])
      /\ (forall word sep rest,
            (forall c, In c (list_ascii_of_string word) -> JsString.isSpace c = false) ->
            sep <> EmptyString ->
            (forall c, In c (list_ascii_of_string sep) -> JsString.isSpace c = true) ->
            JsString.headIsSpace rest = false ->
            JsString.split_ws (word ++ sep ++ rest) = word :: JsString.split_ws rest))
  /\ (JsString.split_ws "avatar:  the way of water"
      = ["avatar:"; "the"; "way"; "of"; "water"]
      /\ JsString.split_ws " avatar " = [EmptyString; "avatar"; EmptyString]
      /\ calculateSmartScore (Some "The Way of Water") (Some "the water")
           None None None = Ok (Num (5 * 2))
      /\ calculateSmartScore (Some "The The") (Some "the the") None None None
         = Ok (Num (30 + 20 + 15 + 5 * 4))
      /\ calculateSmartScore (Some "Avatar") (Some "avatar") None None None
         = Ok (Num (30 + 20 + 15 + 5 * 1))
      /\ calculateSmartScore (Some "Avatar: The Way of Water") (Some "avatar")
           None None None = Ok (Num (30 + 15 + 5 * 1))
      /\ calculateSmartScore (Some "The Avatar") (Some "vat") None None None
         = Ok (Num (30 + 5 * 1))
      /\ calculateSmartScore (Some "Avatar") (Some "avatars") None None None
         = Ok (Num (5 * 1))).
Proof.
  split; [apply calculateSmartScore_terms|].
  split; [repeat split; vm_compute; reflexivity|].
  split; [vm_compute; reflexivity|].
  split; [apply avatar_ranks_first|].
  split; [apply avatar_ranks_above|].
  split.
  { split; [apply isSpace_chars|]. split; [apply split_ws_word|].
    apply split_ws_next. }
  split; [vm_compute; reflexivity|].
  split; [vm_compute; reflexivity|].
  rewrite !score_of_title.
  replace (spec_titleRelevance "The Way of Water" "the water") with 10
    by (vm_compute; reflexivity).
  replace (spec_titleRelevance "The The" "the the") with 85
    by (vm_compute; reflexivity).
  replace (spec_titleRelevance "The Avatar" "vat") with 35
    by (vm_compute; reflexivity).
  replace (spec_titleRelevance "Avatar" "avatars") with 5
    by (vm_compute; reflexivity).
  rewrite avatar_relevance, avatar_sequel_relevance.
  repeat split; do 2 f_equal; lra.
Qed.

Lemma C2_title_relevance_witness :
  exists before between after,
    rankResults (Some "avatar")
      [processMovie exampleMovie; processMovie exampleMovie; processShow exampleShow]
    = Ok (before ++ processShow exampleShow
            :: between ++ processMovie exampleMovie :: after)%list.
Proof.
  destruct (C2_title_relevance "Avatar" "avatar" None None None)
    as (_ & _ & _ & _ & H & _).
  apply (H [processMovie exampleMovie; processMovie exampleMovie;
            processShow exampleShow]
           (processShow exampleShow) (processMovie exampleMovie));
    try reflexivity.
  - intros c [<- | [<- | [<- | []]]]; discriminate.
  - intros c [<- | [<- | [<- | []]]]; cbn; lra.
  - cbn. auto.
  - cbn. auto.
Defined.

(** ** C10: the shape of a search result *)

Lemma processMovie_normalized (movie : Media.item) : normalized (processMovie movie).
Proof.
  repeat split; cbn.
  - now left.
  - discriminate.
  - discriminate.
  - unfold posterUrl. destruct (truthyStr (Media.poster_path movie)); eauto.
Qed.

Lemma processShow_normalized (show : Media.item) : normalized (processShow show).
Proof.
  repeat split; cbn.
  - now right.
  - unfold posterUrl. destruct (truthyStr (Media.poster_path show)); eauto.
Qed.

Lemma In_firstn {A : Type} (n : nat) (l : list A) (x : A) :
  In x (firstn n l) -> In x l.
Proof.
  intros H. rewrite <- (firstn_skipn n l). apply in_or_app. now left.
Qed.

(** C10.  Whatever the search returns has at most twenty items, each one
    a processed provider result: its [media_type] is "movie" or "tv"; if
    it is "tv" its [title] is its [name] and its [release_date] its
    [first_air_date]; its [poster_path] is null or the image host's https
    URL followed by the provider's path.  A series is scored on its
    [name].  The search does return when the titles and the query are
    strings and the provider calls succeed. *)
Theorem C10_search_normalized (query : option string)
    (movies tv : list Media.item) :
  (forall results,
     searchMoviesAndTV query (Ok movies) (Ok tv) = Ok results ->
     (List.length results <= 20)%nat
     /\ Forall normalized results
     /\ forall it, In it results ->
          In it (List.map processMovie movies ++ List.map processShow tv)%list)
  /\ (forall show,
        Media.title (processShow show) = Media.name show
        /\ Media.release_date (processShow show) = Media.first_air_date show
        /\ smartScore query (processShow show)
           = calculateSmartScore (Media.name show) query (Media.popularity show)
               (Media.vote_average show) (Media.vote_count show))
  /\ (forall q,
        query = Some q ->
        (forall a,
           In a (List.map processMovie movies ++ List.map processShow tv)%list ->
           Media.title a <> None) ->
        exists results, searchMoviesAndTV query (Ok movies) (Ok tv) = Ok results).
Proof.
  split; [|split].
  - intros results. unfold searchMoviesAndTV. cbn [mbind result_bind].
    destruct (rankResults query _) as [ranked|e] eqn:Hrank;
      cbn [try_catch]; [|discriminate].
    intros [= <-].
    assert (Hin : forall it, In it (firstn 20 ranked) ->
              In it (List.map processMovie movies ++ List.map processShow tv)%list).
    { intros it Hit. apply In_firstn in Hit.
      eapply Permutation_in; [|exact Hit].
      symmetry. eapply Array_sort_Permutation. exact Hrank. }
    split; [apply firstn_le_length|]. split; [|exact Hin].
    apply Forall_forall. intros it Hit. apply Hin in Hit.
    apply in_app_or in Hit as [Hit | Hit];
      apply in_map_iff in Hit as (x & <- & _).
    + apply processMovie_normalized.
    + apply processShow_normalized.
  - intros show. repeat split.
  - intros q -> Htitles.
    destruct (rankResults_returns q _ Htitles) as [ranked Hrank].
    exists (firstn 20 ranked). unfold searchMoviesAndTV.
    cbn [mbind result_bind]. now rewrite Hrank.
Qed.

Lemma C10_search_normalized_witness :
  (List.length [processShow exampleShow; processMovie exampleMovie] <= 20)%nat
  /\ Forall normalized [processShow exampleShow; processMovie exampleMovie].
Proof.
  destruct (C10_search_normalized (Some "avatar") [exampleMovie] [exampleShow])
    as (H & _).
  destruct (H [processShow exampleShow; processMovie exampleMovie]) as (Hlen & Hnorm & _).
  - unfold searchMoviesAndTV. cbn [mbind result_bind List.map app].
    now rewrite example_ranking.
  - split; assumption.
Defined.

(** ** C3: primary trailer lookup *)

Lemma find_first {A : Type} (p : A -> bool) (before after : list A) (x : A) :
  p x = true -> Forall (fun y => p y = false) before ->
  List.find p (before ++ x :: after) = Some x.
Proof.
  intros Hx Hb. induction Hb as [|y before Hy _ IH]; cbn.
  - now rewrite Hx.
  - now rewrite Hy.
Qed.

Lemma find_nothing {A : Type} (p : A -> bool) (l : list A) :
  Forall (fun y => p y = false) l -> List.find p l = None.
Proof.
  intros H. induction H as [|y l Hy _ IH]; cbn; [reflexivity|]. now rewrite Hy.
Qed.

Lemma tryPriorities_first (priorities : list (Tmdb.video -> bool))
    (youtubeVideos : list Tmdb.video) (i : nat)
    (priorityCheck : Tmdb.video -> bool) (found : Tmdb.video) :
  nth_error priorities i = Some priorityCheck ->
  (forall j earlier, (j < i)%nat -> nth_error priorities j = Some earlier ->
     Forall (fun video => earlier video = false) youtubeVideos) ->
  List.find priorityCheck youtubeVideos = Some found ->
  tryPriorities priorities youtubeVideos = Some found.
Proof.
  revert i. induction priorities as [|p rest IH]; intros i Hi Hearlier Hfind.
  - destruct i; discriminate.
  - destruct i as [|i]; cbn in Hi |- *.
    + injection Hi as ->. now rewrite Hfind.
    + rewrite find_nothing.
      * apply (IH i); [assumption | | assumption].
        intros j earlier Hj Hnth. apply (Hearlier (S j)); [lia | exact Hnth].
      * apply (Hearlier 0%nat); [lia | reflexivity].
Qed.

Lemma tryPriorities_nothing (priorities : list (Tmdb.video -> bool))
    (youtubeVideos : list Tmdb.video) :
  (forall priorityCheck, In priorityCheck priorities ->
     Forall (fun video => priorityCheck video = false) youtubeVideos) ->
  tryPriorities priorities youtubeVideos = None.
Proof.
  induction priorities as [|p rest IH]; intros H; cbn; [reflexivity|].
  rewrite find_nothing by (apply H; now left).
  apply IH. intros q Hq. apply H. now right.
Qed.

Lemma getValidTMDBTrailer_unfold (videos : list Tmdb.video) :
  getValidTMDBTrailer (Some videos)
  = let youtubeVideos :=
      List.filter (fun video => String.eqb (Tmdb.site video) "YouTube") videos in
    match tryPriorities trailerPriorities youtubeVideos with
    | Some foundTrailer => Some foundTrailer
    | None => List.head youtubeVideos
    end.
Proof.
  unfold getValidTMDBTrailer. destruct videos as [|v vs]; [reflexivity|].
  destruct (List.filter _ (v :: vs)); reflexivity.
Qed.

(** C3.  Let [youtubeVideos] be the videos hosted on YouTube, and let the
    priority order be, in this order: a Trailer whose lower-cased name
    contains "official"; a Trailer whose name contains "main"; any Trailer;
    a Teaser whose name contains "official"; any Teaser.  If
    [youtubeVideos] is empty the lookup returns null.  If the predicate at
    position [i] of the order matches some video and no earlier predicate
    matches any, the lookup returns the first video that predicate
    matches.  If no predicate matches any video, it returns the first
    YouTube video.  Each rung of the order is shown to win over the later
    ones on a list that offers them first, a video hosted elsewhere is
    never returned, and in the scenario of a Trailer "Official Trailer"
    and a Teaser "Teaser 1" the lookup returns the Trailer, in either
    input order. *)
Theorem C3_primary_lookup (videos : list Tmdb.video) :
  let youtubeVideos :=
    List.filter (fun video => String.eqb (Tmdb.site video) "YouTube") videos in
  let named (word : string) (video : Tmdb.video) :=
    JsString.includes (JsString.toLowerCase (Tmdb.name video)) word in
  let typed (type : string) (video : Tmdb.video) :=
    String.eqb (Tmdb.type video) type in
  let order : list (Tmdb.video -> bool) :=
    [ (fun video => typed "Trailer" video && named "official" video)%bool;
      (fun video => typed "Trailer" video && named "main" video)%bool;
      (fun video => typed "Trailer" video);
      (fun video => typed "Teaser" video && named "official" video)%bool;
      (fun video => typed "Teaser" video) ] in
  (youtubeVideos = [] -> getValidTMDBTrailer (Some videos) = None)
  /\ (forall (i : nat) priorityCheck before found after,
        nth_error order i = Some priorityCheck ->
        (forall j earlier, (j < i)%nat ->
           nth_error order j = Some earlier ->
           Forall (fun video => earlier video = false) youtubeVideos) ->
        youtubeVideos = (before ++ found :: after)%list ->
        priorityCheck found = true ->
        Forall (fun video => priorityCheck video = false) before ->
        getValidTMDBTrailer (Some videos) = Some found)
  /\ (forall first rest,
        youtubeVideos = first :: rest ->
        (forall priorityCheck, In priorityCheck order ->
           Forall (fun video => priorityCheck video = false) youtubeVideos) ->
        getValidTMDBTrailer (Some videos) = Some first)
  /\ getValidTMDBTrailer None = None
  /\ getValidTMDBTrailer (Some [officialTrailer; teaser1]) = Some officialTrailer
  /\ getValidTMDBTrailer (Some [teaser1; officialTrailer]) = Some officialTrailer
  /\ getValidTMDBTrailer
       (Some [teaser1; officialTeaser; secondTrailer; mainTrailer; officialTrailer])
     = Some officialTrailer
  /\ getValidTMDBTrailer (Some [teaser1; officialTeaser; secondTrailer; mainTrailer])
     = Some mainTrailer
  /\ getValidTMDBTrailer (Some [teaser1; officialTeaser; secondTrailer])
     = Some secondTrailer
  /\ getValidTMDBTrailer (Some [featurette; teaser1; officialTeaser])
     = Some officialTeaser
  /\ getValidTMDBTrailer (Some [featurette; teaser1]) = Some teaser1
  /\ getValidTMDBTrailer (Some [vimeoTrailer; featurette; teaser1]) = Some teaser1
  /\ getValidTMDBTrailer (Some [vimeoTrailer; featurette]) = Some featurette
  /\ getValidTMDBTrailer (Some [vimeoTrailer]) = None.
Proof.
  intros youtubeVideos named typed order.
  change order with trailerPriorities.
  rewrite getValidTMDBTrailer_unfold.
  cbv zeta. fold youtubeVideos.
  split; [|split; [|split; [|split]]].
  - now intros ->.
  - intros i priorityCheck before found after Hi Hearlier Hsplit Hfound Hbefore.
    rewrite (tryPriorities_first trailerPriorities youtubeVideos i priorityCheck found);
      try assumption; [reflexivity|].
    rewrite Hsplit. now apply find_first.
  - intros first rest Hsplit Hnone.
    rewrite tryPriorities_nothing by assumption. now rewrite Hsplit.
  - reflexivity.
  - repeat split; vm_compute; reflexivity.
Qed.

Lemma C3_primary_lookup_witness :
  getValidTMDBTrailer (Some [vimeoTrailer; featurette; teaser1; mainTrailer])
  = Some mainTrailer.
Proof.
  destruct (C3_primary_lookup [vimeoTrailer; featurette; teaser1; mainTrailer])
    as (_ & H & _).
  refine (H 1%nat _ [featurette; teaser1] mainTrailer [] eq_refl _ eq_refl eq_refl _).
  - intros j earlier Hj Hnth. destruct j as [|j]; [|lia].
    injection Hnth as Hnth. subst earlier. repeat constructor.
  - repeat constructor.
Defined.

(** ** C6: deduplication *)

Section FirstOccurrences.

Context {A K : Type} `{EqDecision K}.
Variable key : A -> K.

Lemma seen_before (before : list A) (x : A) :
  existsb (fun y => bool_decide (key y = key x)) before = true
  <-> In (key x) (List.map key before).
Proof.
  rewrite existsb_exists, in_map_iff. split.
  - intros (y & Hy & E). apply bool_decide_eq_true in E. eauto.
  - intros (y & E & Hy). exists y. split; [assumption|].
    now apply bool_decide_eq_true.
Qed.

Lemma firstOccurrences_fresh (before items : list A) (y : A) :
  In y (spec_firstOccurrences key before items) ->
  ~ In (key y) (List.map key before).
Proof.
  revert before. induction items as [|x rest IH]; intros before; cbn; [tauto|].
  assert (Hnext : In y (spec_firstOccurrences key (before ++ [x]) rest) ->
                  ~ In (key y) (List.map key before)).
  { intros Hy Hin. apply (IH _ Hy). rewrite List.map_app. apply in_or_app. now left. }
  destruct (existsb _ before) eqn:Hseen; [exact Hnext|].
  intros [<- | Hy]; [|now apply Hnext].
  intros Hin. apply seen_before in Hin. congruence.
Qed.

Lemma firstOccurrences_NoDup (before items : list A) :
  NoDup (List.map key (spec_firstOccurrences key before items)).
Proof.
  revert before. induction items as [|x rest IH]; intros before; cbn;
    [constructor|].
  destruct (existsb _ before); [apply IH|].
  cbn. constructor; [|apply IH].
  intros Hin. apply in_map_iff in Hin as (y & E & Hy).
  apply firstOccurrences_fresh in Hy. apply Hy.
  rewrite List.map_app. apply in_or_app. right. rewrite E. now left.
Qed.

Lemma firstOccurrences_sublist (before items : list A) :
  sublist (spec_firstOccurrences key before items) items.
Proof.
  revert before. induction items as [|x rest IH]; intros before; cbn;
    [constructor|].
  destruct (existsb _ before); [apply sublist_cons | apply sublist_skip]; apply IH.
Qed.

Lemma firstOccurrences_id (before items : list A) :
  NoDup (List.map key (before ++ items)) ->
  spec_firstOccurrences key before items = items.
Proof.
  revert before. induction items as [|x rest IH]; intros before Hnd; cbn;
    [reflexivity|].
  destruct (existsb _ before) eqn:Hseen.
  - apply seen_before in Hseen. rewrite List.map_app in Hnd. cbn in Hnd.
    apply NoDup_remove_2 in Hnd. destruct Hnd. apply in_or_app. now left.
  - f_equal. apply IH. now rewrite <- List.app_assoc.
Qed.

End FirstOccurrences.

Lemma findIndex_from_unseen {A : Type} (p : A -> bool) (before rest : list A) (i : Z) :
  existsb p before = false ->
  findIndex_from i p (before ++ rest)
  = findIndex_from (i + Z.of_nat (List.length before)) p rest.
Proof.
  revert i. induction before as [|y before IH]; intros i; cbn [existsb app].
  - intros _. f_equal. cbn. lia.
  - intros H. apply orb_false_iff in H as [Hy Hb]. cbn [findIndex_from].
    rewrite Hy, IH by assumption. f_equal. cbn [List.length]. lia.
Qed.

Lemma findIndex_from_seen {A : Type} (p : A -> bool) (before rest : list A) (i : Z) :
  existsb p before = true ->
  i <= findIndex_from i p (before ++ rest) < i + Z.of_nat (List.length before).
Proof.
  revert i. induction before as [|y before IH]; intros i; cbn [existsb app];
    [discriminate|].
  cbn [findIndex_from List.length]. destruct (p y); cbn [orb].
  - intros _. lia.
  - intros H. specialize (IH (i + 1) H). lia.
Qed.

Lemma same_id_seen (x : Media.item) (before : list Media.item) :
  existsb (fun y => bool_decide (Media.id y = Media.id x)) before
  = existsb (fun m => Media.id m =? Media.id x) before.
Proof.
  induction before as [|y before IH]; cbn; [reflexivity|]. rewrite IH. f_equal.
  destruct (Z.eqb_spec (Media.id y) (Media.id x)) as [E | N].
  - now apply bool_decide_eq_true.
  - now apply bool_decide_eq_false.
Qed.

Lemma uniqueMovies_from (allMovies before rest : list Media.item) :
  allMovies = (before ++ rest)%list ->
  filter_from (Z.of_nat (List.length before))
    (fun movie index =>
       index =? Array_findIndex (fun m => Media.id m =? Media.id movie) allMovies)
    rest
  = spec_firstOccurrences Media.id before rest.
Proof.
  revert before. induction rest as [|x rest IH]; intros before Hall;
    [reflexivity|].
  cbn [filter_from spec_firstOccurrences].
  assert (Hnext : Z.of_nat (List.length before) + 1
                  = Z.of_nat (List.length (before ++ [x])%list)).
  { rewrite List.length_app. cbn. lia. }
  rewrite Hnext, IH by (now rewrite <- List.app_assoc).
  rewrite same_id_seen. unfold Array_findIndex. rewrite Hall.
  destruct (existsb (fun m => Media.id m =? Media.id x) before) eqn:Hseen.
  - pose proof (findIndex_from_seen _ before (x :: rest) 0 Hseen) as Hidx.
    destruct (Z.eqb_spec (Z.of_nat (List.length before))
                (findIndex_from 0 (fun m => Media.id m =? Media.id x)
                   (before ++ x :: rest))); [lia | reflexivity].
  - rewrite findIndex_from_unseen by assumption. cbn [findIndex_from].
    rewrite Z.eqb_refl. cbn [Z.add]. now rewrite Z.eqb_refl.
Qed.

Lemma uniqueMovies_spec (allMovies : list Media.item) :
  uniqueMovies allMovies = spec_firstOccurrences Media.id [] allMovies.
Proof. apply (uniqueMovies_from allMovies [] allMovies). reflexivity. Qed.

Lemma uniqueContent_from (before rest : list Media.item)
    (seen : gset string) (unique : list Media.item) :
  (forall k, k ∈ seen <-> In k (List.map contentKey before)) ->
  snd (fold_left dedupeStep rest (seen, unique))
  = (unique ++ spec_firstOccurrences contentKey before rest)%list.
Proof.
  revert before seen unique.
  induction rest as [|x rest IH]; intros before seen unique Hseen;
    cbn [fold_left spec_firstOccurrences].
  - cbn. now rewrite List.app_nil_r.
  - unfold dedupeStep at 2. destruct (decide (contentKey x ∈ seen)) as [Hin | Hout].
    + assert (E : existsb (fun y => bool_decide (contentKey y = contentKey x)) before
                  = true).
      { apply seen_before. now apply Hseen. }
      rewrite E. apply IH. intros k. rewrite List.map_app, in_app_iff, <- Hseen.
      cbn. split; [tauto|]. intros [Hk | [<- | []]]; assumption.
    + assert (E : existsb (fun y => bool_decide (contentKey y = contentKey x)) before
                  = false).
      { apply not_true_is_false. intros Hex. apply seen_before in Hex.
        apply Hout. now apply Hseen. }
      rewrite E. rewrite (IH (before ++ [x])%list).
      * now rewrite <- List.app_assoc.
      * intros k. rewrite elem_of_union, elem_of_singleton.
        rewrite List.map_app, in_app_iff, <- Hseen. cbn.
        split; [intros [-> | Hk]; tauto | intros [Hk | [<- | []]]; tauto].
Qed.

Lemma uniqueContent_spec (shuffledContent : list Media.item) :
  uniqueContent shuffledContent
  = spec_firstOccurrences contentKey [] shuffledContent.
Proof.
  unfold uniqueContent. rewrite (uniqueContent_from [] shuffledContent ∅ []).
  - reflexivity.
  - intros k. cbn. split; [|tauto]. intros Hk. now apply not_elem_of_empty in Hk.
Qed.

(** The key of [getWatchAtHomeContent] identifies kind and id. *)

Lemma key_parts_inj (kind kind' rest rest' : string) :
  ~ In "-"%char (list_ascii_of_string kind) ->
  ~ In "-"%char (list_ascii_of_string kind') ->
  kind ++ String "-" rest = kind' ++ String "-" rest' ->
  kind = kind' /\ rest = rest'.
Proof.
  revert kind'.
  induction kind as [|c kind IH]; intros [|c' kind'] Hk Hk' E;
    cbn [String.append list_ascii_of_string In] in *.
  - injection E as ->. auto.
  - injection E as <- _. destruct Hk'. now left.
  - injection E as -> _. destruct Hk. now left.
  - injection E as -> E.
    destruct (IH kind') as [-> ->]; [tauto | tauto | exact E | auto].
Qed.

Lemma ofZ_inj (z z' : Z) : JsString.ofZ z = JsString.ofZ z' -> z = z'.
Proof.
  unfold JsString.ofZ. intros E.
  assert (Hparse : forall n : Z,
            NilZero.int_of_string (NilZero.string_of_int (Z.to_int n))
            = Some (Z.to_int n)).
  { intros n. apply NilZero.isi; destruct n as [|q|q]; cbn; try discriminate;
      intros [= Hnil]; now apply Unsigned.to_uint_nonnil in Hnil. }
  apply DecimalZ.to_int_inj.
  pose proof (Hparse z) as Hz. rewrite E, Hparse in Hz. now injection Hz.
Qed.

Lemma contentKey_identity (a b : Media.item) :
  plainKind a -> plainKind b ->
  contentKey a = contentKey b <-> spec_identity a = spec_identity b.
Proof.
  intros Ha Hb. unfold contentKey, spec_identity. split.
  - intros E. apply key_parts_inj in E as [-> E]; [|assumption ..].
    now apply ofZ_inj in E as ->.
  - now intros [= -> ->].
Qed.

Section SameKeys.

Context {A K K' : Type} `{EqDecision K} `{EqDecision K'}.
Variable key : A -> K.
Variable key' : A -> K'.

Lemma firstOccurrences_ext (before items : list A) :
  (forall a b, In a (before ++ items) -> In b (before ++ items) ->
     key a = key b <-> key' a = key' b) ->
  spec_firstOccurrences key before items = spec_firstOccurrences key' before items.
Proof.
  revert before. induction items as [|x rest IH]; intros before Hkeys;
    [reflexivity|].
  cbn [spec_firstOccurrences].
  assert (Hseen : existsb (fun y => bool_decide (key y = key x)) before
                  = existsb (fun y => bool_decide (key' y = key' x)) before).
  { apply eq_true_iff_eq. rewrite !seen_before, !in_map_iff.
    split; intros (y & E & Hy); exists y; (split; [|exact Hy]);
      apply Hkeys; try assumption; apply in_or_app; auto using in_eq. }
  rewrite Hseen, (IH (before ++ [x])%list).
  - reflexivity.
  - intros a b Ha Hb. rewrite <- List.app_assoc in Ha, Hb. now apply Hkeys.
Qed.

End SameKeys.

Lemma uniqueContent_identity (shuffledContent : list Media.item) :
  Forall plainKind shuffledContent ->
  uniqueContent shuffledContent
  = spec_firstOccurrences spec_identity [] shuffledContent.
Proof.
  intros Hplain. rewrite uniqueContent_spec. apply firstOccurrences_ext.
  rewrite Forall_forall in Hplain.
  intros a b Ha Hb. apply contentKey_identity; now apply Hplain.
Qed.

(** C6.  Both deduplications, by [id] in [getUpcomingMovies] and by the
    key [media_type-id] in [getWatchAtHomeContent], retain an item exactly
    when no earlier item of the input has its key, in input order; so no
    two retained items share a key, the output is a subsequence of the
    input, an input without duplicate keys is returned unchanged, and the
    empty list gives the empty list.  Two items whose kinds have no hyphen
    have the same key [media_type-id] exactly when they have the same kind
    and the same id; so for such items the second deduplication retains
    the first occurrence of each identity (kind, id), no two retained
    items share an identity, and items of distinct identities are all
    retained. *)
Theorem C6_deduplication (items : list Media.item) :
  (uniqueMovies items = spec_firstOccurrences Media.id [] items
   /\ NoDup (List.map Media.id (uniqueMovies items))
   /\ sublist (uniqueMovies items) items
   /\ (NoDup (List.map Media.id items) -> uniqueMovies items = items))
  /\ (uniqueContent items = spec_firstOccurrences contentKey [] items
      /\ NoDup (List.map contentKey (uniqueContent items))
      /\ sublist (uniqueContent items) items
      /\ (NoDup (List.map contentKey items) -> uniqueContent items = items))
  /\ (forall a b : Media.item,
        plainKind a -> plainKind b ->
        contentKey a = contentKey b
        <-> interpolate (Media.media_type a) = interpolate (Media.media_type b)
            /\ Media.id a = Media.id b)
  /\ (Forall plainKind items ->
      uniqueContent items = spec_firstOccurrences spec_identity [] items
      /\ NoDup (List.map spec_identity (uniqueContent items))
      /\ (NoDup (List.map spec_identity items) -> uniqueContent items = items))
  /\ uniqueMovies [] = []
  /\ uniqueContent [] = [].
Proof.
  split; [|split; [|split; [|split; [|split; reflexivity]]]].
  - rewrite uniqueMovies_spec. repeat split.
    + apply firstOccurrences_NoDup.
    + apply firstOccurrences_sublist.
    + intros Hnd. now apply firstOccurrences_id.
  - rewrite uniqueContent_spec. repeat split.
    + apply firstOccurrences_NoDup.
    + apply firstOccurrences_sublist.
    + intros Hnd. now apply firstOccurrences_id.
  - intros a b Ha Hb. rewrite (contentKey_identity a b Ha Hb).
    unfold spec_identity. split; [now intros [= -> ->] | now intros [-> ->]].
  - intros Hplain. rewrite (uniqueContent_identity items Hplain). repeat split.
    + apply firstOccurrences_NoDup.
    + intros Hnd. now apply firstOccurrences_id.
Qed.

Lemma C6_deduplication_witness :
  uniqueContent
    (addType [exampleMovie; exampleShow] "movie"
     ++ addType [exampleMovie] "tv"
     ++ addType [exampleShow; exampleMovie] "movie")%list
  = (addType [exampleMovie; exampleShow] "movie" ++ addType [exampleMovie] "tv")%list.
Proof.
  destruct (C6_deduplication
              (addType [exampleMovie; exampleShow] "movie"
               ++ addType [exampleMovie] "tv"
               ++ addType [exampleShow; exampleMovie] "movie")%list)
    as (_ & _ & _ & H & _).
  destruct H as (H & _).
  - repeat constructor; intros Hdash; cbn in Hdash; intuition discriminate.
  - rewrite H. reflexivity.
Defined.

(** ** C7: the genre filter *)

(** The filter of [getWatchAtHomeContent] retains exactly the items that
    carry no excluded genre, among them the items without genres. *)
Lemma tvShows_retains (tvShowsDetailed : list Media.item) (item : Media.item) :
  In item (tvShows tvShowsDetailed)
  <-> In item tvShowsDetailed
      /\ (forall genres, Media.genres item = Some genres ->
            hasExcludedGenre genres = false).
Proof.
  unfold tvShows. rewrite filter_In.
  destruct (Media.genres item) as [genres|]; cbn.
  - rewrite negb_true_iff. split; intros [Hin H]; split; try assumption.
    + now intros ? [= <-].
    + now apply H.
  - split; intros [Hin _]; split; try assumption; [discriminate | reflexivity].
Qed.

(** The filter of [getPopularTVShows] agrees with it on items that have
    genres, and drops every item that has none. *)
Lemma filteredShows_retains (detailedShows : list Media.item) (show : Media.item) :
  In show (filteredShows detailedShows)
  <-> In show detailedShows
      /\ exists genres, Media.genres show = Some genres
                        /\ hasExcludedGenre genres = false.
Proof.
  unfold filteredShows. rewrite filter_In.
  destruct (Media.genres show) as [genres|]; cbn.
  - rewrite negb_true_iff. split; intros [Hin H]; split; try assumption.
    + eauto.
    + destruct H as (g & [= <-] & H). exact H.
  - split; intros [Hin H]; [discriminate|]. now destruct H as (g & ? & _).
Qed.

(** C7, at the failing input.  A show without genre information matches
    no exclusion predicate; [getWatchAtHomeContent] retains it, but
    [getPopularTVShows] removes it.  On a show with an excluded genre both
    filters agree and remove it. *)
Theorem C7_filteredShows_drops_show_without_genres :
  Media.genres exampleShow = None
  /\ tvShows [exampleShow] = [exampleShow]
  /\ filteredShows [exampleShow] = []
  /\ (forall show genres,
        Media.genres show = Some genres ->
        filteredShows [show] = tvShows [show]
        /\ tvShows [show] = if hasExcludedGenre genres then [] else [show])
  /\ (forall show, Media.genres show = None ->
        filteredShows [show] = [] /\ tvShows [show] = [show]).
Proof.
  split; [reflexivity|]. split; [reflexivity|]. split; [reflexivity|]. split.
  - intros show genres Hg. unfold filteredShows, tvShows. cbn. rewrite Hg.
    now destruct (hasExcludedGenre genres).
  - intros show Hg. unfold filteredShows, tvShows. cbn. now rewrite Hg.
Qed.

Lemma C7_filteredShows_drops_show_without_genres_witness :
  filteredShows [exampleShow] = [] /\ tvShows [exampleShow] = [exampleShow].
Proof.
  destruct C7_filteredShows_drops_show_without_genres as (_ & _ & _ & _ & H).
  apply (H exampleShow). reflexivity.
Defined.

(** ** C4: the secondary search *)

Lemma spec_trailerScore_terms (video : YouTube.video) (mediaTitle : string)
    (year : yearval) :
  spec_trailerScore video mediaTitle year
  = let title := JsString.toLowerCase (YouTube.title video) in
    let description := JsString.toLowerCase (YouTube.description video) in
    let channelName := JsString.toLowerCase (YouTube.channelTitle video) in
    (if JsString.includes title (JsString.toLowerCase mediaTitle) then 10 else 0)
    + (if (yearTruthy year
           && (JsString.includes title (yearToString year)
               || JsString.includes description (yearToString year)))%bool
       then 5 else 0)
    + (if JsString.includes title "official" then 8 else 0)
    + (if JsString.includes title "trailer" then 6 else 0)
    + (if existsb (fun channel => JsString.includes channelName channel)
            officialChannels
       then 10 else 0)
    - (if JsString.includes title "reaction" then 10 else 0)
    - (if JsString.includes title "review" then 10 else 0)
    - (if JsString.includes title "fan made" then 15 else 0).
Proof.
  unfold spec_trailerScore, officialChannels. cbn [existsb].
  rewrite orb_false_r, <- !orb_assoc.
  destruct year as [| |[|y|y]]; reflexivity.
Qed.

Lemma calculateTrailerScore_spec (video : YouTube.video) (mediaTitle : string)
    (year : yearval) :
  calculateTrailerScore video (Some mediaTitle) year
  = Ok (spec_trailerScore video mediaTitle year).
Proof.
  rewrite spec_trailerScore_terms. unfold calculateTrailerScore.
  cbn [String_toLowerCase mbind result_bind]. f_equal. cbv zeta.
  repeat match goal with
         | |- context [if ?b then _ else _] => destruct b
         end; lia.
Qed.

Lemma Array_map_scores (videos : list YouTube.video) (mediaTitle : string)
    (year : yearval) :
  Array_map
    (fun video =>
       score ← calculateTrailerScore video (Some mediaTitle) year;
       Ok (video, score))
    videos
  = Ok (List.map (fun video => (video, spec_trailerScore video mediaTitle year))
          videos).
Proof.
  induction videos as [|v vs IH]; cbn [Array_map List.map]; [reflexivity|].
  rewrite calculateTrailerScore_spec. cbn [mbind result_bind].
  now rewrite IH.
Qed.

Lemma sort_by_trailer_score (scored : list (YouTube.video * Z)) :
  exists sorted,
    Array_sort compareTrailerScore scored = Ok sorted
    /\ Permutation scored sorted
    /\ StronglySorted (fun a b => snd b <= snd a) sorted.
Proof.
  destruct (Array_sort_returns compareTrailerScore scored) as [sorted Hsort].
  { intros x y _ _. unfold compareTrailerScore. eauto. }
  exists sorted. split; [exact Hsort|]. split.
  { now apply Array_sort_Permutation in Hsort. }
  apply Sorted_StronglySorted.
  { intros a b c Hab Hbc. lia. }
  eapply Sorted_weaken; [|eapply Array_sort_Sorted; [|exact Hsort]].
  - intros a b _ _ H. cbn beta in H. unfold compareTrailerScore in H.
    injection H as H. apply Z.ltb_ge in H. lia.
  - intros a b H. unfold compareTrailerScore in *. injection H as H.
    apply Z.ltb_lt in H. f_equal. apply Z.ltb_ge. lia.
Qed.

Lemma findBestYouTubeTrailer_best (videos : list YouTube.video)
    (mediaTitle : string) (year : yearval) :
  exists found,
    findBestYouTubeTrailer (Some videos) (Some mediaTitle) year = Ok found
    /\ match found with
       | Some best =>
           In best videos
           /\ 0 < spec_trailerScore best mediaTitle year
           /\ forall video, In video videos ->
                spec_trailerScore video mediaTitle year
                <= spec_trailerScore best mediaTitle year
       | None =>
           forall video, In video videos ->
             spec_trailerScore video mediaTitle year <= 0
       end.
Proof.
  destruct videos as [|v0 vs]; [exists None; split; [reflexivity | intros ? []]|].
  set (videos := v0 :: vs).
  unfold findBestYouTubeTrailer. fold videos.
  rewrite Array_map_scores. cbn [mbind result_bind].
  set (scored := List.map _ videos).
  destruct (sort_by_trailer_score (List.filter (fun item => 0 <? snd item) scored))
    as (sorted & -> & Hperm & Hsorted).
  cbn [mbind result_bind].
  assert (Hscored : forall video,
            In video videos -> 0 < spec_trailerScore video mediaTitle year ->
            In (video, spec_trailerScore video mediaTitle year) sorted).
  { intros video Hin Hpos. eapply Permutation_in; [exact Hperm|].
    apply filter_In. split.
    - apply in_map_iff. eauto.
    - now apply Z.ltb_lt. }
  destruct sorted as [|best rest]; eexists; (split; [reflexivity|]).
  - intros video Hin.
    destruct (Z_lt_le_dec 0 (spec_trailerScore video mediaTitle year)) as [Hpos | Hle];
      [|exact Hle].
    destruct (Hscored video Hin Hpos).
  - assert (Hbest : In best (List.filter (fun item => 0 <? snd item) scored)).
    { eapply Permutation_in; [symmetry; exact Hperm | now left]. }
    apply filter_In in Hbest as [Hbest Hpos]. apply Z.ltb_lt in Hpos.
    apply in_map_iff in Hbest as (video0 & <- & Hin0). cbn [fst snd] in *.
    split; [exact Hin0|]. split; [exact Hpos|].
    intros video Hin.
    destruct (Z_lt_le_dec 0 (spec_trailerScore video mediaTitle year)) as [Hv | Hle];
      [|lia].
    destruct (Hscored video Hin Hv) as [E | Hrest].
    + injection E as _ E. lia.
    + apply StronglySorted_inv in Hsorted as [_ Hall].
      rewrite Forall_forall in Hall. apply (Hall _ Hrest).
Qed.

Section QueryLoop.

Variable youtubeApi_search : string -> result (option (list YouTube.video)).
Variable title : option string.
Variable year : yearval.

Lemma tryQueries_exhausted (queries : list string) :
  Forall (fun query => searchOnce youtubeApi_search title year query = Ok None)
    queries ->
  tryQueries youtubeApi_search title year queries = (queries, Ok None).
Proof.
  intros H. induction H as [|query rest Hq _ IH]; cbn [tryQueries];
    [reflexivity|].
  now rewrite Hq, IH.
Qed.

Lemma tryQueries_stops (sent rest : list string) (query : string) :
  Forall (fun query => searchOnce youtubeApi_search title year query = Ok None)
    sent ->
  searchOnce youtubeApi_search title year query <> Ok None ->
  tryQueries youtubeApi_search title year (sent ++ query :: rest)
  = ((sent ++ [query])%list, searchOnce youtubeApi_search title year query).
Proof.
  intros H Hstop. induction H as [|q sent Hq _ IH]; cbn [tryQueries app].
  - destruct (searchOnce youtubeApi_search title year query) as [[best|]|e];
      [reflexivity | contradiction | reflexivity].
  - now rewrite Hq, IH.
Qed.

End QueryLoop.



(** ** C5: trailer resolution never throws *)

(** C5.  Whatever the provider does, the secondary search and the whole
    resolution return normally.  A provider exception is turned into "no
    result"; and when the primary lookup finds nothing and either the key
    is not set, or the provider fails, or no query yields a trailer, the
    trailer is null. *)
Theorem C5_resolution_never_throws (YOUTUBE_API_KEY : option string)
    (Date_getFullYear : string -> option Z)
    (youtubeApi_search : string -> result (option (list YouTube.video)))
    (videos : option (list Tmdb.video)) (title releaseDate : option string) :
  let year := yearOf Date_getFullYear releaseDate in
  let queries := trailerQueries title year in
  (exists sent found,
     searchYouTubeTrailer YOUTUBE_API_KEY Date_getFullYear youtubeApi_search
       title releaseDate = (sent, Ok found))
  /\ (exists sent trailer,
        resolveTrailer YOUTUBE_API_KEY Date_getFullYear youtubeApi_search
          videos title releaseDate = (sent, Ok trailer))
  /\ (forall sent query rest e,
        truthyStr YOUTUBE_API_KEY = true ->
        queries = (sent ++ query :: rest)%list ->
        Forall (fun q => searchOnce youtubeApi_search title year q = Ok None) sent ->
        searchOnce youtubeApi_search title year query = Throw e ->
        searchYouTubeTrailer YOUTUBE_API_KEY Date_getFullYear youtubeApi_search
          title releaseDate = ((sent ++ [query])%list, Ok None))
  /\ (getValidTMDBTrailer (Some (default [] videos)) = None ->
      truthyStr YOUTUBE_API_KEY = false ->
      resolveTrailer YOUTUBE_API_KEY Date_getFullYear youtubeApi_search
        videos title releaseDate = ([], Ok None))
  /\ (getValidTMDBTrailer (Some (default [] videos)) = None ->
      truthyStr YOUTUBE_API_KEY = true ->
      Forall (fun q => searchOnce youtubeApi_search title year q = Ok None) queries ->
      resolveTrailer YOUTUBE_API_KEY Date_getFullYear youtubeApi_search
        videos title releaseDate = (queries, Ok None))
  /\ (forall sent found,
        getValidTMDBTrailer (Some (default [] videos)) = None ->
        searchYouTubeTrailer YOUTUBE_API_KEY Date_getFullYear youtubeApi_search
          title releaseDate = (sent, Ok found) ->
        found = None ->
        resolveTrailer YOUTUBE_API_KEY Date_getFullYear youtubeApi_search
          videos title releaseDate = (sent, Ok None)).
Proof.
  intros year queries.
  assert (Hsearch : exists sent found,
            searchYouTubeTrailer YOUTUBE_API_KEY Date_getFullYear youtubeApi_search
              title releaseDate = (sent, Ok found)).
  { unfold searchYouTubeTrailer.
    destruct (negb (truthyStr YOUTUBE_API_KEY)); [eauto|].
    destruct (tryQueries _ _ _ _) as [sent [found|e]]; cbn [try_catch]; eauto. }
  split; [exact Hsearch|]. split; [|split; [|split; [|split]]].
  - unfold resolveTrailer.
    destruct (getValidTMDBTrailer _) as [tmdbTrailer|]; [eauto|].
    destruct Hsearch as (sent & found & ->). cbn [mbind result_bind].
    destruct found; eauto.
  - intros sent query rest e Hkey Hqueries Hsent Hthrow.
    unfold searchYouTubeTrailer. rewrite Hkey. cbn [negb].
    fold year. fold queries. rewrite Hqueries.
    rewrite tryQueries_stops; [|exact Hsent|].
    + now rewrite Hthrow.
    + rewrite Hthrow. discriminate.
  - intros Hprimary Hkey. unfold resolveTrailer, searchYouTubeTrailer.
    now rewrite Hprimary, Hkey.
  - intros Hprimary Hkey Hnone. unfold resolveTrailer, searchYouTubeTrailer.
    rewrite Hprimary, Hkey. cbn [negb]. fold year. fold queries.
    now rewrite tryQueries_exhausted.
  - intros sent found Hprimary Hs ->. unfold resolveTrailer.
    now rewrite Hprimary, Hs.
Qed.

Lemma C5_resolution_never_throws_witness :
  searchYouTubeTrailer (Some "key") exampleYear failingProvider
    (Some "Movie Title") (Some "2009-12-18")
  = (["Movie Title 2009 official trailer"], Ok None)
  /\ resolveTrailer None exampleYear failingProvider
       None (Some "Movie Title") (Some "2009-12-18")
     = ([], Ok None).
Proof.
  split.
  - destruct (C5_resolution_never_throws (Some "key") exampleYear failingProvider
                None (Some "Movie Title") (Some "2009-12-18"))
      as (_ & _ & H & _).
    apply (H [] "Movie Title 2009 official trailer"
             ["Movie Title 2009 trailer"; "Movie Title official trailer";
              "Movie Title trailer"] ProviderError).
    + reflexivity.
    + reflexivity.
    + constructor.
    + reflexivity.
  - destruct (C5_resolution_never_throws None exampleYear failingProvider
                None (Some "Movie Title") (Some "2009-12-18"))
      as (_ & _ & _ & H & _).
    apply H; reflexivity.
Defined.

(** * Further properties of the code *)

(** ** Primary lookup: what it can return *)

Lemma tryPriorities_found (priorities : list (Tmdb.video -> bool))
    (youtubeVideos : list Tmdb.video) (found : Tmdb.video) :
  tryPriorities priorities youtubeVideos = Some found ->
  In found youtubeVideos
  /\ exists priorityCheck, In priorityCheck priorities /\ priorityCheck found = true.
Proof.
  induction priorities as [|p rest IH]; cbn [tryPriorities]; [discriminate|].
  destruct (List.find p youtubeVideos) as [v|] eqn:Hfind.
  - intros [= <-]. apply find_some in Hfind as [Hin Hp].
    split; [exact Hin|]. exists p. split; [now left | exact Hp].
  - intros H. destruct (IH H) as (Hin & q & Hq & Hqv).
    split; [exact Hin|]. exists q. split; [now right | exact Hqv].
Qed.

Lemma youtube_filter_In (videos : list Tmdb.video) (video : Tmdb.video) :
  In video (List.filter (fun video => String.eqb (Tmdb.site video) "YouTube") videos)
  <-> In video videos /\ Tmdb.site video = "YouTube".
Proof. rewrite filter_In. now rewrite String.eqb_eq. Qed.

(** [getValidTMDBTrailer] only ever returns one of the given videos that
    is hosted on YouTube, and it returns null exactly when no given video
    is hosted there. *)
Theorem getValidTMDBTrailer_youtube_only (videos : list Tmdb.video) :
  (forall found,
     getValidTMDBTrailer (Some videos) = Some found ->
     In found videos /\ Tmdb.site found = "YouTube")
  /\ (getValidTMDBTrailer (Some videos) = None
      <-> Forall (fun video => Tmdb.site video <> "YouTube") videos).
Proof.
  rewrite getValidTMDBTrailer_unfold. cbv zeta.
  set (youtubeVideos := List.filter _ videos).
  split.
  - intros found.
    destruct (tryPriorities trailerPriorities youtubeVideos) as [v|] eqn:Htry.
    + intros [= <-]. apply tryPriorities_found in Htry as [Hin _].
      now apply youtube_filter_In.
    + destruct youtubeVideos as [|v rest] eqn:Hyt; [discriminate|].
      intros [= <-]. apply youtube_filter_In.
      fold youtubeVideos in Hyt |- *. rewrite Hyt. now left.
  - rewrite Forall_forall. split.
    + intros Hnone video Hin Hsite.
      assert (Hy : In video youtubeVideos) by now apply youtube_filter_In.
      destruct (tryPriorities trailerPriorities youtubeVideos); [discriminate|].
      destruct youtubeVideos; [destruct Hy | discriminate].
    + intros Hall.
      assert (Hempty : youtubeVideos = []).
      { destruct youtubeVideos as [|v rest] eqn:Hyt; [reflexivity|].
        assert (Hv : In v youtubeVideos) by (rewrite Hyt; now left).
        apply youtube_filter_In in Hv as [Hin Hsite].
        destruct (Hall v Hin Hsite). }
      now rewrite Hempty.
Qed.

Lemma getValidTMDBTrailer_youtube_only_witness :
  In officialTrailer [teaser1; officialTrailer]
  /\ Tmdb.site officialTrailer = "YouTube".
Proof.
  destruct (getValidTMDBTrailer_youtube_only [teaser1; officialTrailer]) as (H & _).
  apply H. reflexivity.
Defined.

Lemma priority_types (priorityCheck : Tmdb.video -> bool) (video : Tmdb.video) :
  In priorityCheck trailerPriorities -> priorityCheck video = true ->
  Tmdb.type video = "Trailer" \/ Tmdb.type video = "Teaser".
Proof.
  unfold trailerPriorities. cbn [In].
  intros [<- | [<- | [<- | [<- | [<- | []]]]]] H;
    try apply andb_true_iff in H as [H _]; apply String.eqb_eq in H; auto.
Qed.

Lemma tryPriorities_some (first rest : list (Tmdb.video -> bool))
    (youtubeVideos : list Tmdb.video) (priorityCheck : Tmdb.video -> bool)
    (video : Tmdb.video) :
  In priorityCheck first -> In video youtubeVideos -> priorityCheck video = true ->
  exists found matched,
    tryPriorities (first ++ rest) youtubeVideos = Some found
    /\ In matched first /\ matched found = true /\ In found youtubeVideos.
Proof.
  intros Hp Hv Hpv. induction first as [|p0 first IH]; [destruct Hp|].
  cbn [app tryPriorities].
  destruct (List.find p0 youtubeVideos) as [v|] eqn:Hfind.
  - apply find_some in Hfind as [Hin H0]. exists v, p0.
    split; [reflexivity|]. split; [now left|]. split; assumption.
  - destruct Hp as [-> | Hp].
    + apply (find_none _ _ Hfind) in Hv. congruence.
    + destruct (IH Hp) as (found & matched & Htry & Hm & Hmf & Hin).
      exists found, matched. split; [exact Htry|]. split; [now right|].
      split; assumption.
Qed.

(** A Trailer is preferred to everything else and a Teaser to everything
    but a Trailer: when a YouTube video of type Trailer is present the
    lookup returns a Trailer, and when none is but a Teaser is, it returns
    a Teaser. *)
Theorem getValidTMDBTrailer_prefers_trailer (videos : list Tmdb.video)
    (video : Tmdb.video) :
  In video videos -> Tmdb.site video = "YouTube" ->
  (Tmdb.type video = "Trailer" ->
   exists found,
     getValidTMDBTrailer (Some videos) = Some found
     /\ Tmdb.type found = "Trailer")
  /\ (Tmdb.type video = "Teaser" ->
      (forall other, In other videos -> Tmdb.site other = "YouTube" ->
         Tmdb.type other <> "Trailer") ->
      exists found,
        getValidTMDBTrailer (Some videos) = Some found
        /\ Tmdb.type found = "Teaser").
Proof.
  intros Hin Hsite. rewrite getValidTMDBTrailer_unfold. cbv zeta.
  set (youtubeVideos := List.filter _ videos).
  assert (Hy : In video youtubeVideos) by now apply youtube_filter_In.
  split.
  - intros Htype.
    destruct (tryPriorities_some (firstn 3 trailerPriorities)
                (skipn 3 trailerPriorities) youtubeVideos
                (fun video => String.eqb (Tmdb.type video) "Trailer") video)
      as (found & matched & Htry & Hm & Hmf & _).
    + cbn. tauto.
    + exact Hy.
    + cbn beta. rewrite Htype. reflexivity.
    + rewrite firstn_skipn in Htry. rewrite Htry.
      exists found. split; [reflexivity|].
      cbn in Hm. destruct Hm as [<- | [<- | [<- | []]]];
        try apply andb_true_iff in Hmf as [Hmf _]; now apply String.eqb_eq.
  - intros Htype Hnone.
    destruct (tryPriorities_some trailerPriorities [] youtubeVideos
                (fun video => String.eqb (Tmdb.type video) "Teaser") video)
      as (found & matched & Htry & Hm & Hmf & Hf).
    + cbn. tauto.
    + exact Hy.
    + cbn beta. rewrite Htype. reflexivity.
    + rewrite List.app_nil_r in Htry. rewrite Htry.
      exists found. split; [reflexivity|].
      destruct (priority_types matched found Hm Hmf) as [Ht | Ht]; [|exact Ht].
      apply youtube_filter_In in Hf as [Hf Hs]. destruct (Hnone found Hf Hs Ht).
Qed.

Lemma getValidTMDBTrailer_prefers_trailer_witness :
  exists found,
    getValidTMDBTrailer (Some [teaser1; officialTrailer]) = Some found
    /\ Tmdb.type found = "Trailer".
Proof.
  destruct (getValidTMDBTrailer_prefers_trailer [teaser1; officialTrailer]
              officialTrailer) as (H & _).
  - right. now left.
  - reflexivity.
  - apply H. reflexivity.
Defined.

(** When the provider lists a video hosted on YouTube, the resolution
    takes its trailer from that list, tags it "tmdb", builds the watch URL
    from its key, and sends no query to the search provider, whatever the
    state of the key and of that provider. *)
Theorem resolveTrailer_primary_first (YOUTUBE_API_KEY : option string)
    (Date_getFullYear : string -> option Z)
    (youtubeApi_search : string -> result (option (list YouTube.video)))
    (videos : list Tmdb.video) (video : Tmdb.video)
    (title releaseDate : option string) :
  In video videos -> Tmdb.site video = "YouTube" ->
  exists found,
    getValidTMDBTrailer (Some videos) = Some found
    /\ resolveTrailer YOUTUBE_API_KEY Date_getFullYear youtubeApi_search
         (Some videos) title releaseDate
       = ([], Ok (Some {| Trailer.source := "tmdb";
                          Trailer.key := Tmdb.key found;
                          Trailer.name := Tmdb.name found;
                          Trailer.site := "YouTube";
                          Trailer.url := "https://www.youtube.com/watch?v="
                                         ++ Tmdb.key found |})).
Proof.
  intros Hin Hsite.
  destruct (getValidTMDBTrailer (Some videos)) as [found|] eqn:Hget.
  - exists found. split; [reflexivity|].
    unfold resolveTrailer. change (default [] (Some videos)) with videos.
    rewrite Hget.
    assert (Hs : Tmdb.site found = "YouTube").
    { rewrite getValidTMDBTrailer_unfold in Hget. cbv zeta in Hget.
      destruct (tryPriorities trailerPriorities _) as [v|] eqn:Htry.
      - injection Hget as <-. apply tryPriorities_found in Htry as [Hf _].
        now apply youtube_filter_In in Hf.
      - destruct (List.filter _ videos) as [|v rest] eqn:Hyt; [discriminate|].
        injection Hget as <-.
        assert (Hv : In v (List.filter
                  (fun video => String.eqb (Tmdb.site video) "YouTube") videos)).
        { rewrite Hyt. now left. }
        now apply youtube_filter_In in Hv. }
    now rewrite Hs.
  - exfalso. rewrite getValidTMDBTrailer_unfold in Hget. cbv zeta in Hget.
    assert (Hy : In video (List.filter
              (fun video => String.eqb (Tmdb.site video) "YouTube") videos))
      by now apply youtube_filter_In.
    destruct (tryPriorities trailerPriorities _); [discriminate|].
    destruct (List.filter _ videos); [destruct Hy | discriminate].
Qed.

Lemma resolveTrailer_primary_first_witness :
  exists found,
    getValidTMDBTrailer (Some [teaser1; officialTrailer]) = Some found
    /\ resolveTrailer None exampleYear failingProvider
         (Some [teaser1; officialTrailer]) None None
       = ([], Ok (Some {| Trailer.source := "tmdb";
                          Trailer.key := Tmdb.key found;
                          Trailer.name := Tmdb.name found;
                          Trailer.site := "YouTube";
                          Trailer.url := "https://www.youtube.com/watch?v="
                                         ++ Tmdb.key found |})).
Proof.
  apply (resolveTrailer_primary_first None exampleYear failingProvider
           [teaser1; officialTrailer] teaser1 None None).
  - now left.
  - reflexivity.
Defined.

(** ** Search: failures *)

Section SortThrows.

Context {A : Type}.
Variable after : A -> A -> result bool.
Variable bad : A -> Prop.
Hypothesis after_throws :
  forall x y, bad x \/ bad y -> exists e, after x y = Throw e.

Lemma Array_sort_throws (array : list A) :
  (2 <= List.length array)%nat ->
  (exists x, In x array /\ bad x) ->
  exists e, Array_sort after array = Throw e.
Proof.
  induction array as [|x rest IH]; cbn [List.length]; [lia|].
  intros Hlen (z & Hz & Hbad). cbn [Array_sort].
  destruct (Array_sort after rest) as [sorted|e] eqn:Hsort;
    cbn [mbind result_bind]; [|eauto].
  assert (Hperm : Permutation rest sorted) by now apply Array_sort_Permutation in Hsort.
  destruct sorted as [|y sorted'].
  { apply Permutation_sym, Permutation_nil in Hperm. subst rest.
    cbn in Hlen. lia. }
  cbn [Array_insert].
  assert (Hxy : exists e, after x y = Throw e).
  { destruct Hz as [<- | Hz]; [apply after_throws; now left|].
    destruct rest as [|r1 [|r2 rest']].
    - destruct Hz.
    - cbn in Hsort. injection Hsort as <- <-.
      destruct Hz as [<- | []]. apply after_throws. now right.
    - destruct IH as [e He]; [cbn; lia | eauto |]. congruence. }
  destruct Hxy as [e ->]. cbn [mbind result_bind]. eauto.
Qed.

End SortThrows.

Lemma smartScore_untitled (query : option string) (a : Media.item) :
  Media.title a = None -> smartScore query a = Throw TypeError.
Proof. intros H. unfold smartScore, calculateSmartScore. now rewrite H. Qed.

Lemma compareSmartScore_untitled (query : option string) (a b : Media.item) :
  Media.title a = None \/ Media.title b = None ->
  exists e, compareSmartScore query a b = Throw e.
Proof.
  intros [H | H]; unfold compareSmartScore.
  - rewrite (smartScore_untitled query a H). cbn. eauto.
  - rewrite (smartScore_untitled query b H).
    destruct (smartScore query a); cbn; eauto.
Qed.

(** The search never lets an error out other than "Failed to search
    content".  It fails so when a provider call fails, and also when two
    or more results come back and one of them has no title (a series
    without a [name], say), because scoring it throws inside the sort; a
    single result is returned unscored, title or not. *)
Theorem searchMoviesAndTV_failures (query : option string)
    (movies tv : list Media.item) :
  let allResults :=
    (List.map processMovie movies ++ List.map processShow tv)%list in
  ((2 <= List.length allResults)%nat ->
   (exists a, In a allResults /\ Media.title a = None) ->
   searchMoviesAndTV query (Ok movies) (Ok tv)
   = Throw (Error "Failed to search content"))
  /\ (forall a, allResults = [a] ->
        searchMoviesAndTV query (Ok movies) (Ok tv) = Ok [a])
  /\ (forall e tvResponse,
        searchMoviesAndTV query (Throw e) tvResponse
        = Throw (Error "Failed to search content"))
  /\ (forall e,
        searchMoviesAndTV query (Ok movies) (Throw e)
        = Throw (Error "Failed to search content"))
  /\ (forall moviesResponse tvResponse,
        (exists results,
           searchMoviesAndTV query moviesResponse tvResponse = Ok results)
        \/ searchMoviesAndTV query moviesResponse tvResponse
           = Throw (Error "Failed to search content")).
Proof.
  intros allResults. split; [|split; [|split; [|split]]].
  - intros Hlen Hbad. unfold searchMoviesAndTV. cbn [mbind result_bind].
    fold allResults. unfold rankResults.
    destruct (Array_sort_throws (compareSmartScore query)
                (fun a => Media.title a = None)
                (compareSmartScore_untitled query) allResults Hlen Hbad)
      as [e ->].
    reflexivity.
  - intros a Hall. unfold searchMoviesAndTV. cbn [mbind result_bind].
    fold allResults. rewrite Hall. reflexivity.
  - reflexivity.
  - reflexivity.
  - intros moviesResponse tvResponse. unfold searchMoviesAndTV.
    destruct (_ ≫= _) as [results|e]; cbn [try_catch]; eauto.
Qed.

Lemma searchMoviesAndTV_failures_witness :
  searchMoviesAndTV (Some "avatar") (Ok [exampleMovie]) (Ok [exampleMovie])
  = Throw (Error "Failed to search content").
Proof.
  destruct (searchMoviesAndTV_failures (Some "avatar") [exampleMovie] [exampleMovie])
    as (H & _).
  apply H.
  - cbn. lia.
  - exists (processShow exampleMovie). split; [right; now left | reflexivity].
Defined.

(** ** Secondary search: what can be selected *)

(** The score of a video lies between -35 and 39, and a video is selected
    only if it shows at least one positive sign: its title contains the
    media title, "official" or "trailer", the release year appears in its
    title or description, or its channel is one of the official ones. *)
Theorem selected_trailer_has_positive_sign (videos : list YouTube.video)
    (mediaTitle : string) (year : yearval) :
  (forall video, -35 <= spec_trailerScore video mediaTitle year <= 39)
  /\ forall best,
       findBestYouTubeTrailer (Some videos) (Some mediaTitle) year = Ok (Some best) ->
       In best videos
       /\ let title := JsString.toLowerCase (YouTube.title best) in
          JsString.includes title (JsString.toLowerCase mediaTitle) = true
          \/ (yearTruthy year = true
              /\ (JsString.includes title (yearToString year) = true
                  \/ JsString.includes
                       (JsString.toLowerCase (YouTube.description best))
                       (yearToString year) = true))
          \/ JsString.includes title "official" = true
          \/ JsString.includes title "trailer" = true
          \/ existsb
               (fun channel =>
                  JsString.includes
                    (JsString.toLowerCase (YouTube.channelTitle best)) channel)
               officialChannels = true.
Proof.
  split.
  - intros video. rewrite spec_trailerScore_terms. cbv zeta.
    repeat match goal with
           | |- context [if ?b then _ else _] => destruct b
           end; lia.
  - intros best Hbest.
    destruct (findBestYouTubeTrailer_best videos mediaTitle year)
      as (found & Hfound & Hspec).
    rewrite Hbest in Hfound. injection Hfound as <-.
    destruct Hspec as (Hin & Hpos & _). split; [exact Hin|].
    cbv zeta. revert Hpos. rewrite spec_trailerScore_terms. cbv zeta.
    destruct (JsString.includes _ (JsString.toLowerCase mediaTitle)); [auto|].
    destruct (yearTruthy year); cbn [andb].
    + destruct (JsString.includes _ (yearToString year)); [auto|].
      destruct (JsString.includes _ (yearToString year)); [auto 6|].
      cbn [orb].
      destruct (JsString.includes _ "official"); [auto 6|].
      destruct (JsString.includes _ "trailer"); [auto 6|].
      destruct (existsb _ officialChannels); [auto 6|].
      repeat match goal with
             | |- context [if ?b then _ else _] => destruct b
             end; lia.
    + destruct (JsString.includes _ "official"); [auto 6|].
      destruct (JsString.includes _ "trailer"); [auto 6|].
      destruct (existsb _ officialChannels); [auto 6|].
      repeat match goal with
             | |- context [if ?b then _ else _] => destruct b
             end; lia.
Qed.

Lemma selected_trailer_has_positive_sign_witness :
  In exampleCandidate [exampleCandidate].
Proof.
  destruct (selected_trailer_has_positive_sign [exampleCandidate] "Movie Title"
              (Year 2009)) as (_ & H).
  apply (H exampleCandidate). vm_compute. reflexivity.
Defined.

(** ** The cast of a series *)

Section MapSet.

Context {V : Type}.

Lemma Map_set_keys (key : Z) (value : V) (map : list (Z * V)) :
  List.map fst (Map_set key value map)
  = if existsb (fun k => k =? key) (List.map fst map)
    then List.map fst map
    else (List.map fst map ++ [key])%list.
Proof.
  induction map as [|[k v] rest IH]; cbn [Map_set List.map existsb fst app];
    [reflexivity|].
  destruct (Z.eqb_spec k key) as [-> | Hne]; cbn [orb List.map fst].
  - reflexivity.
  - rewrite IH. now destruct (existsb _ (List.map fst rest)).
Qed.

Lemma Map_set_In (key : Z) (value : V) (map : list (Z * V)) (k : Z) (v : V) :
  NoDup (List.map fst map) ->
  In (k, v) (Map_set key value map)
  <-> (k = key /\ v = value) \/ (k <> key /\ In (k, v) map).
Proof.
  induction map as [|[k0 v0] rest IH]; cbn [Map_set List.map fst]; intros Hnd.
  - cbn. split; [intros [[= -> ->] | []]; now left | intros [[-> ->] | [_ []]]; now left].
  - apply NoDup_cons_iff in Hnd as [Hk0 Hnd].
    destruct (Z.eqb_spec k0 key) as [-> | Hne]; cbn [In].
    + split.
      * intros [[= -> ->] | Hin]; [now left|].
        right. split; [|now right]. intros ->. apply Hk0.
        apply in_map_iff. now exists (key, v).
      * intros [[-> ->] | [Hk [[= -> ->] | Hin]]]; [now left | congruence | now right].
    + rewrite (IH Hnd). split.
      * intros [[= -> ->] | [[-> ->] | [Hk Hin]]]; [right | now left | right];
          (split; [assumption | auto]).
      * intros [[-> ->] | [Hk [[= -> ->] | Hin]]]; auto.
Qed.

Lemma Map_set_NoDup (key : Z) (value : V) (map : list (Z * V)) :
  NoDup (List.map fst map) -> NoDup (List.map fst (Map_set key value map)).
Proof.
  intros Hnd. rewrite Map_set_keys.
  destruct (existsb _ (List.map fst map)) eqn:Hex; [exact Hnd|].
  rewrite <- (rev_involutive (List.map fst map ++ [key])%list).
  apply NoDup_rev. rewrite rev_app_distr. cbn. constructor.
  - rewrite <- in_rev. intros Hin.
    assert (existsb (fun k => k =? key) (List.map fst map) = true).
    { apply existsb_exists. exists key. split; [exact Hin | apply Z.eqb_refl]. }
    congruence.
  - now apply NoDup_rev.
Qed.

End MapSet.

Lemma Map_set_fresh {V : Type} (key : Z) (value : V) (map : list (Z * V)) :
  ~ In key (List.map fst map) -> Map_set key value map = (map ++ [(key, value)])%list.
Proof.
  induction map as [|[k v] rest IH]; cbn [Map_set List.map fst app In];
    [reflexivity|].
  intros Hfresh. destruct (Z.eqb_spec k key) as [-> | Hne]; [tauto|].
  rewrite IH by tauto. reflexivity.
Qed.

Lemma setAll_cons (person : Cast.person) (cast : list Cast.person)
    (castMap : list (Z * Cast.person)) :
  setAll (person :: cast) castMap
  = setAll cast (Map_set (Cast.id person) person castMap).
Proof. reflexivity. Qed.

Lemma setAll_app (cast cast' : list Cast.person) (castMap : list (Z * Cast.person)) :
  setAll (cast ++ cast') castMap = setAll cast' (setAll cast castMap).
Proof. unfold setAll. apply fold_left_app. Qed.

Lemma setAll_NoDup (cast : list Cast.person) (castMap : list (Z * Cast.person)) :
  NoDup (List.map fst castMap) -> NoDup (List.map fst (setAll cast castMap)).
Proof.
  revert castMap. induction cast as [|person cast IH]; intros castMap Hnd;
    [exact Hnd|].
  rewrite setAll_cons. apply IH. now apply Map_set_NoDup.
Qed.

Lemma setAll_keys (cast before : list Cast.person)
    (castMap : list (Z * Cast.person)) :
  (forall k, In k (List.map fst castMap) <-> In k (List.map Cast.id before)) ->
  List.map fst (setAll cast castMap)
  = (List.map fst castMap
     ++ List.map Cast.id (spec_firstOccurrences Cast.id before cast))%list.
Proof.
  revert before castMap.
  induction cast as [|person cast IH]; intros before castMap Hkeys.
  - cbn. now rewrite List.app_nil_r.
  - rewrite setAll_cons. cbn [spec_firstOccurrences].
    assert (Hsame : existsb (fun k => k =? Cast.id person) (List.map fst castMap)
                    = existsb (fun y => bool_decide (Cast.id y = Cast.id person))
                        before).
    { apply eq_true_iff_eq. rewrite seen_before, <- Hkeys, existsb_exists.
      split.
      - intros (k & Hk & E). apply Z.eqb_eq in E. now subst k.
      - intros Hk. exists (Cast.id person). split; [exact Hk | apply Z.eqb_refl]. }
    rewrite (IH (before ++ [person])%list).
    + rewrite Map_set_keys, Hsame.
      destruct (existsb _ before); [reflexivity|].
      cbn [List.map]. now rewrite <- List.app_assoc.
    + intros k. rewrite Map_set_keys, Hsame, List.map_app, in_app_iff. cbn.
      destruct (existsb _ before) eqn:Hseen.
      * rewrite Hkeys. split; [tauto|]. intros [Hk | [<- | []]]; [exact Hk|].
        now apply seen_before.
      * rewrite in_app_iff, Hkeys. cbn. tauto.
Qed.

Lemma lastWithId_cons (person other : Cast.person) (cast : list Cast.person) :
  lastWithId (other :: cast) person
  <-> lastWithId cast person
      \/ (person = other
          /\ Forall (fun q => Cast.id q <> Cast.id person) cast).
Proof.
  unfold lastWithId. split.
  - intros (before & after & Hsplit & Hafter).
    destruct before as [|b before]; cbn in Hsplit; injection Hsplit as -> ->.
    + right. split; [reflexivity | exact Hafter].
    + left. eauto.
  - intros [(before & after & -> & Hafter) | [-> Hall]].
    + exists (other :: before), after. split; [reflexivity | exact Hafter].
    + exists [], cast. split; [reflexivity | exact Hall].
Qed.

Lemma lastWithId_mentions (cast : list Cast.person) (person : Cast.person) :
  lastWithId cast person -> In person cast.
Proof.
  intros (before & after & -> & _). apply in_or_app. right. now left.
Qed.

Lemma setAll_In (cast : list Cast.person) (castMap : list (Z * Cast.person))
    (k : Z) (v : Cast.person) :
  NoDup (List.map fst castMap) ->
  In (k, v) (setAll cast castMap)
  <-> (Cast.id v = k /\ lastWithId cast v)
      \/ (In (k, v) castMap /\ Forall (fun other => Cast.id other <> k) cast).
Proof.
  revert castMap. induction cast as [|person cast IH]; intros castMap Hnd.
  - cbn [setAll fold_left]. split.
    + intros Hin. right. split; [exact Hin | constructor].
    + intros [[_ (before & after & Hsplit & _)] | [Hin _]]; [|exact Hin].
      now destruct before.
  - rewrite setAll_cons, (IH _ (Map_set_NoDup _ _ _ Hnd)).
    rewrite (Map_set_In _ _ _ _ _ Hnd), lastWithId_cons, Forall_cons_iff.
    split.
    + intros [[Hid Hlast] | [[[-> ->] | [Hne Hin]] Hall]].
      * left. split; [exact Hid | now left].
      * left. split; [reflexivity|]. right. split; [reflexivity | exact Hall].
      * right. split; [exact Hin|]. split; [congruence | exact Hall].
    + intros [[Hid [Hlast | [-> Hall]]] | [Hin [Hne Hall]]].
      * left. split; assumption.
      * right. subst k. split; [now left | exact Hall].
      * right. split; [|exact Hall]. right. split; [congruence | exact Hin].
Qed.

(** The cast [getTVDetails] returns lists every person credited for the
    series or for season 1 once: the ids are in the order of their first
    mention, series cast first, without repetition, and the entry kept for
    an id is the last one given, so that a season-1 credit replaces the
    series credit of the same person. *)
Theorem combinedCast_merges (showCast seasonCast : list Cast.person) :
  let cast := (showCast ++ seasonCast)%list in
  let combined := combinedCast (Some showCast) (Some seasonCast) in
  NoDup (List.map Cast.id combined)
  /\ List.map Cast.id combined
     = List.map Cast.id (spec_firstOccurrences Cast.id [] cast)
  /\ (forall person, In person combined <-> lastWithId cast person)
  /\ (forall person, In person cast ->
        In (Cast.id person) (List.map Cast.id combined)).
Proof.
  intros cast combined.
  assert (Hcombined : combined = Map_values (setAll cast [])).
  { unfold combined, combinedCast, cast. cbn [default]. now rewrite setAll_app. }
  assert (Hin : forall person, In person combined <-> lastWithId cast person).
  { intros person. rewrite Hcombined. unfold Map_values. rewrite in_map_iff. split.
    - intros ([k v] & <- & Hkv). apply setAll_In in Hkv; [|constructor].
      destruct Hkv as [[_ Hlast] | [[] _]]. exact Hlast.
    - intros Hlast. exists (Cast.id person, person). split; [reflexivity|].
      apply setAll_In; [constructor|]. left. now split. }
  assert (Hids : List.map Cast.id combined = List.map fst (setAll cast [])).
  { rewrite Hcombined. unfold Map_values. rewrite List.map_map.
    apply map_ext_in. intros [k v] Hkv. cbn.
    apply setAll_In in Hkv; [|constructor].
    now destruct Hkv as [[Hid _] | [[] _]]. }
  assert (Hkeys : List.map Cast.id combined
                  = List.map Cast.id (spec_firstOccurrences Cast.id [] cast)).
  { rewrite Hids. now rewrite (setAll_keys cast [] []). }
  split; [|split; [exact Hkeys | split; [exact Hin|]]].
  - rewrite Hkeys. apply firstOccurrences_NoDup.
  - intros person Hperson. rewrite Hids.
    clear - Hperson. unfold cast in *. clear cast.
    generalize (@nil (Z * Cast.person)) as castMap.
    induction (showCast ++ seasonCast)%list as [|other rest IH]; intros castMap;
      [destruct Hperson|].
    rewrite setAll_cons. destruct Hperson as [-> | Hperson]; [|now apply IH].
    assert (Hkept : forall cast' castMap' k,
              In k (List.map fst castMap') ->
              In k (List.map fst (setAll cast' castMap'))).
    { clear. induction cast' as [|q cast' IH]; intros castMap' k Hk; [exact Hk|].
      rewrite setAll_cons. apply IH. rewrite Map_set_keys.
      destruct (existsb _ (List.map fst castMap')); [exact Hk|].
      apply in_or_app. now left. }
    apply Hkept. rewrite Map_set_keys.
    destruct (existsb _ (List.map fst castMap)) eqn:Hex.
    + apply existsb_exists in Hex as (k & Hk & E). apply Z.eqb_eq in E. now subst k.
    + apply in_or_app. right. now left.
Qed.

Lemma setAll_distinct (cast : list Cast.person) (castMap : list (Z * Cast.person)) :
  NoDup (List.map fst castMap ++ List.map Cast.id cast) ->
  setAll cast castMap
  = (castMap ++ List.map (fun person => (Cast.id person, person)) cast)%list.
Proof.
  revert castMap. induction cast as [|person cast IH]; intros castMap Hnd.
  - cbn. now rewrite List.app_nil_r.
  - rewrite setAll_cons. cbn [List.map] in Hnd |- *.
    rewrite Map_set_fresh.
    + rewrite IH.
      * now rewrite <- List.app_assoc.
      * rewrite List.map_app. cbn. now rewrite <- List.app_assoc.
    + apply NoDup_remove_2 in Hnd. intros Hin. apply Hnd.
      apply in_or_app. now left.
Qed.

(** When nobody is credited twice the cast is the series cast followed by
    the season-1 cast, as the provider sent them; in particular, when the
    request for season 1 failed, a series cast without repetition is
    returned unchanged. *)
Theorem combinedCast_distinct (showCast seasonCast : list Cast.person) :
  NoDup (List.map Cast.id (showCast ++ seasonCast)) ->
  combinedCast (Some showCast) (Some seasonCast) = (showCast ++ seasonCast)%list
  /\ (seasonCast = [] -> combinedCast (Some showCast) None = showCast).
Proof.
  intros Hnd.
  assert (H : forall cast, NoDup (List.map Cast.id cast) ->
            Map_values (setAll cast []) = cast).
  { intros cast Hcast. rewrite setAll_distinct by exact Hcast.
    unfold Map_values. cbn [app]. rewrite List.map_map. cbn.
    apply List.map_id. }
  split.
  - unfold combinedCast. cbn [default]. rewrite <- setAll_app. now apply H.
  - intros ->. rewrite List.app_nil_r in Hnd.
    unfold combinedCast. cbn [default setAll fold_left]. now apply H.
Qed.

Lemma combinedCast_distinct_witness :
  combinedCast (Some [Cast.Person 17419 "Bryan Cranston" "Walter White"])
    (Some [Cast.Person 84497 "Aaron Paul" "Jesse Pinkman"])
  = [Cast.Person 17419 "Bryan Cranston" "Walter White";
     Cast.Person 84497 "Aaron Paul" "Jesse Pinkman"].
Proof.
  apply (combinedCast_distinct [Cast.Person 17419 "Bryan Cranston" "Walter White"]
           [Cast.Person 84497 "Aaron Paul" "Jesse Pinkman"]).
  cbn. repeat constructor; cbn; [|tauto]. intros [E | []]. discriminate.
Defined.

(** ** The average episode runtime *)

Lemma validRuntimes_In (episodes : list (option Z)) (minutes : Z) :
  In minutes (validRuntimes episodes) <-> In (Some minutes) episodes /\ 0 < minutes.
Proof.
  induction episodes as [|[m|] rest IH]; cbn [validRuntimes In].
  - tauto.
  - destruct (Z.eqb_spec m 0) as [-> | Hne]; cbn [negb andb].
    + rewrite IH. split; [tauto|].
      intros [[E | Hin] Hpos]; [injection E as <-; lia | tauto].
    + destruct (Z.ltb_spec 0 m) as [Hm | Hm]; cbn [In]; rewrite IH.
      * split.
        -- intros [-> | [Hin Hpos]]; [split; [now left | exact Hm] | tauto].
        -- intros [[E | Hin] Hpos]; [injection E as <-; now left | tauto].
      * split; [tauto|].
        intros [[E | Hin] Hpos]; [injection E as <-; lia | tauto].
  - rewrite IH. split; [tauto|]. intros [[E | Hin] Hpos]; [discriminate | tauto].
Qed.

Lemma collectRuntimes_In (fetchSeason : Z -> result (list (option Z)))
    (seasons : list Z) (collected allRuntimes : list Z) :
  collectRuntimes fetchSeason seasons collected = Ok allRuntimes ->
  forall minutes,
    In minutes allRuntimes
    <-> In minutes collected
        \/ exists season_number episodes,
             In season_number seasons /\ season_number <> 0
             /\ fetchSeason season_number = Ok episodes
             /\ In (Some minutes) episodes /\ 0 < minutes.
Proof.
  revert collected. induction seasons as [|n rest IH]; intros collected;
    cbn [collectRuntimes].
  - intros [= <-] minutes. split; [tauto|].
    intros [H | (n & eps & [] & _)]. exact H.
  - destruct (Z.eqb_spec n 0) as [-> | Hne].
    + intros H minutes. rewrite (IH _ H). split.
      * intros [Hc | (m & eps & Hm & Hrest)]; [now left|].
        right. exists m, eps. split; [now right | exact Hrest].
      * intros [Hc | (m & eps & [<- | Hm] & Hm0 & Hrest)]; [now left | lia |].
        right. exists m, eps. split; [exact Hm|]. split; [exact Hm0 | exact Hrest].
    + destruct (fetchSeason n) as [episodes|e] eqn:Hfetch;
        cbn [mbind result_bind]; [|discriminate].
      intros H minutes. rewrite (IH _ H), in_app_iff, validRuntimes_In. split.
      * intros [[Hc | [Hin Hpos]] | (m & eps & Hm & Hrest)].
        -- now left.
        -- right. exists n, episodes. split; [now left|]. tauto.
        -- right. exists m, eps. split; [now right | exact Hrest].
      * intros [Hc | (m & eps & [<- | Hm] & Hm0 & Hf & Hin & Hpos)].
        -- left. now left.
        -- rewrite Hfetch in Hf. injection Hf as <-. left. right. tauto.
        -- right. exists m, eps. tauto.
Qed.

Lemma sum_from (runtimes : list Z) (start : Z) :
  fold_left Z.add runtimes start = start + fold_left Z.add runtimes 0.
Proof.
  revert start. induction runtimes as [|r rest IH]; intros start; cbn [fold_left].
  - lia.
  - rewrite (IH (start + r)), (IH (0 + r)). lia.
Qed.

Lemma sum_lower (runtimes : list Z) (lo : Z) :
  Forall (fun r => lo <= r) runtimes ->
  Z.of_nat (List.length runtimes) * lo <= fold_left Z.add runtimes 0.
Proof.
  intros H. induction H as [|r rest Hr _ IH]; cbn [fold_left List.length].
  - lia.
  - rewrite sum_from. lia.
Qed.

Lemma sum_upper (runtimes : list Z) (hi : Z) :
  Forall (fun r => r <= hi) runtimes ->
  fold_left Z.add runtimes 0 <= Z.of_nat (List.length runtimes) * hi.
Proof.
  intros H. induction H as [|r rest Hr _ IH]; cbn [fold_left List.length].
  - lia.
  - rewrite sum_from. lia.
Qed.

Lemma Math_round_div_lower (a b lo : Z) :
  0 < b -> b * lo <= a -> lo <= Math_round_div a b.
Proof.
  intros Hb Hlo. unfold Math_round_div. apply Z.div_le_lower_bound; lia.
Qed.

Lemma Math_round_div_upper (a b hi : Z) :
  0 < b -> a <= b * hi -> Math_round_div a b <= hi.
Proof.
  intros Hb Hhi. unfold Math_round_div.
  apply Z.lt_succ_r. apply Z.div_lt_upper_bound; lia.
Qed.


Lemma collectRuntimes_regular (fetchSeason : Z -> result (list (option Z)))
    (seasons allRuntimes : list Z) :
  collectRuntimes fetchSeason seasons [] = Ok allRuntimes ->
  forall minutes,
    In minutes allRuntimes <-> regularRuntime fetchSeason seasons minutes.
Proof.
  intros H minutes. rewrite (collectRuntimes_In _ _ _ _ H minutes).
  unfold regularRuntime. cbn [In]. tauto.
Qed.

(** When an average is stored it is at least one minute and lies between
    any two bounds that hold for every runtime that counts: the positive
    runtimes of the episodes of the seasons other than the specials. *)
Theorem averageRuntime_between (fetchSeason : Z -> result (list (option Z)))
    (seasons : list Z) (average : Z) :
  averageRuntime fetchSeason (Some seasons) = Ok (Some average) ->
  1 <= average
  /\ (exists minutes, regularRuntime fetchSeason seasons minutes)
  /\ forall lo hi,
       (forall minutes, regularRuntime fetchSeason seasons minutes ->
          lo <= minutes <= hi) ->
       lo <= average <= hi.
Proof.
  unfold averageRuntime.
  destruct (collectRuntimes fetchSeason seasons []) as [allRuntimes|e] eqn:Hcollect;
    cbn [mbind result_bind]; [|discriminate].
  destruct (Nat.ltb_spec 0 (List.length allRuntimes)) as [Hlen | Hlen];
    [|discriminate].
  intros [= <-].
  pose proof (collectRuntimes_regular _ _ _ Hcollect) as Hin.
  assert (Hpos : 0 < Z.of_nat (List.length allRuntimes)) by lia.
  split; [|split].
  - apply Math_round_div_lower; [exact Hpos|]. apply sum_lower.
    apply Forall_forall. intros minutes Hm. apply Hin in Hm.
    destruct Hm as (_ & _ & _ & _ & _ & _ & H). lia.
  - destruct allRuntimes as [|minutes rest]; [cbn in Hlen; lia|].
    exists minutes. apply Hin. now left.
  - intros lo hi Hbounds. split.
    + apply Math_round_div_lower; [exact Hpos|]. apply sum_lower.
      apply Forall_forall. intros minutes Hm. apply Hin, Hbounds in Hm. lia.
    + apply Math_round_div_upper; [exact Hpos|]. apply sum_upper.
      apply Forall_forall. intros minutes Hm. apply Hin, Hbounds in Hm. lia.
Qed.

Lemma averageRuntime_between_witness : 47 <= 52 <= 58.
Proof.
  destruct (averageRuntime_between exampleSeasons [0; 1; 2] 52) as (_ & _ & H).
  - vm_compute. reflexivity.
  - apply H. intros minutes (n & episodes & Hn & Hn0 & Hfetch & Hin & Hpos).
    destruct Hn as [<- | [<- | [<- | []]]]; [lia | |];
      cbn in Hfetch; injection Hfetch as <-; cbn in Hin;
      repeat (destruct Hin as [Hin | Hin]; [try discriminate; injection Hin; lia|]);
      destruct Hin.
Defined.

Lemma collectRuntimes_agree (fetchSeason fetchSeason' : Z -> result (list (option Z)))
    (seasons collected : list Z) :
  (forall season_number, In season_number seasons -> season_number <> 0 ->
     fetchSeason season_number = fetchSeason' season_number) ->
  collectRuntimes fetchSeason seasons collected
  = collectRuntimes fetchSeason' seasons collected.
Proof.
  revert collected. induction seasons as [|n rest IH]; intros collected Hagree;
    cbn [collectRuntimes]; [reflexivity|].
  destruct (Z.eqb_spec n 0) as [-> | Hne].
  - apply IH. intros m Hm. apply Hagree. now right.
  - rewrite <- (Hagree n) by (auto; now left).
    destruct (fetchSeason n); cbn [mbind result_bind]; [|reflexivity].
    apply IH. intros m Hm. apply Hagree. now right.
Qed.

Lemma collectRuntimes_regular_seasons (fetchSeason : Z -> result (list (option Z)))
    (seasons collected : list Z) :
  collectRuntimes fetchSeason (List.filter (fun n => negb (n =? 0)) seasons) collected
  = collectRuntimes fetchSeason seasons collected.
Proof.
  revert collected. induction seasons as [|n rest IH]; intros collected;
    cbn [collectRuntimes List.filter]; [reflexivity|].
  destruct (Z.eqb_spec n 0) as [-> | Hne]; cbn [negb collectRuntimes].
  - apply IH.
  - destruct (Z.eqb_spec n 0); [contradiction|].
    destruct (fetchSeason n); cbn [mbind result_bind]; [apply IH | reflexivity].
Qed.

(** The specials never count: season 0 is not requested, so the outcome
    is the same for two providers that differ on season 0 only, one of
    them failing there, say; and it is the outcome for the season list
    without its specials. *)
Theorem averageRuntime_skips_specials
    (fetchSeason fetchSeason' : Z -> result (list (option Z)))
    (seasons : list Z) :
  (forall season_number, season_number <> 0 ->
     fetchSeason season_number = fetchSeason' season_number) ->
  averageRuntime fetchSeason (Some seasons)
  = averageRuntime fetchSeason' (Some seasons)
  /\ averageRuntime fetchSeason (Some seasons)
     = averageRuntime fetchSeason
         (Some (List.filter (fun n => negb (n =? 0)) seasons)).
Proof.
  intros Hagree. unfold averageRuntime. split.
  - now rewrite (collectRuntimes_agree fetchSeason fetchSeason') by auto.
  - now rewrite collectRuntimes_regular_seasons.
Qed.

Lemma averageRuntime_skips_specials_witness :
  averageRuntime exampleSeasons (Some [0; 1; 2])
  = averageRuntime
      (fun n => if n =? 0 then Ok [Some 600] else exampleSeasons n)
      (Some [0; 1; 2]).
Proof.
  apply (averageRuntime_skips_specials exampleSeasons
           (fun n => if n =? 0 then Ok [Some 600] else exampleSeasons n)).
  intros n Hn. destruct (Z.eqb_spec n 0); [contradiction | reflexivity].
Defined.

Lemma collectRuntimes_throws (fetchSeason : Z -> result (list (option Z)))
    (before after : list Z) (season_number : Z) (e : error) (collected : list Z) :
  season_number <> 0 ->
  fetchSeason season_number = Throw e ->
  (forall earlier, In earlier before -> earlier <> 0 ->
     exists episodes, fetchSeason earlier = Ok episodes) ->
  collectRuntimes fetchSeason (before ++ season_number :: after) collected = Throw e.
Proof.
  intros Hn Hthrow. revert collected.
  induction before as [|m before IH]; intros collected Hearlier;
    cbn [app collectRuntimes].
  - destruct (Z.eqb_spec season_number 0); [contradiction|]. now rewrite Hthrow.
  - destruct (Z.eqb_spec m 0) as [-> | Hm].
    + apply IH. intros x Hx. apply Hearlier. now right.
    + destruct (Hearlier m) as [episodes ->]; [now left | exact Hm|].
      cbn [mbind result_bind]. apply IH. intros x Hx. apply Hearlier. now right.
Qed.

Lemma collectRuntimes_empty (fetchSeason : Z -> result (list (option Z)))
    (seasons collected : list Z) :
  (forall season_number, In season_number seasons -> season_number <> 0 ->
     exists episodes,
       fetchSeason season_number = Ok episodes /\ validRuntimes episodes = []) ->
  collectRuntimes fetchSeason seasons collected = Ok collected.
Proof.
  revert collected. induction seasons as [|n rest IH]; intros collected Hnone;
    cbn [collectRuntimes]; [reflexivity|].
  destruct (Z.eqb_spec n 0) as [-> | Hn].
  - apply IH. intros m Hm. apply Hnone. now right.
  - destruct (Hnone n) as (episodes & -> & Hvalid); [now left | exact Hn|].
    cbn [mbind result_bind]. rewrite Hvalid, List.app_nil_r.
    apply IH. intros m Hm. apply Hnone. now right.
Qed.

(** The averaging has no fallback of its own: the first season, other
    than the specials, whose request fails makes it throw that error, and
    no average is stored.  Without a season list, or when no episode of a
    regular season has a positive runtime, it returns and leaves the
    provider's runtime in place. *)
Theorem averageRuntime_outcomes (fetchSeason : Z -> result (list (option Z)))
    (seasons : list Z) :
  (forall before season_number after e,
     seasons = (before ++ season_number :: after)%list ->
     season_number <> 0 ->
     fetchSeason season_number = Throw e ->
     (forall earlier, In earlier before -> earlier <> 0 ->
        exists episodes, fetchSeason earlier = Ok episodes) ->
     averageRuntime fetchSeason (Some seasons) = Throw e)
  /\ ((forall season_number, In season_number seasons -> season_number <> 0 ->
         exists episodes,
           fetchSeason season_number = Ok episodes
           /\ validRuntimes episodes = []) ->
      averageRuntime fetchSeason (Some seasons) = Ok None)
  /\ averageRuntime fetchSeason None = Ok None.
Proof.
  split; [|split; [|reflexivity]].
  - intros before n after e -> Hn Hthrow Hearlier. unfold averageRuntime.
    now rewrite (collectRuntimes_throws _ _ _ _ e).
  - intros Hnone. unfold averageRuntime.
    now rewrite collectRuntimes_empty.
Qed.

Lemma averageRuntime_outcomes_witness :
  averageRuntime exampleSeasons (Some [0; 1; 3; 2]) = Throw ProviderError.
Proof.
  destruct (averageRuntime_outcomes exampleSeasons [0; 1; 3; 2]) as (H & _).
  apply (H [0; 1] 3 [2] ProviderError).
  - reflexivity.
  - lia.
  - reflexivity.
  - intros earlier [<- | [<- | []]] Hne; [lia|]. cbn. eauto.
Defined.

(** ** Logos of the streaming platforms *)

Lemma find_app_last {A : Type} (p : A -> bool) (l : list A) (x : A) :
  List.find p (l ++ [x])
  = match List.find p l with
    | Some y => Some y
    | None => if p x then Some x else None
    end.
Proof.
  induction l as [|y l IH]; cbn [app List.find]; [reflexivity|].
  now destruct (p y).
Qed.

Lemma providers_lookup (results : list Provider.t)
    (providers : gmap Z ProviderEntry.t) (providerId : Z) :
  fold_left
    (fun providerMap provider =>
       <[Provider.provider_id provider := providerEntry provider]> providerMap)
    results providers !! providerId
  = match List.find (fun provider => Provider.provider_id provider =? providerId)
            (rev results) with
    | Some provider => Some (providerEntry provider)
    | None => providers !! providerId
    end.
Proof.
  revert providers. induction results as [|provider rest IH]; intros providers;
    cbn [fold_left rev List.find]; [reflexivity|].
  rewrite IH, find_app_last.
  destruct (List.find _ (rev rest)); [reflexivity|].
  destruct (Z.eqb_spec (Provider.provider_id provider) providerId) as [<- | Hne].
  - apply lookup_insert_eq.
  - now apply lookup_insert_ne.
Qed.

Lemma providerMap_lastLogo (results : list Provider.t) (providerId : Z) :
  match providerMap results !! providerId with
  | Some provider =>
      if truthyStr (ProviderEntry.logo_path provider)
      then Some (platformLogo provider) else None
  | None => None
  end
  = lastLogo results providerId.
Proof.
  unfold providerMap, lastLogo. rewrite providers_lookup.
  destruct (List.find _ (rev results)); [reflexivity|]. now rewrite lookup_empty.
Qed.

Lemma platformLogos_lookup (providers : gmap Z ProviderEntry.t)
    (platforms : list (string * Z)) (platformLogos : gmap string Logo.t)
    (key : string) :
  NoDup (List.map fst platforms) ->
  fold_left (addPlatformLogo providers) platforms platformLogos !! key
  = match List.find (fun platform => String.eqb (fst platform) key) platforms with
    | Some (_, providerId) =>
        match providers !! providerId with
        | Some provider =>
            if truthyStr (ProviderEntry.logo_path provider)
            then Some (platformLogo provider) else platformLogos !! key
        | None => platformLogos !! key
        end
    | None => platformLogos !! key
    end.
Proof.
  revert platformLogos.
  induction platforms as [|[k0 id0] rest IH]; intros platformLogos Hnd;
    cbn [fold_left List.find List.map fst] in *; [reflexivity|].
  apply NoDup_cons_iff in Hnd as [Hfresh Hnd]. rewrite (IH _ Hnd).
  destruct (String.eqb_spec k0 key) as [-> | Hne].
  - assert (Hnone : List.find (fun platform => String.eqb (fst platform) key) rest
                    = None).
    { destruct (List.find _ rest) as [[k id]|] eqn:Hfind; [|reflexivity].
      apply find_some in Hfind as [Hin Hk]. cbn in Hk. apply String.eqb_eq in Hk.
      subst k. destruct Hfresh. apply in_map_iff. now exists (key, id). }
    rewrite Hnone. unfold addPlatformLogo.
    destruct (providers !! id0) as [provider|]; [|reflexivity].
    destruct (truthyStr (ProviderEntry.logo_path provider)); [|reflexivity].
    apply lookup_insert_eq.
  - assert (Hsame : addPlatformLogo providers platformLogos (k0, id0) !! key
                    = platformLogos !! key).
    { unfold addPlatformLogo.
      destruct (providers !! id0) as [provider|]; [|reflexivity].
      destruct (truthyStr (ProviderEntry.logo_path provider)); [|reflexivity].
      now apply lookup_insert_ne. }
    rewrite Hsame. reflexivity.
Qed.

(** When the provider call succeeds, [getStreamingProviderLogos] returns
    an object with at most the five platform keys.  A platform has an
    entry exactly when the response lists its provider id with a logo
    path that is not empty; of several providers listed with the same id
    the last one counts; and the logo URL is the image host's "original"
    path followed by the logo path.  When the call fails, the error is
    "Failed to fetch streaming provider logos". *)
Theorem getStreamingProviderLogos_lookup (results : list Provider.t) :
  (exists platformLogos,
     getStreamingProviderLogos (Ok results) = Ok platformLogos
     /\ (forall platformKey providerId,
           In (platformKey, providerId) supportedPlatforms ->
           platformLogos !! platformKey = lastLogo results providerId)
     /\ (forall key, ~ In key (List.map fst supportedPlatforms) ->
           platformLogos !! key = None)
     /\ (forall key logo,
           platformLogos !! key = Some logo ->
           Logo.logo_path logo <> EmptyString
           /\ Logo.logo_url logo
              = "https://image.tmdb.org/t/p/original" ++ Logo.logo_path logo))
  /\ forall e,
       getStreamingProviderLogos (Throw e)
       = Throw (Error "Failed to fetch streaming provider logos").
Proof.
  split; [|reflexivity].
  eexists. split; [reflexivity|].
  assert (Hnd : NoDup (List.map fst supportedPlatforms)).
  { cbn. repeat constructor; cbn; intuition discriminate. }
  assert (Hlookup : forall key,
            fold_left (addPlatformLogo (providerMap results)) supportedPlatforms ∅
              !! key
            = match List.find (fun platform => String.eqb (fst platform) key)
                      supportedPlatforms with
              | Some (_, providerId) => lastLogo results providerId
              | None => None
              end).
  { intros key. rewrite (platformLogos_lookup _ _ _ _ Hnd), lookup_empty.
    destruct (List.find _ supportedPlatforms) as [[k id]|]; [|reflexivity].
    rewrite <- providerMap_lastLogo.
    destruct (providerMap results !! id) as [provider|]; [|reflexivity].
    now destruct (truthyStr (ProviderEntry.logo_path provider)). }
  split; [|split].
  - intros platformKey providerId Hin. rewrite Hlookup.
    cbn in Hin.
    destruct Hin as [E | [E | [E | [E | [E | []]]]]]; injection E as <- <-;
      reflexivity.
  - intros key Hkey. rewrite Hlookup.
    destruct (List.find _ supportedPlatforms) as [[k id]|] eqn:Hfind; [|reflexivity].
    apply find_some in Hfind as [Hin Hk]. cbn in Hk. apply String.eqb_eq in Hk.
    subst k. destruct Hkey. apply in_map_iff. now exists (key, id).
  - intros key logo. rewrite Hlookup.
    destruct (List.find _ supportedPlatforms) as [[k id]|]; [|discriminate].
    unfold lastLogo. destruct (List.find _ (rev results)) as [provider|];
      [|discriminate].
    destruct (Provider.logo_path provider) as [[|c path]|] eqn:Hpath;
      cbn [truthyStr]; try discriminate.
    intros [= <-]. unfold platformLogo, providerEntry. cbn. rewrite Hpath. cbn.
    split; [discriminate | reflexivity].
Qed.

Lemma getStreamingProviderLogos_lookup_witness :
  exists platformLogos,
    getStreamingProviderLogos (Ok exampleProviders) = Ok platformLogos
    /\ platformLogos !! "netflix" = lastLogo exampleProviders 8
    /\ platformLogos !! "prime" = None.
Proof.
  destruct (getStreamingProviderLogos_lookup exampleProviders)
    as ((platformLogos & Hget & Hin & _) & _).
  exists platformLogos. split; [exact Hget|]. split.
  - apply Hin. now left.
  - rewrite (Hin "prime" 9) by (right; now left). reflexivity.
Defined.

(** ** Sorting with a comparator that is a total order *)

Lemma StronglySorted_weaken {A : Type} (R R' : A -> A -> Prop) (l : list A) :
  (forall a b, R a b -> R' a b) -> StronglySorted R l -> StronglySorted R' l.
Proof.
  intros Himp H. induction H as [|a l _ IH Hall]; constructor; [exact IH|].
  eapply Forall_impl; [|exact Hall]. apply Himp.
Qed.

Lemma StronglySorted_firstn {A : Type} (R : A -> A -> Prop) (n : nat) (l : list A) :
  StronglySorted R l -> StronglySorted R (firstn n l).
Proof.
  intros H. revert n. induction H as [|a l _ IH Hall]; intros [|n]; cbn [firstn];
    try constructor.
  - apply IH.
  - apply Forall_forall. intros x Hx. rewrite Forall_forall in Hall.
    apply Hall. eapply In_firstn. exact Hx.
Qed.

Lemma Array_sort_total_order {A : Type} (after : A -> A -> result bool)
    (array : list A) :
  (forall a b, exists swap, after a b = Ok swap) ->
  (forall a b, after a b = Ok true -> after b a = Ok false) ->
  (forall a b c, after a b = Ok false -> after b c = Ok false ->
     after a c = Ok false) ->
  exists sorted,
    Array_sort after array = Ok sorted
    /\ Permutation array sorted
    /\ StronglySorted (fun a b => after a b = Ok false) sorted.
Proof.
  intros Hret Hasym Htrans.
  destruct (Array_sort_returns after array) as [sorted Hsort]; [auto|].
  exists sorted. split; [exact Hsort|]. split.
  - now apply Array_sort_Permutation in Hsort.
  - apply Sorted_StronglySorted; [exact Htrans|].
    eapply Array_sort_Sorted; [exact Hasym | exact Hsort].
Qed.

Lemma or_default_0 (popularity : field) :
  or_default popularity 0 = Num (popularityOr0 popularity).
Proof.
  destruct popularity as [p|]; cbn; [|reflexivity].
  destruct (Req_dec_T p 0) as [-> | _]; reflexivity.
Qed.

Lemma popularity_after (a b : field) :
  JsNum.positive (JsNum.sub (or_default b 0) (or_default a 0))
  = if Rlt_dec (popularityOr0 a) (popularityOr0 b) then true else false.
Proof.
  rewrite !or_default_0. unfold JsNum.sub. cbn.
  destruct (Rlt_dec 0 _), (Rlt_dec (popularityOr0 a) _); try reflexivity; lra.
Qed.

(** ** Trending anime *)

Lemma compareAnime_eq (trending : list Trending.show) (a b : Trending.show) :
  compareAnime trending a b
  = Ok (if (inTrending trending a && negb (inTrending trending b))%bool then false
        else if (negb (inTrending trending a) && inTrending trending b)%bool then true
        else if Rlt_dec (popularityOr0 (Trending.popularity a))
                  (popularityOr0 (Trending.popularity b))
             then true else false).
Proof.
  unfold compareAnime. cbv zeta. rewrite popularity_after.
  destruct (inTrending trending a), (inTrending trending b); reflexivity.
Qed.

Lemma compareAnime_order (trending : list Trending.show) (a b : Trending.show) :
  compareAnime trending a b = Ok false <-> animeOrder trending a b.
Proof.
  rewrite compareAnime_eq. unfold animeOrder.
  destruct (inTrending trending a), (inTrending trending b); cbn [andb negb];
    try destruct (Rlt_dec _ _); split;
    try (intros [= ]); try (intros [[? ?] | [? ?]]); try discriminate;
    try reflexivity; try lra; auto.
  all: right; split; [reflexivity | lra].
Qed.

Lemma compareAnime_sorts (trending animeShows : list Trending.show) :
  exists sorted,
    Array_sort (compareAnime trending) animeShows = Ok sorted
    /\ Permutation animeShows sorted
    /\ StronglySorted (animeOrder trending) sorted.
Proof.
  destruct (Array_sort_total_order (compareAnime trending) animeShows)
    as (sorted & Hsort & Hperm & Hsorted).
  - intros a b. rewrite compareAnime_eq. eauto.
  - intros a b. rewrite !compareAnime_eq.
    destruct (inTrending trending a), (inTrending trending b); cbn [andb negb];
      try discriminate; try reflexivity.
    all: destruct (Rlt_dec _ _); [|discriminate]; intros _;
      destruct (Rlt_dec _ _); [lra | reflexivity].
  - intros a b c. rewrite !compareAnime_order. unfold animeOrder.
    intros [[Ha Hb] | [Hab Hpab]] [[Hb' Hc] | [Hbc Hpbc]]; try congruence.
    + left. split; congruence.
    + left. split; congruence.
    + right. split; [congruence | lra].
  - exists sorted. split; [exact Hsort|]. split; [exact Hperm|].
    eapply StronglySorted_weaken; [|exact Hsorted].
    intros a b. apply compareAnime_order.
Qed.

Lemma NoDup_firstn {A : Type} (n : nat) (l : list A) :
  NoDup l -> NoDup (firstn n l).
Proof.
  intros H. revert n. induction H as [|x l Hx _ IH]; intros [|n]; cbn [firstn];
    try constructor.
  - intros Hin. apply Hx. eapply In_firstn. exact Hin.
  - apply IH.
Qed.

Lemma NoDup_map_filter {A B : Type} (f : A -> B) (p : A -> bool) (l : list A) :
  NoDup (List.map f l) -> NoDup (List.map f (List.filter p l)).
Proof.
  induction l as [|x l IH]; cbn [List.map List.filter]; intros H; [constructor|].
  apply NoDup_cons_iff in H as [Hx H].
  destruct (p x); [|now apply IH].
  cbn [List.map]. constructor; [|now apply IH].
  intros Hin. apply Hx. apply in_map_iff in Hin as (y & E & Hy).
  apply filter_In in Hy as [Hy _]. apply in_map_iff. eauto.
Qed.

Lemma NoDup_map_firstn {A B : Type} (f : A -> B) (n : nat) (l : list A) :
  NoDup (List.map f l) -> NoDup (List.map f (firstn n l)).
Proof. intros H. rewrite <- firstn_map. now apply NoDup_firstn. Qed.

Lemma supplement_In (animeShows supplementResults : list Trending.show)
    (show : Trending.show) :
  In show
    (List.filter
       (fun anime =>
          negb (bool_decide
                  (Trending.id anime
                   ∈ (list_to_set (List.map Trending.id animeShows) : gset Z))))
       supplementResults)
  <-> In show supplementResults
      /\ ~ In (Trending.id show) (List.map Trending.id animeShows).
Proof.
  rewrite filter_In, negb_true_iff, bool_decide_eq_false.
  rewrite elem_of_list_to_set, list_elem_of_In. reflexivity.
Qed.

Lemma supplemented_In (animeShows supplementResults candidates : list Trending.show) :
  supplemented animeShows (Ok supplementResults) = Ok candidates ->
  forall show,
    In show candidates
    <-> In show animeShows
        \/ ((List.length animeShows < 10)%nat
            /\ In show supplementResults
            /\ ~ In (Trending.id show) (List.map Trending.id animeShows)).
Proof.
  unfold supplemented.
  destruct (Nat.ltb_spec (List.length animeShows) 10) as [Hshort | Hlong];
    cbn [mbind result_bind]; intros [= <-] show.
  - rewrite in_app_iff, supplement_In. tauto.
  - split; [tauto|]. intros [H | [H _]]; [exact H | lia].
Qed.

Lemma NoDup_append {A : Type} (l l' : list A) :
  NoDup l -> NoDup l' -> (forall x, In x l' -> ~ In x l) -> NoDup (l ++ l').
Proof.
  intros Hl Hl' Hdisjoint. induction Hl as [|x l Hx _ IH]; cbn [app]; [exact Hl'|].
  constructor.
  - intros Hin. apply in_app_or in Hin as [Hin | Hin]; [now apply Hx|].
    apply (Hdisjoint x Hin). now left.
  - apply IH. intros y Hy Hin. apply (Hdisjoint y Hy). now right.
Qed.

Lemma supplemented_NoDup (animeShows supplementResults candidates : list Trending.show) :
  supplemented animeShows (Ok supplementResults) = Ok candidates ->
  NoDup (List.map Trending.id animeShows) ->
  NoDup (List.map Trending.id supplementResults) ->
  NoDup (List.map Trending.id candidates).
Proof.
  unfold supplemented.
  destruct (List.length animeShows <? 10)%nat; cbn [mbind result_bind];
    intros [= <-] Hanime Hsupp; [|exact Hanime].
  rewrite List.map_app. apply NoDup_append.
  - exact Hanime.
  - now apply NoDup_map_filter.
  - intros k Hk. apply in_map_iff in Hk as (show & <- & Hshow).
    now apply supplement_In in Hshow.
Qed.

(** What [getTrendingAnime] returns when both provider calls succeed: at
    most twenty shows, each one a trending show that passes the anime
    test or, when fewer than ten do, a supplement show whose id is not
    among theirs; no id twice, if neither response repeats an id; shows
    of the trending response before all others, and within both groups
    by descending popularity. *)
Theorem getTrendingAnime_result (trending supplement : list Trending.show) :
  exists finalAnime,
    getTrendingAnime (Ok trending) (Ok supplement) = Ok finalAnime
    /\ (List.length finalAnime <= 20)%nat
    /\ (forall show, In show finalAnime ->
          (In show trending /\ isAnime show = true)
          \/ ((List.length (List.filter isAnime trending) < 10)%nat
              /\ In show supplement
              /\ forall anime, In anime trending -> isAnime anime = true ->
                   Trending.id anime <> Trending.id show))
    /\ (NoDup (List.map Trending.id (List.filter isAnime trending)) ->
        NoDup (List.map Trending.id supplement) ->
        NoDup (List.map Trending.id finalAnime))
    /\ StronglySorted (animeOrder trending) finalAnime.
Proof.
  unfold getTrendingAnime. cbn [mbind result_bind].
  set (animeShows := List.filter isAnime trending).
  destruct (supplemented animeShows (Ok supplement)) as [candidates|e] eqn:Hsupp.
  2:{ unfold supplemented in Hsupp.
      destruct (List.length animeShows <? 10)%nat; discriminate. }
  cbn [mbind result_bind].
  destruct (compareAnime_sorts trending candidates) as (sorted & -> & Hperm & Hsorted).
  cbn [mbind result_bind try_catch]. eexists. split; [reflexivity|].
  split; [apply firstn_le_length|]. split; [|split].
  - intros show Hshow. apply In_firstn in Hshow.
    apply (Permutation_in _ (Permutation_sym Hperm)) in Hshow.
    apply (supplemented_In _ _ _ Hsupp) in Hshow.
    destruct Hshow as [Hshow | (Hshort & Hin & Hnew)].
    + left. now apply filter_In in Hshow.
    + right. split; [exact Hshort|]. split; [exact Hin|].
      intros anime Hanime Hpass E. apply Hnew. rewrite <- E.
      apply in_map. now apply filter_In.
  - intros Hanime Hsupplement. apply NoDup_map_firstn.
    eapply Permutation_NoDup; [apply Permutation_map; exact Hperm|].
    now apply (supplemented_NoDup _ _ _ Hsupp).
  - now apply StronglySorted_firstn.
Qed.

Lemma getTrendingAnime_result_witness :
  exists finalAnime,
    getTrendingAnime (Ok exampleTrending) (Ok exampleSupplement) = Ok finalAnime
    /\ NoDup (List.map Trending.id finalAnime).
Proof.
  destruct (getTrendingAnime_result exampleTrending exampleSupplement)
    as (finalAnime & Hget & _ & _ & Hnd & _).
  exists finalAnime. split; [exact Hget|]. apply Hnd.
  - cbn. repeat constructor. cbn. tauto.
  - cbn. repeat constructor; cbn; [|tauto]. intros [E | []]. discriminate.
Defined.

(** The supplement is requested only when fewer than ten trending shows
    pass the anime test.  With ten or more the outcome does not depend on
    it, even if that request would fail; with fewer, its failure fails
    the whole call, as a failure of the trending request always does. *)
Theorem getTrendingAnime_supplement_only_when_short (trending : list Trending.show) :
  ((10 <= List.length (List.filter isAnime trending))%nat ->
   forall supplementResponse supplementResponse',
     getTrendingAnime (Ok trending) supplementResponse
     = getTrendingAnime (Ok trending) supplementResponse')
  /\ ((List.length (List.filter isAnime trending) < 10)%nat ->
      forall e,
        getTrendingAnime (Ok trending) (Throw e)
        = Throw (Error "Failed to fetch trending anime"))
  /\ forall e supplementResponse,
       getTrendingAnime (Throw e) supplementResponse
       = Throw (Error "Failed to fetch trending anime").
Proof.
  split; [|split; [|reflexivity]].
  - intros Hlong s s'. unfold getTrendingAnime, supplemented.
    cbn [mbind result_bind].
    destruct (Nat.ltb_spec (List.length (List.filter isAnime trending)) 10);
      [lia | reflexivity].
  - intros Hshort e. unfold getTrendingAnime, supplemented.
    cbn [mbind result_bind].
    destruct (Nat.ltb_spec (List.length (List.filter isAnime trending)) 10);
      [reflexivity | lia].
Qed.

Lemma getTrendingAnime_supplement_only_when_short_witness :
  getTrendingAnime (Ok exampleTrending) (Throw ProviderError)
  = Throw (Error "Failed to fetch trending anime").
Proof.
  destruct (getTrendingAnime_supplement_only_when_short exampleTrending)
    as (_ & H & _).
  apply H. cbn. lia.
Defined.

(** ** Upcoming movies *)

Lemma comparePopularity_sorts (movies : list Media.item) :
  exists sorted,
    Array_sort comparePopularity movies = Ok sorted
    /\ Permutation movies sorted
    /\ StronglySorted morePopular sorted.
Proof.
  assert (Heq : forall a b,
            comparePopularity a b
            = Ok (if Rlt_dec (popularityOr0 (Media.popularity a))
                       (popularityOr0 (Media.popularity b))
                  then true else false)).
  { intros a b. unfold comparePopularity. now rewrite popularity_after. }
  destruct (Array_sort_total_order comparePopularity movies)
    as (sorted & Hsort & Hperm & Hsorted).
  - intros a b. rewrite Heq. eauto.
  - intros a b. rewrite !Heq.
    destruct (Rlt_dec _ _); [|discriminate]. intros _.
    destruct (Rlt_dec _ _); [lra | reflexivity].
  - intros a b c. rewrite !Heq.
    repeat destruct (Rlt_dec _ _); try discriminate; try reflexivity. lra.
  - exists sorted. split; [exact Hsort|]. split; [exact Hperm|].
    eapply StronglySorted_weaken; [|exact Hsorted].
    intros a b. cbn beta. rewrite Heq. unfold morePopular.
    destruct (Rlt_dec _ _); [discriminate | lra].
Qed.

(** What [getUpcomingMovies] returns when the four provider calls
    succeed: at most twenty movies, no id twice; each is the first movie
    with its id on the pages, taken in the order requested, and has no
    release date or one that is not before today in the order of strings;
    and they come by descending popularity, a missing popularity counting
    as 0.  When a call fails the error is "Failed to fetch upcoming
    movies". *)
Theorem getUpcomingMovies_result (todayString : string)
    (upcoming1 upcoming2 discover1 discover2 : list Media.item) :
  let allMovies := (upcoming1 ++ upcoming2 ++ discover1 ++ discover2)%list in
  (exists upcomingMovies,
     getUpcomingMovies todayString
       (Ok upcoming1) (Ok upcoming2) (Ok discover1) (Ok discover2)
     = Ok upcomingMovies
     /\ (List.length upcomingMovies <= 20)%nat
     /\ NoDup (List.map Media.id upcomingMovies)
     /\ (forall movie, In movie upcomingMovies ->
           In movie (spec_firstOccurrences Media.id [] allMovies)
           /\ In movie allMovies
           /\ (truthyStr (Media.release_date movie) = false
               \/ exists date,
                    Media.release_date movie = Some date
                    /\ String.leb todayString date = true))
     /\ StronglySorted morePopular upcomingMovies)
  /\ (forall e page2 page3 page4,
        getUpcomingMovies todayString (Throw e) page2 page3 page4
        = Throw (Error "Failed to fetch upcoming movies"))
  /\ (forall e page3 page4,
        getUpcomingMovies todayString (Ok upcoming1) (Throw e) page3 page4
        = Throw (Error "Failed to fetch upcoming movies"))
  /\ (forall e page4,
        getUpcomingMovies todayString (Ok upcoming1) (Ok upcoming2) (Throw e) page4
        = Throw (Error "Failed to fetch upcoming movies"))
  /\ (forall e,
        getUpcomingMovies todayString (Ok upcoming1) (Ok upcoming2) (Ok discover1)
          (Throw e)
        = Throw (Error "Failed to fetch upcoming movies")).
Proof.
  intros allMovies. split; [|repeat split].
  unfold getUpcomingMovies. cbn [mbind result_bind]. fold allMovies.
  set (upcoming := List.filter (releasesFrom todayString) (uniqueMovies allMovies)).
  destruct (comparePopularity_sorts upcoming) as (sorted & -> & Hperm & Hsorted).
  cbn [mbind result_bind try_catch]. eexists. split; [reflexivity|].
  split; [apply firstn_le_length|]. split; [|split].
  - apply NoDup_map_firstn.
    eapply Permutation_NoDup; [apply Permutation_map; exact Hperm|].
    apply NoDup_map_filter. rewrite uniqueMovies_spec.
    apply firstOccurrences_NoDup.
  - intros movie Hmovie. apply In_firstn in Hmovie.
    apply (Permutation_in _ (Permutation_sym Hperm)) in Hmovie.
    apply filter_In in Hmovie as [Hunique Hdate].
    rewrite uniqueMovies_spec in Hunique. split; [exact Hunique|]. split.
    + pose proof (firstOccurrences_sublist Media.id [] allMovies) as Hsub.
      apply sublist_subseteq in Hsub. apply list_elem_of_In, Hsub.
      now apply list_elem_of_In.
    + unfold releasesFrom in Hdate.
      destruct (truthyStr (Media.release_date movie)) eqn:Hhas; [|now left].
      right. destruct (Media.release_date movie) as [date|]; [|discriminate].
      exists date. split; [reflexivity | exact Hdate].
  - now apply StronglySorted_firstn.
Qed.

(** ** Candidates of [getPopularTVShows] *)

(** The candidates are the first ten trending shows followed by the first
    ten popular shows that are not among them; the final [slice(0, 20)]
    never drops anything.  Every candidate comes from one of the two
    responses, and when neither response repeats an id no two candidates
    share one. *)
Theorem combinedShows_candidates (trendingResults popularResults : list Media.item) :
  let trendingShows := firstn 10 trendingResults in
  let popularShows :=
    firstn 10
      (List.filter
         (fun show => negb (existsb (fun trending => Media.id trending =? Media.id show)
                              trendingShows))
         popularResults) in
  combinedShows trendingResults popularResults = (trendingShows ++ popularShows)%list
  /\ (List.length (combinedShows trendingResults popularResults) <= 20)%nat
  /\ (forall show, In show (combinedShows trendingResults popularResults) ->
        In show trendingResults
        \/ (In show popularResults
            /\ ~ In (Media.id show) (List.map Media.id trendingShows)))
  /\ (NoDup (List.map Media.id trendingResults) ->
      NoDup (List.map Media.id popularResults) ->
      NoDup (List.map Media.id (combinedShows trendingResults popularResults))).
Proof.
  intros trendingShows popularShows.
  assert (Hcombined : combinedShows trendingResults popularResults
                      = (trendingShows ++ popularShows)%list).
  { unfold combinedShows. fold trendingShows. fold popularShows.
    apply firstn_all2. rewrite List.length_app.
    pose proof (firstn_le_length 10 trendingResults).
    pose proof (firstn_le_length 10
                  (List.filter
                     (fun show =>
                        negb (existsb
                                (fun trending => Media.id trending =? Media.id show)
                                trendingShows))
                     popularResults)).
    unfold trendingShows, popularShows. lia. }
  assert (Hpopular : forall show, In show popularShows ->
            In show popularResults
            /\ ~ In (Media.id show) (List.map Media.id trendingShows)).
  { intros show Hshow. apply In_firstn, filter_In in Hshow as [Hin Hnew].
    split; [exact Hin|]. apply negb_true_iff in Hnew.
    intros Hid. apply in_map_iff in Hid as (t & E & Ht).
    assert (existsb (fun trending => Media.id trending =? Media.id show)
              trendingShows = true).
    { apply existsb_exists. exists t. split; [exact Ht | now apply Z.eqb_eq]. }
    congruence. }
  rewrite Hcombined. split; [reflexivity|]. split; [|split].
  - rewrite List.length_app.
    pose proof (firstn_le_length 10 trendingResults).
    pose proof (firstn_le_length 10
                  (List.filter
                     (fun show =>
                        negb (existsb
                                (fun trending => Media.id trending =? Media.id show)
                                trendingShows))
                     popularResults)).
    unfold trendingShows, popularShows. lia.
  - intros show Hshow. apply in_app_or in Hshow as [Hshow | Hshow].
    + left. eapply In_firstn. exact Hshow.
    + right. now apply Hpopular.
  - intros Htrending Hpop. rewrite List.map_app. apply NoDup_append.
    + now apply NoDup_map_firstn.
    + apply NoDup_map_firstn. now apply NoDup_map_filter.
    + intros k Hk. apply in_map_iff in Hk as (show & <- & Hshow).
      now apply Hpopular.
Qed.

Lemma combinedShows_candidates_witness :
  NoDup (List.map Media.id (combinedShows [exampleMovie] [exampleMovie; exampleShow])).
Proof.
  destruct (combinedShows_candidates [exampleMovie] [exampleMovie; exampleShow])
    as (_ & _ & _ & H).
  apply H.
  - cbn. repeat constructor. cbn. tauto.
  - cbn. repeat constructor; cbn; [|tauto]. intros [E | []]. discriminate.
Defined.

(** ** The unused relevance score *)

Lemma includes_tail (s q : string) (c : ascii) :
  JsString.includes s (String c q) = true -> JsString.includes s q = true.
Proof.
  induction s as [|d s IH]; cbn [JsString.includes JsString.startsWith].
  - discriminate.
  - intros H. apply orb_true_iff in H as [H | H].
    + apply andb_true_iff in H as [_ H]. apply startsWith_includes in H.
      rewrite H. apply orb_true_r.
    + rewrite (IH H). apply orb_true_r.
Qed.

Lemma wordScore_inner (queryWord : string) (titleWords : list string) (start : Z) :
  exists k,
    fold_left
      (fun wordMatchScore titleWord =>
         if String.eqb titleWord queryWord then wordMatchScore + 100
         else if (JsString.startsWith titleWord queryWord
                  || JsString.startsWith queryWord titleWord)%bool
              then wordMatchScore + 50
              else wordMatchScore)
      titleWords start
    = start + 50 * k
    /\ 0 <= k <= 2 * Z.of_nat (List.length titleWords).
Proof.
  revert start. induction titleWords as [|w ws IH]; intros start;
    cbn [fold_left List.length].
  - exists 0. lia.
  - destruct (String.eqb w queryWord);
      [|destruct (JsString.startsWith w queryWord
                  || JsString.startsWith queryWord w)%bool].
    + destruct (IH (start + 100)) as (k & -> & Hk). exists (k + 2). lia.
    + destruct (IH (start + 50)) as (k & -> & Hk). exists (k + 1). lia.
    + destruct (IH start) as (k & -> & Hk). exists k. lia.
Qed.

Lemma wordScore_bounds (queryWords titleWords : list string) :
  exists k,
    countWordScore queryWords titleWords = 50 * k
    /\ 0 <= k
       <= 2 * Z.of_nat (List.length queryWords) * Z.of_nat (List.length titleWords).
Proof.
  unfold countWordScore.
  enough (H : forall start,
            exists k,
              fold_left
                (fun wordMatchScore queryWord =>
                   fold_left
                     (fun wordMatchScore titleWord =>
                        if String.eqb titleWord queryWord then wordMatchScore + 100
                        else if (JsString.startsWith titleWord queryWord
                                 || JsString.startsWith queryWord titleWord)%bool
                             then wordMatchScore + 50
                             else wordMatchScore)
                     titleWords wordMatchScore)
                queryWords start
              = start + 50 * k
              /\ 0 <= k
                 <= 2 * Z.of_nat (List.length queryWords)
                    * Z.of_nat (List.length titleWords)).
  { destruct (H 0) as (k & E & Hk). exists k. split; [rewrite E; lia | exact Hk]. }
  induction queryWords as [|q qs IH]; intros start; cbn [fold_left List.length].
  - exists 0. lia.
  - destruct (wordScore_inner q titleWords start) as (k1 & -> & Hk1).
    destruct (IH (start + 50 * k1)) as (k2 & -> & Hk2).
    exists (k1 + k2). split; [lia | nia].
Qed.

(** [calculateRelevanceScore] returns for every title and query that are
    strings, a non-negative multiple of 50.  Equal strings, letter case
    apart, score 1000, and a title that contains the query scores one of
    1000, 800, 600 and 400.  Any other title scores at most 100 for each
    pair of a query word and a title word; that can exceed 1000, so an
    exact match does not always score highest. *)
Theorem calculateRelevanceScore_tiers (title query : string) :
  let titleLower := JsString.toLowerCase title in
  let queryLower := JsString.toLowerCase query in
  (exists score k,
     calculateRelevanceScore (Some title) (Some query) = Ok score
     /\ score = 50 * k /\ 0 <= k
     /\ (String.eqb titleLower queryLower = true -> score = 1000)
     /\ (JsString.includes titleLower queryLower = true ->
         score = 1000 \/ score = 800 \/ score = 600 \/ score = 400)
     /\ (JsString.includes titleLower queryLower = false ->
         score = countWordScore (JsString.split_ws queryLower)
                   (JsString.split_ws titleLower)
         /\ score <= 100 * Z.of_nat (List.length (JsString.split_ws queryLower))
                     * Z.of_nat (List.length (JsString.split_ws titleLower))))
  /\ calculateRelevanceScore (Some "a a a") (Some "a a a a") = Ok 1200
  /\ calculateRelevanceScore None (Some query) = Throw TypeError
  /\ calculateRelevanceScore (Some title) None = Throw TypeError.
Proof.
  intros titleLower queryLower.
  split; [|split; [vm_compute; reflexivity | split; reflexivity]].
  unfold calculateRelevanceScore. cbn [String_toLowerCase mbind result_bind].
  fold titleLower. fold queryLower.
  assert (Htier : forall score k,
            score = 50 * k -> 0 <= k ->
            JsString.includes titleLower queryLower = true ->
            (String.eqb titleLower queryLower = true -> score = 1000) ->
            score = 1000 \/ score = 800 \/ score = 600 \/ score = 400 ->
            exists score' k',
              Ok score = Ok score'
              /\ score' = 50 * k' /\ 0 <= k'
              /\ (String.eqb titleLower queryLower = true -> score' = 1000)
              /\ (JsString.includes titleLower queryLower = true ->
                  score' = 1000 \/ score' = 800 \/ score' = 600 \/ score' = 400)
              /\ (JsString.includes titleLower queryLower = false ->
                  score' = countWordScore (JsString.split_ws queryLower)
                             (JsString.split_ws titleLower)
                  /\ score'
                     <= 100 * Z.of_nat (List.length (JsString.split_ws queryLower))
                        * Z.of_nat (List.length (JsString.split_ws titleLower)))).
  { intros score k Hk Hk0 Hinc Hexact Hvalues. exists score, k.
    split; [reflexivity|]. split; [exact Hk|]. split; [exact Hk0|].
    split; [exact Hexact|]. split; [auto|]. intros H. congruence. }
  destruct (String.eqb titleLower queryLower) eqn:Heq.
  { apply (Htier 1000 20); auto; try lia.
    now apply eqb_startsWith, startsWith_includes in Heq. }
  destruct (JsString.startsWith titleLower queryLower) eqn:Hsw.
  { apply (Htier 800 16); auto; try lia; try discriminate.
    now apply startsWith_includes in Hsw. }
  destruct (JsString.includes titleLower (" " ++ queryLower)) eqn:Hword.
  { apply (Htier 600 12); auto; try lia; try discriminate.
    now apply includes_tail in Hword. }
  destruct (JsString.includes titleLower queryLower) eqn:Hinc.
  { apply (Htier 400 8); auto; try lia; discriminate. }
  clear Htier.
  destruct (wordScore_bounds (JsString.split_ws queryLower)
              (JsString.split_ws titleLower)) as (k & Hk & Hrange).
  eexists. exists k. split; [reflexivity|].
  split; [exact Hk|]. split; [lia|]. split; [discriminate|].
  split; [discriminate|]. intros _. split; [reflexivity|]. rewrite Hk. nia.
Qed.

Lemma calculateRelevanceScore_tiers_witness :
  calculateRelevanceScore (Some "Avatar") (Some "avatar") = Ok 1000.
Proof.
  destruct (calculateRelevanceScore_tiers "Avatar" "avatar")
    as ((score & k & Hscore & _ & _ & Heq & _) & _).
  rewrite Hscore. f_equal. apply Heq. reflexivity.
Defined.

(** ** Shuffling *)

Lemma Math_floor_below (r : R) (n : nat) :
  (0 <= r < 1)%R -> (0 < n)%nat ->
  (Z.to_nat (Math_floor (r * INR n)) < n)%nat.
Proof.
  intros [Hr0 Hr1] Hn. unfold Math_floor.
  destruct (base_Int_part (r * INR n)) as [Hle Hgt].
  assert (HnR : (0 < INR n)%R) by (apply lt_0_INR; lia).
  assert (Hx0 : (0 <= r * INR n)%R) by nra.
  assert (Hxn : (r * INR n < INR n)%R) by nra.
  assert (Hlow : (-1 < Int_part (r * INR n))%Z).
  { apply lt_IZR. lra. }
  assert (Hhigh : (Int_part (r * INR n) < Z.of_nat n)%Z).
  { apply lt_IZR. rewrite <- INR_IZR_INZ. lra. }
  lia.
Qed.

Section Swap.

Context {A : Type}.

Lemma swap_within (shuffled : list A) (i j : nat) :
  (i < List.length shuffled)%nat -> (j < List.length shuffled)%nat ->
  exists x y,
    shuffled !! i = Some x /\ shuffled !! j = Some y
    /\ swap shuffled i j = <[j := x]> (<[i := y]> shuffled).
Proof.
  intros Hi Hj. unfold swap.
  destruct (lookup_lt_is_Some_2 shuffled i Hi) as [x Hx].
  destruct (lookup_lt_is_Some_2 shuffled j Hj) as [y Hy].
  exists x, y. now rewrite Hx, Hy.
Qed.

Lemma swap_length (shuffled : list A) (i j : nat) :
  List.length (swap shuffled i j) = List.length shuffled.
Proof.
  unfold swap. destruct (shuffled !! i), (shuffled !! j); try reflexivity.
  now rewrite !length_insert.
Qed.

Lemma swap_Permutation (shuffled : list A) (i j : nat) :
  (i < List.length shuffled)%nat -> (j < List.length shuffled)%nat ->
  Permutation (swap shuffled i j) shuffled.
Proof.
  intros Hi Hj.
  destruct (swap_within shuffled i j Hi Hj) as (x & y & Hx & Hy & ->).
  apply Permutation_inj. split; [now rewrite !length_insert|].
  exists (fun k => if decide (k = i) then j else if decide (k = j) then i else k).
  split.
  - intros a b. repeat case_decide; intros; subst; congruence.
  - intros k. destruct (decide (k = j)) as [-> | Hkj].
    + rewrite list_lookup_insert_eq by now rewrite length_insert.
      destruct (decide (j = i)) as [-> | _]; congruence.
    + rewrite list_lookup_insert_ne by congruence.
      destruct (decide (k = i)) as [-> | Hki].
      * rewrite list_lookup_insert_eq by assumption. congruence.
      * now rewrite list_lookup_insert_ne by congruence.
Qed.

End Swap.

Section Shuffle.

Variable Math_random : nat -> R.
Hypothesis Math_random_range : forall n, (0 <= Math_random n < 1)%R.

Lemma randomBelow_range (calls n : nat) :
  (0 < n)%nat -> (randomBelow Math_random calls n < n)%nat.
Proof. intros Hn. unfold randomBelow. now apply Math_floor_below. Qed.

Lemma shuffleFrom_Permutation {A : Type} (i calls : nat) (shuffled : list A) :
  (i < List.length shuffled)%nat ->
  Permutation (fst (shuffleFrom Math_random i calls shuffled)) shuffled
  /\ snd (shuffleFrom Math_random i calls shuffled) = (calls + i)%nat.
Proof.
  revert calls shuffled. induction i as [|i IH]; intros calls shuffled Hi;
    cbn [shuffleFrom].
  - split; [reflexivity | cbn; lia].
  - pose proof (randomBelow_range calls (S i + 1)) as Hj.
    destruct (IH (S calls) (swap shuffled (S i) (randomBelow Math_random calls (S i + 1))))
      as [Hperm Hcalls].
    { rewrite swap_length. lia. }
    split; [|rewrite Hcalls; lia].
    rewrite Hperm. apply swap_Permutation; lia.
Qed.

Lemma shuffleArray_Permutation {A : Type} (array shuffled : list A) (calls calls' : nat) :
  shuffleArray Math_random array calls = (shuffled, calls') ->
  Permutation shuffled array.
Proof.
  unfold shuffleArray. intros H. destruct array as [|x array].
  - cbn in H. injection H as <- _. reflexivity.
  - destruct (shuffleFrom_Permutation (List.length (x :: array) - 1) calls (x :: array))
      as [Hperm _].
    { cbn. lia. }
    now rewrite H in Hperm.
Qed.

End Shuffle.

(** [shuffleArray] returns a permutation of its argument, whatever values
    [Math.random] produces within its range, and draws one random number
    for each element but the first. *)
Theorem shuffleArray_permutes {A : Type} (Math_random : nat -> R)
    (array : list A) (calls : nat) :
  (forall n, (0 <= Math_random n < 1)%R) ->
  Permutation (fst (shuffleArray Math_random array calls)) array
  /\ List.length (fst (shuffleArray Math_random array calls)) = List.length array
  /\ snd (shuffleArray Math_random array calls)
     = (calls + (List.length array - 1))%nat.
Proof.
  intros Hrange.
  assert (H : Permutation (fst (shuffleArray Math_random array calls)) array
              /\ snd (shuffleArray Math_random array calls)
                 = (calls + (List.length array - 1))%nat).
  { unfold shuffleArray. destruct array as [|x array].
    - cbn. split; [reflexivity | lia].
    - apply shuffleFrom_Permutation; [exact Hrange | cbn; lia]. }
  destruct H as [Hperm Hcalls]. split; [exact Hperm|]. split; [|exact Hcalls].
  now apply Permutation_length.
Qed.

Lemma shuffleArray_permutes_witness :
  Permutation (fst (shuffleArray (fun _ => (1 / 2)%R) [1; 2; 3] 0)) [1; 2; 3].
Proof.
  apply (shuffleArray_permutes (fun _ => (1 / 2)%R) [1; 2; 3] 0).
  intros n. lra.
Defined.

(** ** The home feed *)

Section WatchAtHome.

Variable Math_random : nat -> R.
Hypothesis Math_random_range : forall n, (0 <= Math_random n < 1)%R.
Variable fetchMovies fetchTv fetchAnime : Z -> result (list Media.item).
Variable fetchDetail : Z -> result Media.item.
Variable spread : Media.item -> Media.item -> Media.item.

Lemma randomPage_range (calls n : nat) :
  (0 < n)%nat ->
  1 <= Z.of_nat (randomBelow Math_random calls n) + 1 <= Z.of_nat n.
Proof.
  intros Hn. pose proof (randomBelow_range Math_random Math_random_range calls n Hn).
  lia.
Qed.

Lemma shuffled_In {A : Type} (array shuffled : list A) (calls calls' n : nat) (x : A) :
  shuffleArray Math_random array calls = (shuffled, calls') ->
  In x (firstn n shuffled) -> In x array.
Proof.
  intros Hshuffle Hx. apply In_firstn in Hx.
  eapply Permutation_in; [|exact Hx].
  eapply shuffleArray_Permutation; eauto.
Qed.

Lemma getWatchAtHomeContent_items (calls : nat)
    (moviesResults tvResults animeResults : list Media.item) :
  fetchMovies (Z.of_nat (randomBelow Math_random calls 3) + 1) = Ok moviesResults ->
  fetchTv (Z.of_nat (randomBelow Math_random (calls + 1) 3) + 1) = Ok tvResults ->
  fetchAnime (Z.of_nat (randomBelow Math_random (calls + 2) 5) + 1) = Ok animeResults ->
  exists content,
    getWatchAtHomeContent Math_random fetchMovies fetchTv fetchAnime fetchDetail
      spread calls = Ok content
    /\ (List.length content <= 40)%nat
    /\ NoDup (List.map contentKey content)
    /\ forall item, In item content ->
         homeItem fetchDetail spread moviesResults tvResults animeResults item.
Proof.
  intros Hmovies Htv Hanime. unfold getWatchAtHomeContent. cbv zeta.
  rewrite Hmovies, Htv, Hanime. cbn [mbind result_bind].
  destruct (shuffleArray Math_random (addType moviesResults "movie") _)
    as [movies calls1] eqn:H1.
  destruct (shuffleArray Math_random (tvShows _) calls1) as [shows calls2] eqn:H2.
  destruct (shuffleArray Math_random (List.filter isJapanese _) calls2)
    as [anime calls3] eqn:H3.
  destruct (shuffleArray Math_random (firstn 15 movies ++ _)%list calls3)
    as [shuffledContent calls4] eqn:H4.
  cbn [try_catch]. eexists. split; [reflexivity|].
  split; [apply firstn_le_length|]. split.
  - apply NoDup_map_firstn. rewrite uniqueContent_spec.
    apply firstOccurrences_NoDup.
  - intros item Hitem. apply In_firstn in Hitem.
    rewrite uniqueContent_spec in Hitem.
    pose proof (firstOccurrences_sublist contentKey [] shuffledContent) as Hsub.
    apply sublist_subseteq in Hsub.
    apply list_elem_of_In, Hsub, list_elem_of_In in Hitem.
    apply (Permutation_in _
             (shuffleArray_Permutation Math_random Math_random_range _ _ _ _ H4))
      in Hitem.
    apply in_app_or in Hitem as [Hitem | Hitem];
      [|apply in_app_or in Hitem as [Hitem | Hitem]].
    + left. eapply shuffled_In; eauto.
    + right. left. apply (shuffled_In _ _ _ _ _ _ H2) in Hitem.
      apply tvShows_retains in Hitem as [Hitem Hgenres].
      apply in_map_iff in Hitem as (show & <- & Hshow).
      exists show. split; [exact Hshow|]. split; [reflexivity | exact Hgenres].
    + right. right. apply (shuffled_In _ _ _ _ _ _ H3) in Hitem.
      apply filter_In in Hitem as [Hitem Hja]. split; [exact Hitem|].
      unfold isJapanese in Hja.
      destruct (Media.original_language item) as [language|]; [|discriminate].
      apply String.eqb_eq in Hja. now subst language.
Qed.

End WatchAtHome.

(** [getWatchAtHomeContent], whatever values [Math.random] produces
    within its range: the pages requested lie in 1..3 for movies and
    series and in 1..5 for anime; when the three requests succeed the
    call returns at most forty items, no two with the same key
    [media_type-id], each one a movie of the response tagged "movie", a
    series of the response tagged "tv", enriched if its detail request
    succeeded and free of excluded genres, or a show of the anime
    response tagged "anime" whose language is "ja". *)
Theorem getWatchAtHomeContent_result (Math_random : nat -> R)
    (fetchMovies fetchTv fetchAnime : Z -> result (list Media.item))
    (fetchDetail : Z -> result Media.item)
    (spread : Media.item -> Media.item -> Media.item) (calls : nat) :
  (forall n, (0 <= Math_random n < 1)%R) ->
  let randomPage1 := Z.of_nat (randomBelow Math_random calls 3) + 1 in
  let randomPage2 := Z.of_nat (randomBelow Math_random (calls + 1) 3) + 1 in
  let randomPage3 := Z.of_nat (randomBelow Math_random (calls + 2) 5) + 1 in
  (1 <= randomPage1 <= 3 /\ 1 <= randomPage2 <= 3 /\ 1 <= randomPage3 <= 5)
  /\ forall moviesResults tvResults animeResults,
       fetchMovies randomPage1 = Ok moviesResults ->
       fetchTv randomPage2 = Ok tvResults ->
       fetchAnime randomPage3 = Ok animeResults ->
       exists content,
         getWatchAtHomeContent Math_random fetchMovies fetchTv fetchAnime
           fetchDetail spread calls = Ok content
         /\ (List.length content <= 40)%nat
         /\ NoDup (List.map contentKey content)
         /\ forall item, In item content ->
              homeItem fetchDetail spread moviesResults tvResults animeResults item.
Proof.
  intros Hrange randomPage1 randomPage2 randomPage3. split.
  - unfold randomPage1, randomPage2, randomPage3.
    pose proof (randomPage_range Math_random Hrange calls 3).
    pose proof (randomPage_range Math_random Hrange (calls + 1) 3).
    pose proof (randomPage_range Math_random Hrange (calls + 2) 5).
    lia.
  - intros moviesResults tvResults animeResults.
    now apply getWatchAtHomeContent_items.
Qed.

Lemma getWatchAtHomeContent_result_witness :
  exists content,
    getWatchAtHomeContent (fun _ => (1 / 2)%R)
      (fun _ => Ok [exampleMovie]) (fun _ => Ok [exampleShow]) (fun _ => Ok [])
      (fun _ => Throw ProviderError) (fun item _ => item) 0
    = Ok content
    /\ NoDup (List.map contentKey content).
Proof.
  destruct (getWatchAtHomeContent_result (fun _ => (1 / 2)%R)
              (fun _ => Ok [exampleMovie]) (fun _ => Ok [exampleShow])
              (fun _ => Ok []) (fun _ => Throw ProviderError)
              (fun item _ => item) 0) as (_ & H).
  - intros n. lra.
  - destruct (H [exampleMovie] [exampleShow] []) as (content & Hget & _ & Hnd & _);
      try reflexivity.
    exists content. split; assumption.
Defined.

(** ** Shows to watch at home *)

Lemma filter_sublist {A : Type} (p : A -> bool) (l : list A) :
  sublist (List.filter p l) l.
Proof.
  induction l as [|x l IH]; cbn [List.filter]; [constructor|].
  destruct (p x); [now apply sublist_skip | now apply sublist_cons].
Qed.

(** [getPopularTVShows] returns, in the order of the candidates, the
    enriched candidates that carry genres none of which is excluded; the
    final [slice(0, 20)] never drops anything.  A failing detail request
    does not fail the call, but the candidate it leaves without genres is
    not returned.  A failing list request fails the call. *)
Theorem getPopularTVShows_result (fetchDetail : Z -> result Media.item)
    (spread : Media.item -> Media.item -> Media.item)
    (trendingResults popularResults : list Media.item) :
  let detailedShows :=
    List.map (withDetails fetchDetail spread)
      (combinedShows trendingResults popularResults) in
  getPopularTVShows fetchDetail spread (Ok trendingResults) (Ok popularResults)
  = Ok (filteredShows detailedShows)
  /\ (List.length (filteredShows detailedShows) <= 20)%nat
  /\ sublist (filteredShows detailedShows) detailedShows
  /\ (forall show, In show (filteredShows detailedShows) ->
        exists candidate genres,
          In candidate (combinedShows trendingResults popularResults)
          /\ show = withDetails fetchDetail spread candidate
          /\ Media.genres show = Some genres
          /\ hasExcludedGenre genres = false)
  /\ (forall candidate e,
        In candidate (combinedShows trendingResults popularResults) ->
        fetchDetail (Media.id candidate) = Throw e ->
        Media.genres candidate = None ->
        ~ In candidate (filteredShows detailedShows))
  /\ (forall e popularResponse,
        getPopularTVShows fetchDetail spread (Throw e) popularResponse
        = Throw (Error "Failed to fetch TV shows for Watch At Home"))
  /\ (forall e,
        getPopularTVShows fetchDetail spread (Ok trendingResults) (Throw e)
        = Throw (Error "Failed to fetch TV shows for Watch At Home")).
Proof.
  intros detailedShows.
  assert (Hlen : (List.length (filteredShows detailedShows) <= 20)%nat).
  { unfold filteredShows. etransitivity; [apply List.filter_length_le|].
    unfold detailedShows. rewrite List.length_map.
    unfold combinedShows. apply firstn_le_length. }
  split; [|split; [exact Hlen | split; [|split; [|split; [|split]]]]].
  - unfold getPopularTVShows. cbn [mbind result_bind try_catch].
    fold detailedShows. f_equal. now apply firstn_all2.
  - apply filter_sublist.
  - intros show Hshow. apply filteredShows_retains in Hshow
      as (Hin & genres & Hgenres & Hok).
    apply in_map_iff in Hin as (candidate & <- & Hcandidate).
    exists candidate, genres. auto.
  - intros candidate e Hcandidate Hfail Hnone Hin.
    apply filteredShows_retains in Hin as (_ & genres & Hgenres & _). congruence.
  - reflexivity.
  - reflexivity.
Qed.

Lemma getPopularTVShows_result_witness :
  ~ In exampleShow
      (filteredShows
         (List.map (withDetails (fun _ => Throw ProviderError) (fun item _ => item))
            (combinedShows [exampleShow] []))).
Proof.
  destruct (getPopularTVShows_result (fun _ => Throw ProviderError)
              (fun item _ => item) [exampleShow] [])
    as (_ & _ & _ & _ & H & _).
  apply (H exampleShow ProviderError); [cbn; now left | reflexivity | reflexivity].
Defined.

(** ** Search: the best twenty *)

(** The twenty results of a search are the best twenty: when all titles
    are strings and no popularity is negative, every result scores at
    least as high as every fetched item that is left out; and with twenty
    fetched items or fewer nothing is left out. *)
Theorem searchMoviesAndTV_returns_best (query : string)
    (movies tv : list Media.item) :
  let allResults :=
    (List.map processMovie movies ++ List.map processShow tv)%list in
  (forall a, In a allResults -> Media.title a <> None) ->
  (forall a, In a allResults -> validPopularity (Media.popularity a)) ->
  exists results,
    searchMoviesAndTV (Some query) (Ok movies) (Ok tv) = Ok results
    /\ (forall a b, In a results -> In b allResults -> ~ In b results ->
          scoredAbove query a b)
    /\ ((List.length allResults <= 20)%nat -> Permutation allResults results).
Proof.
  intros allResults Htitles Hvalid.
  destruct (rankResults_descending query allResults Htitles Hvalid)
    as (ranked & Hrank & Hperm & Hsorted).
  exists (firstn 20 ranked). split; [|split].
  - unfold searchMoviesAndTV. cbn [mbind result_bind]. fold allResults.
    now rewrite Hrank.
  - intros a b Ha Hb Hout.
    apply (StronglySorted_app_inv _ (firstn 20 ranked) (skipn 20 ranked));
      [now rewrite firstn_skipn | exact Ha |].
    apply (Permutation_in _ Hperm) in Hb.
    rewrite <- (firstn_skipn 20 ranked) in Hb.
    apply in_app_or in Hb as [Hb | Hb]; [contradiction | exact Hb].
  - intros Hlen. rewrite firstn_all2; [exact Hperm|].
    now rewrite <- (Permutation_length Hperm).
Qed.

Lemma searchMoviesAndTV_returns_best_witness :
  exists results,
    searchMoviesAndTV (Some "avatar") (Ok [exampleMovie]) (Ok [exampleShow])
    = Ok results
    /\ Permutation [processMovie exampleMovie; processShow exampleShow] results.
Proof.
  destruct (searchMoviesAndTV_returns_best "avatar" [exampleMovie] [exampleShow])
    as (results & Hsearch & _ & Hperm).
  - intros a [<- | [<- | []]]; discriminate.
  - intros a [<- | [<- | []]]; cbn; lra.
  - exists results. split; [exact Hsearch|]. apply Hperm. cbn. lia.
Defined.

(** ** Secondary search: the queries sent *)

Lemma Array_map_videos (videos : list YouTube.video) (originalTitle : option string)
    (year : yearval) (scored : list (YouTube.video * Z)) :
  Array_map
    (fun video =>
       score ← calculateTrailerScore video originalTitle year;
       Ok (video, score))
    videos = Ok scored ->
  List.map fst scored = videos.
Proof.
  revert scored. induction videos as [|v vs IH]; intros scored; cbn [Array_map].
  - intros [= <-]. reflexivity.
  - destruct (calculateTrailerScore v originalTitle year) as [score|e];
      cbn [mbind result_bind]; [|discriminate].
    destruct (Array_map _ vs) as [rest|e]; cbn [mbind result_bind]; [|discriminate].
    intros [= <-]. cbn. f_equal. now apply IH.
Qed.

Lemma findBestYouTubeTrailer_In (items : option (list YouTube.video))
    (originalTitle : option string) (year : yearval) (best : YouTube.video) :
  findBestYouTubeTrailer items originalTitle year = Ok (Some best) ->
  exists videos, items = Some videos /\ In best videos.
Proof.
  destruct items as [[|v vs]|]; try discriminate.
  set (videos := v :: vs). intros H. exists videos. split; [reflexivity|].
  unfold findBestYouTubeTrailer in H. fold videos in H.
  destruct (Array_map _ videos) as [scored|e] eqn:Hmap; cbn [mbind result_bind] in H;
    [|discriminate].
  destruct (Array_sort compareTrailerScore _) as [sorted|e] eqn:Hsort;
    cbn [mbind result_bind] in H; [|discriminate].
  destruct sorted as [|top rest]; [discriminate|]. injection H as <-.
  apply Array_sort_Permutation in Hsort.
  assert (Htop : In top (List.filter (fun item => 0 <? snd item) scored)).
  { eapply Permutation_in; [symmetry; exact Hsort | now left]. }
  apply filter_In in Htop as [Htop _].
  rewrite <- (Array_map_videos _ _ _ _ Hmap). now apply in_map.
Qed.

Lemma tryQueries_sent (youtubeApi_search : string -> result (option (list YouTube.video)))
    (title : option string) (year : yearval) (queries : list string) :
  exists rest,
    queries = (fst (tryQueries youtubeApi_search title year queries) ++ rest)%list.
Proof.
  induction queries as [|query queries IH]; cbn [tryQueries]; [now exists []|].
  destruct (searchOnce youtubeApi_search title year query) as [[best|]|e].
  - now exists queries.
  - destruct (tryQueries youtubeApi_search title year queries) as [sent outcome].
    destruct IH as [rest Hrest]. exists rest. cbn in *. now f_equal.
  - now exists queries.
Qed.

Lemma tryQueries_found (youtubeApi_search : string -> result (option (list YouTube.video)))
    (title : option string) (year : yearval) (queries : list string)
    (best : YouTube.video) :
  snd (tryQueries youtubeApi_search title year queries) = Ok (Some best) ->
  exists earlier query,
    fst (tryQueries youtubeApi_search title year queries) = (earlier ++ [query])%list
    /\ searchOnce youtubeApi_search title year query = Ok (Some best).
Proof.
  induction queries as [|query queries IH]; cbn [tryQueries]; [discriminate|].
  destruct (searchOnce youtubeApi_search title year query) as [[found|]|e] eqn:Honce.
  - cbn. intros [= <-]. now exists [], query.
  - destruct (tryQueries youtubeApi_search title year queries) as [sent outcome].
    cbn in *. intros H. destruct (IH H) as (earlier & q & -> & Hq).
    now exists (query :: earlier), q.
  - discriminate.
Qed.

(** Whatever the provider answers, the search sends it a prefix of the
    four queries, in their order, and nothing at all without the key; and
    a video it returns is one of those the provider returned for the last
    query sent. *)
Theorem searchYouTubeTrailer_sends_prefix (YOUTUBE_API_KEY : option string)
    (Date_getFullYear : string -> option Z)
    (youtubeApi_search : string -> result (option (list YouTube.video)))
    (title releaseDate : option string) :
  let outcome :=
    searchYouTubeTrailer YOUTUBE_API_KEY Date_getFullYear youtubeApi_search
      title releaseDate in
  (exists rest,
     trailerQueries title (yearOf Date_getFullYear releaseDate)
     = (fst outcome ++ rest)%list)
  /\ (List.length (fst outcome) <= 4)%nat
  /\ (truthyStr YOUTUBE_API_KEY = false -> outcome = ([], Ok None))
  /\ (forall best,
        snd outcome = Ok (Some best) ->
        exists earlier query videos,
          fst outcome = (earlier ++ [query])%list
          /\ youtubeApi_search query = Ok (Some videos)
          /\ In best videos).
Proof.
  intros outcome. unfold outcome, searchYouTubeTrailer.
  destruct (truthyStr YOUTUBE_API_KEY) eqn:Hkey; cbn [negb].
  2:{ split; [now eexists|]. split; [cbn; lia|]. split; [reflexivity|].
      discriminate. }
  set (year := yearOf Date_getFullYear releaseDate).
  set (queries := trailerQueries title year).
  pose proof (tryQueries_sent youtubeApi_search title year queries) as Hsent.
  pose proof (tryQueries_found youtubeApi_search title year queries) as Hfound.
  destruct (tryQueries youtubeApi_search title year queries) as [sent found].
  cbn [fst snd] in *. split; [exact Hsent|]. split; [|split; [discriminate|]].
  - destruct Hsent as [rest Hrest].
    assert (Hlen : List.length queries = 4%nat) by reflexivity.
    rewrite Hrest, List.length_app in Hlen. lia.
  - intros best Hbest.
    destruct found as [[found|]|e]; cbn [try_catch] in Hbest; try discriminate.
    injection Hbest as ->.
    destruct (Hfound best eq_refl) as (earlier & query & -> & Honce).
    unfold searchOnce in Honce.
    destruct (youtubeApi_search query) as [items|e] eqn:Hitems;
      cbn [mbind result_bind] in Honce; [|discriminate].
    destruct (nonEmpty items); [|discriminate].
    apply findBestYouTubeTrailer_In in Honce as (videos & -> & Hin).
    now exists earlier, query, videos.
Qed.

Lemma searchYouTubeTrailer_sends_prefix_witness :
  searchYouTubeTrailer None exampleYear exampleProvider
    (Some "Movie Title") (Some "2009-12-18")
  = ([], Ok None).
Proof.
  destruct (searchYouTubeTrailer_sends_prefix None exampleYear exampleProvider
              (Some "Movie Title") (Some "2009-12-18")) as (_ & _ & H & _).
  apply H. reflexivity.
Defined.

(** ** The resolved trailer *)

Lemma getValidTMDBTrailer_site (videos : list Tmdb.video) (found : Tmdb.video) :
  getValidTMDBTrailer (Some videos) = Some found ->
  Tmdb.site found = "YouTube".
Proof.
  rewrite getValidTMDBTrailer_unfold. cbv zeta.
  destruct (tryPriorities trailerPriorities _) as [v|] eqn:Htry.
  - intros [= <-]. apply tryPriorities_found in Htry as [Hf _].
    now apply youtube_filter_In in Hf.
  - destruct (List.filter _ videos) as [|v rest] eqn:Hyt; [discriminate|].
    intros [= <-].
    assert (Hv : In v (List.filter
              (fun video => String.eqb (Tmdb.site video) "YouTube") videos)).
    { rewrite Hyt. now left. }
    now apply youtube_filter_In in Hv.
Qed.

(** A trailer that the resolution returns is always playable the same
    way: its site is "YouTube" and its URL is the YouTube watch URL of its
    key.  It is tagged "tmdb" when the provider's own list gave it, and
    then no query was sent, and "youtube" when the search gave it, which
    happens only if the provider's list held no YouTube video. *)
Theorem resolveTrailer_watch_url (YOUTUBE_API_KEY : option string)
    (Date_getFullYear : string -> option Z)
    (youtubeApi_search : string -> result (option (list YouTube.video)))
    (videos : option (list Tmdb.video)) (title releaseDate : option string)
    (sent : list string) (trailer : Trailer.t) :
  resolveTrailer YOUTUBE_API_KEY Date_getFullYear youtubeApi_search
    videos title releaseDate = (sent, Ok (Some trailer)) ->
  Trailer.site trailer = "YouTube"
  /\ Trailer.url trailer = "https://www.youtube.com/watch?v=" ++ Trailer.key trailer
  /\ ((Trailer.source trailer = "tmdb" /\ sent = [])
      \/ (Trailer.source trailer = "youtube"
          /\ getValidTMDBTrailer (Some (default [] videos)) = None)).
Proof.
  unfold resolveTrailer.
  destruct (getValidTMDBTrailer (Some (default [] videos))) as [found|] eqn:Hprimary.
  - intros [= <- <-]. cbn. split; [now apply getValidTMDBTrailer_site in Hprimary|].
    split; [reflexivity|]. now left.
  - destruct (searchYouTubeTrailer _ _ _ _ _) as [sent' [[found|]|e]];
      cbn [mbind result_bind]; intros [= <- <-]. cbn.
    split; [reflexivity|]. split; [reflexivity|]. now right.
Qed.

Lemma resolveTrailer_watch_url_witness :
  Trailer.site
    {| Trailer.source := "youtube"; Trailer.key := "5PSNL1qE6VY";
       Trailer.name := "Movie Title Official Trailer"; Trailer.site := "YouTube";
       Trailer.url := "https://www.youtube.com/watch?v=5PSNL1qE6VY" |}
  = "YouTube".
Proof.
  apply (resolveTrailer_watch_url (Some "key") exampleYear exampleProvider
           None (Some "Movie Title") (Some "2009-12-18")
           ["Movie Title 2009 official trailer"]).
  vm_compute. reflexivity.
Defined.

Lemma combinedCast_merges_witness :
  In 17419
    (List.map Cast.id
       (combinedCast (Some [Cast.Person 17419 "Bryan Cranston" "Walter White"])
          (Some [Cast.Person 17419 "Bryan Cranston" "Walter White (voice)"]))).
Proof.
  destruct (combinedCast_merges [Cast.Person 17419 "Bryan Cranston" "Walter White"]
              [Cast.Person 17419 "Bryan Cranston" "Walter White (voice)"])
    as (_ & _ & _ & H).
  apply (H (Cast.Person 17419 "Bryan Cranston" "Walter White")). now left.
Defined.

Lemma getUpcomingMovies_result_witness :
  exists upcomingMovies,
    getUpcomingMovies "2022-12-01" (Ok [exampleMovie]) (Ok [exampleMovie])
      (Ok []) (Ok [])
    = Ok upcomingMovies
    /\ NoDup (List.map Media.id upcomingMovies).
Proof.
  destruct (getUpcomingMovies_result "2022-12-01" [exampleMovie] [exampleMovie] [] [])
    as ((upcomingMovies & Hget & _ & Hnd & _) & _).
  exists upcomingMovies. split; assumption.
Defined.

(** ** Deduplication, once more *)

Lemma firstOccurrences_keys {A K : Type} `{EqDecision K} (key : A -> K)
    (before items : list A) (x : A) :
  In x items ->
  In (key x) (List.map key before)
  \/ In (key x) (List.map key (spec_firstOccurrences key before items)).
Proof.
  revert before. induction items as [|y rest IH]; intros before Hx; [destruct Hx|].
  cbn [spec_firstOccurrences].
  destruct (existsb _ before) eqn:Hseen.
  - destruct Hx as [<- | Hx].
    + left. now apply seen_before.
    + destruct (IH (before ++ [y])%list Hx) as [Hb | Hr]; [|now right].
      rewrite List.map_app in Hb. apply in_app_or in Hb as [Hb | [<- | []]];
        [now left|]. left. now apply seen_before.
  - cbn [List.map In]. destruct Hx as [<- | Hx]; [right; now left|].
    destruct (IH (before ++ [y])%list Hx) as [Hb | Hr]; [|right; now right].
    rewrite List.map_app in Hb. apply in_app_or in Hb as [Hb | [<- | []]];
      [now left | right; now left].
Qed.

(** Deduplicating loses no key and is idempotent: every id (every key
    [media_type-id]) of the input is the id (key) of a retained item, and
    deduplicating the result again changes nothing.  When no kind has a
    hyphen, every item of the input has a retained item of its kind and
    its id. *)
Theorem deduplication_idempotent (items : list Media.item) :
  (forall item, In item items ->
     In (Media.id item) (List.map Media.id (uniqueMovies items)))
  /\ uniqueMovies (uniqueMovies items) = uniqueMovies items
  /\ (forall item, In item items ->
        In (contentKey item) (List.map contentKey (uniqueContent items)))
  /\ uniqueContent (uniqueContent items) = uniqueContent items
  /\ (Forall plainKind items ->
      forall item, In item items ->
        exists kept,
          In kept (uniqueContent items)
          /\ interpolate (Media.media_type kept) = interpolate (Media.media_type item)
          /\ Media.id kept = Media.id item).
Proof.
  split; [|split; [|split; [|split]]].
  - intros item Hitem. rewrite uniqueMovies_spec.
    destruct (firstOccurrences_keys Media.id [] items item Hitem) as [[] | H].
    exact H.
  - rewrite (uniqueMovies_spec (uniqueMovies items)).
    apply firstOccurrences_id. cbn [app]. rewrite uniqueMovies_spec.
    apply firstOccurrences_NoDup.
  - intros item Hitem. rewrite uniqueContent_spec.
    destruct (firstOccurrences_keys contentKey [] items item Hitem) as [[] | H].
    exact H.
  - rewrite (uniqueContent_spec (uniqueContent items)).
    apply firstOccurrences_id. cbn [app]. rewrite uniqueContent_spec.
    apply firstOccurrences_NoDup.
  - intros Hplain item Hitem. rewrite (uniqueContent_identity items Hplain).
    destruct (firstOccurrences_keys spec_identity [] items item Hitem) as [[] | H].
    apply in_map_iff in H as (kept & E & Hkept).
    exists kept. split; [exact Hkept|]. unfold spec_identity in E.
    now injection E.
Qed.

Lemma deduplication_idempotent_witness :
  exists kept,
    In kept
      (uniqueContent
         (addType [exampleShow] "tv" ++ addType [exampleShow] "anime"
          ++ addType [exampleShow] "tv")%list)
    /\ interpolate (Media.media_type kept) = "anime"
    /\ Media.id kept = 246.
Proof.
  destruct (deduplication_idempotent
              (addType [exampleShow] "tv" ++ addType [exampleShow] "anime"
               ++ addType [exampleShow] "tv")%list)
    as (_ & _ & _ & _ & H).
  refine (H _ (Media.Item 246 (Some "anime") _ _ _ _ _ _ _ _ _ _) _).
  - repeat constructor; intros Hdash; cbn in Hdash; intuition discriminate.
  - right. left. reflexivity.
Defined.
